(** * squirrel: rendering of UNION chains, CASE expressions and LATERAL parts

    A shallow embedding of the composite renderers of the SQL builder
    (union.go, case.go, joins.go) and the properties of their output:
    text, bound arguments and errors. *)

From Stdlib Require Import String Ascii List Arith NArith ZArith Lia Bool.
From Stdlib Require Import DecimalString DecimalPos.
Import ListNotations.
Open Scope string_scope.

Set Implicit Arguments.

(** ** Go values

    Bound arguments are Go values of dynamic type; the renderers never look
    inside them, except to compare with [nil]. *)

Inductive value : Type :=
| vnil
| vint (z : Z)
| vstring (s : string)
| vbool (b : bool).

Definition isNil (v : value) : bool :=
  match v with vnil => true | _ => false end.

Definition isSome {A : Type} (o : option A) : bool :=
  match o with Some _ => true | None => false end.

(** An [any] handed to a builder method is told apart by a type switch:
    a value that implements the Sqlizer interface, or any other value. *)
Inductive any (Sqlizer : Type) : Type :=
| AnySqlizer (s : Sqlizer)
| AnyValue (v : value).
Arguments AnySqlizer {Sqlizer} s.
Arguments AnyValue {Sqlizer} v.

(** Go errors: [errors.New] (and [fmt.Errorf] without %w) build a leaf,
    [fmt.Errorf] with %w keeps the wrapped error next to the message. *)
Inductive error : Type :=
| errorString (msg : string)
| wrapError (msg : string) (err : error).

Definition Error (e : error) : string :=
  match e with
  | errorString msg => msg
  | wrapError msg _ => msg
  end.

Definition Unwrap (e : error) : option error :=
  match e with
  | errorString _ => None
  | wrapError _ err => Some err
  end.

(** What every [ToSql] returns: text, bound arguments, error. *)
Definition result : Type := (string * list value * option error)%type.

Definition resultSql (r : result) : string := fst (fst r).
Definition resultArgs (r : result) : list value := snd (fst r).
Definition resultErr (r : result) : option error := snd r.

(** ** bytes.Buffer, fmt and strings *)

Definition Buffer : Type := string.

Definition WriteString (buf : Buffer) (s : string) : Buffer := buf ++ s.
Definition WriteByte (buf : Buffer) (c : ascii) : Buffer := buf ++ String c "".

(** The verb %d on an int index and on a uint64. *)
Definition itoa (n : nat) : string := NilEmpty.string_of_uint (Nat.to_uint n).
Definition utoa (n : N) : string := NilEmpty.string_of_uint (N.to_uint n).

(** [strings.Join]. *)
Definition Join (elems : list string) (sep : string) : string :=
  String.concat sep elems.

(** *** UTF-8 decoding, as [utf8.DecodeRuneInString] does it *)

Definition rune : Type := N.
Definition RuneError : rune := 65533%N.
Definition RuneSelf : N := 128%N.
Definition locb : N := 128%N.
Definition hicb : N := 191%N.

Definition inRange (lo hi b : N) : bool := ((lo <=? b) && (b <=? hi))%N.

(** The table [first] with [acceptRanges]: for a leading byte of a
    multi-byte sequence, its length and the range of its second byte. *)
Definition first (b : N) : option (nat * N * N) :=
  (if b <? 194 then None
   else if b <=? 223 then Some (2%nat, locb, hicb)
   else if b =? 224 then Some (3%nat, 160, hicb)
   else if b <=? 236 then Some (3%nat, locb, hicb)
   else if b =? 237 then Some (3%nat, locb, 159)
   else if b <=? 239 then Some (3%nat, locb, hicb)
   else if b =? 240 then Some (4%nat, 144, hicb)
   else if b <=? 243 then Some (4%nat, locb, hicb)
   else if b =? 244 then Some (4%nat, locb, 143)
   else None)%N.

Definition rune2 (s0 s1 : N) : rune :=
  N.lor (N.shiftl (N.land s0 31) 6) (N.land s1 63).
Definition rune3 (s0 s1 s2 : N) : rune :=
  N.lor (N.lor (N.shiftl (N.land s0 15) 12) (N.shiftl (N.land s1 63) 6))
        (N.land s2 63).
Definition rune4 (s0 s1 s2 s3 : N) : rune :=
  N.lor (N.lor (N.lor (N.shiftl (N.land s0 7) 18) (N.shiftl (N.land s1 63) 12))
               (N.shiftl (N.land s2 63) 6))
        (N.land s3 63).

Definition DecodeRuneInString (s : string) : rune * nat :=
  match s with
  | "" => (RuneError, 0)
  | String c0 t0 =>
    let s0 := N_of_ascii c0 in
    match first s0 with
    | None => ((if s0 <? RuneSelf then s0 else RuneError)%N, 1)
    | Some (sz, lo, hi) =>
      match t0 with
      | "" => (RuneError, 1)
      | String c1 t1 =>
        let s1 := N_of_ascii c1 in
        if negb (inRange lo hi s1) then (RuneError, 1)
        else if Nat.leb sz 2 then (rune2 s0 s1, 2)
        else
          match t1 with
          | "" => (RuneError, 1)
          | String c2 t2 =>
            let s2 := N_of_ascii c2 in
            if negb (inRange locb hicb s2) then (RuneError, 1)
            else if Nat.leb sz 3 then (rune3 s0 s1 s2, 3)
            else
              match t2 with
              | "" => (RuneError, 1)
              | String c3 _ =>
                let s3 := N_of_ascii c3 in
                if negb (inRange locb hicb s3) then (RuneError, 1)
                else (rune4 s0 s1 s2 s3, 4)
              end
          end
      end
    end
  end.

(** [for _, r := range s]: the runes of a string, each with its bytes. *)
Fixpoint runes (s : string) : list (rune * string) :=
  match s with
  | "" => []
  | String c0 t0 =>
    let '(r, size) := DecodeRuneInString s in
    match size, t0 with
    | 2, String c1 t1 => (r, String c0 (String c1 "")) :: runes t1
    | 3, String c1 (String c2 t2) =>
      (r, String c0 (String c1 (String c2 ""))) :: runes t2
    | 4, String c1 (String c2 (String c3 t3)) =>
      (r, String c0 (String c1 (String c2 (String c3 "")))) :: runes t3
    | _, _ => (r, String c0 "") :: runes t0
    end
  end.

(** [unicode.IsSpace]. *)
Definition IsSpace (r : rune) : bool :=
  (if r <=? 255 then
     (9 <=? r) && (r <=? 13) || (r =? 32) || (r =? 133) || (r =? 160)
   else
     (r =? 5760) || (8192 <=? r) && (r <=? 8202) || (r =? 8232) || (r =? 8233)
     || (r =? 8239) || (r =? 8287) || (r =? 12288))%N.

(** [strings.FieldsFunc] over the decoded runes: [start] is the field
    being read, if any. *)
Fixpoint fieldsLoop (rs : list (rune * string)) (start : option string)
  : list string :=
  match rs with
  | [] => match start with Some w => [w] | None => [] end
  | (r, bytes) :: rest =>
    if IsSpace r then
      match start with
      | Some w => w :: fieldsLoop rest None
      | None => fieldsLoop rest None
      end
    else
      fieldsLoop rest
        (Some (match start with Some w => w ++ bytes | None => bytes end))
  end.

(** [strings.Fields]. *)
Definition Fields (s : string) : list string := fieldsLoop (runes s) None.

(** ** Placeholders

    placeholder.go is outside the files verified here. *)

(** Modelled from the spec: the placeholder formats, which section 6 gives as
    the enumerated set QuestionMark, DollarNumbered, ColonNumbered and
    AtNumbered. *)
Inductive PlaceholderFormat : Type :=
| Question
| Dollar
| Colon
| AtP.

(** Modelled from the spec: the neutral marker, a question mark. *)
Definition isMarker (c : ascii) : bool := Ascii.eqb c "?".

(** The number of neutral markers of a text. *)
Fixpoint markers (sql : string) : nat :=
  match sql with
  | "" => 0
  | String c rest => (if isMarker c then 1 else 0) + markers rest
  end.

(** Modelled from the spec: the rewrite of section 4.2 for the ordinal formats,
    which scans the text left to right and replaces the Nth neutral marker by
    the encoding of N, leaving every other character untouched. *)
Fixpoint replacePositionalPlaceholders (sql prefix : string) (n : nat)
  : string :=
  match sql with
  | "" => ""
  | String c rest =>
    if isMarker c
    then prefix ++ itoa n ++ replacePositionalPlaceholders rest prefix (S n)
    else String c (replacePositionalPlaceholders rest prefix n)
  end.

(** Modelled from the spec: what an ordinal format writes before the number
    (section 3: dollar-numbered as in $1, colon-numbered, at-numbered). *)
Definition ordinalPrefix (f : PlaceholderFormat) : option string :=
  match f with
  | Question => None
  | Dollar => Some "$"
  | Colon => Some ":"
  | AtP => Some "@p"
  end.

(** Modelled from the spec: [ReplacePlaceholders], the identity for the
    question-mark format and the 1-based positional rewrite for the others;
    it rewrites the markers it finds and does not fail. *)
Definition ReplacePlaceholders (f : PlaceholderFormat) (sql : string)
  : string * option error :=
  match ordinalPrefix f with
  | None => (sql, None)
  | Some prefix => (replacePositionalPlaceholders sql prefix 1, None)
  end.

(** Modelled from the spec: [Placeholders], one neutral marker for each of
    [count] bound values (section 4.4: a literal THEN or ELSE value
    contributes exactly one neutral placeholder). *)
Definition Placeholders (count : nat) : string := Join (repeat "?" count) ",".

(** ** The Sqlizer interface

    The renderers reach their children only through the interface method
    [ToSql] and through helpers of the package that are outside the files
    verified here ([nestedToSql], [appendToSql], [newPart]); they are taken
    as given.
    [appendToSql] receives an [io.Writer], to which it can only write: it is
    given by the text it writes, next to the grown argument list and the
    error it returns. *)
Class Renderable (Sqlizer : Type) : Type := {
  ToSql : Sqlizer -> result;
  nestedToSql : Sqlizer -> result;
  appendToSql :
    list Sqlizer -> string -> list value ->
    string * (list value * option error);
  newPart : any Sqlizer -> Sqlizer
}.

(** ** union.go *)

Definition unionOp : Type := string.
Definition unionDistinct : unionOp := "UNION".
Definition unionAll : unionOp := "UNION ALL".

Record unionPart (Sqlizer : Type) : Type := {
  op : unionOp;
  query : Sqlizer
}.

Record unionData (Sqlizer : Type) : Type := {
  unionPlaceholderFormat : option PlaceholderFormat;
  Parts : list (unionPart Sqlizer);
  OrderBy : list string;
  LimitSet : bool;
  Limit : N;
  OffsetSet : bool;
  Offset : N;
  Suffixes : list Sqlizer;
  CompactOutput : bool
}.

Definition errUnionEmpty : error :=
  errorString "squirrel: union requires at least one SELECT".

Definition errUnionSubquery (i : nat) (err : error) : error :=
  wrapError ("squirrel: union subquery " ++ itoa i ++ ": " ++ Error err) err.

(** [compactSQL] collapses all whitespace into single spaces. *)
Definition compactSQL (s : string) : string := Join (Fields s) " ".

Section Union.
Context {Sqlizer : Type} `{Renderable Sqlizer}.

(** The loop over [d.Parts], from index [i] on: the buffer and the arguments,
    or the error of the first subquery that fails. *)
Fixpoint unionParts (parts : list (unionPart Sqlizer)) (i : nat)
    (buf : Buffer) (args : list value) : (Buffer * list value) + error :=
  match parts with
  | [] => inl (buf, args)
  | p :: rest =>
    let '(subSQL, subArgs, err) := ToSql (query p) in
    match err with
    | Some e => inr (errUnionSubquery i e)
    | None =>
      let buf :=
        if Nat.ltb 0 i
        then WriteByte (WriteString (WriteByte buf " ") (op p)) " "
        else buf in
      let buf := WriteByte (WriteString (WriteByte buf "(") subSQL) ")" in
      unionParts rest (S i) buf (args ++ subArgs)
    end
  end.

(** The whole-union clauses ORDER BY, LIMIT and OFFSET. *)
Definition unionClauses (d : unionData Sqlizer) (buf : Buffer) : Buffer :=
  let buf :=
    if Nat.ltb 0 (List.length (OrderBy d))
    then WriteString (WriteString buf " ORDER BY ") (Join (OrderBy d) ", ")
    else buf in
  let buf :=
    if LimitSet d then WriteString buf (" LIMIT " ++ utoa (Limit d)) else buf in
  if OffsetSet d then WriteString buf (" OFFSET " ++ utoa (Offset d)) else buf.

(** Placeholder replacement, then the optional compaction. *)
Definition unionFinish (d : unionData Sqlizer) (sqlStr : string)
    (args : list value) : result :=
  let '(sqlStr, err) :=
    match unionPlaceholderFormat d with
    | Some f => ReplacePlaceholders f sqlStr
    | None => (sqlStr, None)
    end in
  match err with
  | Some e => ("", [], Some e)
  | None =>
    let sqlStr := if CompactOutput d then compactSQL sqlStr else sqlStr in
    (sqlStr, args, None)
  end.

Definition unionData_toSql (d : unionData Sqlizer) : result :=
  if Nat.eqb (List.length (Parts d)) 0 then ("", [], Some errUnionEmpty)
  else
    match unionParts (Parts d) 0 "" [] with
    | inr e => ("", [], Some e)
    | inl (buf, args) =>
      let buf := unionClauses d buf in
      let '(buf, (args, err)) :=
        if Nat.ltb 0 (List.length (Suffixes d))
        then
          let '(written, (args, err)) := appendToSql (Suffixes d) " " args in
          (WriteString (WriteByte buf " ") written, (args, err))
        else (buf, (args, None)) in
      match err with
      | Some e => ("", [], Some e)
      | None => unionFinish d buf args
      end
    end.

(** The builder: every method returns a new state. *)
Definition emptyUnion : unionData Sqlizer :=
  {| unionPlaceholderFormat := None; Parts := []; OrderBy := [];
     LimitSet := false; Limit := 0; OffsetSet := false; Offset := 0;
     Suffixes := []; CompactOutput := false |}.

Definition appendPart (b : unionData Sqlizer) (p : unionPart Sqlizer)
  : unionData Sqlizer :=
  {| unionPlaceholderFormat := unionPlaceholderFormat b;
     Parts := Parts b ++ [p]; OrderBy := OrderBy b;
     LimitSet := LimitSet b; Limit := Limit b;
     OffsetSet := OffsetSet b; Offset := Offset b;
     Suffixes := Suffixes b; CompactOutput := CompactOutput b |}.

(** The loop of [Union] and [UnionAll] over their arguments. *)
Fixpoint unionOf (o : unionOp) (parts : list Sqlizer) (i : nat)
    (u : unionData Sqlizer) : unionData Sqlizer :=
  match parts with
  | [] => u
  | p :: rest =>
    let u :=
      if Nat.eqb i 0 then appendPart u {| op := ""; query := p |}
      else appendPart u {| op := o; query := p |} in
    unionOf o rest (S i) u
  end.

Definition Union (parts : list Sqlizer) : unionData Sqlizer :=
  unionOf unionDistinct parts 0 emptyUnion.

Definition UnionAll (parts : list Sqlizer) : unionData Sqlizer :=
  unionOf unionAll parts 0 emptyUnion.

Definition UnionBuilder_Union (b : unionData Sqlizer) (q : Sqlizer)
  : unionData Sqlizer :=
  appendPart b {| op := unionDistinct; query := q |}.

Definition UnionBuilder_UnionAll (b : unionData Sqlizer) (q : Sqlizer)
  : unionData Sqlizer :=
  appendPart b {| op := unionAll; query := q |}.

Definition UnionBuilder_OrderBy (b : unionData Sqlizer) (exprs : list string)
  : unionData Sqlizer :=
  {| unionPlaceholderFormat := unionPlaceholderFormat b;
     Parts := Parts b; OrderBy := OrderBy b ++ exprs;
     LimitSet := LimitSet b; Limit := Limit b;
     OffsetSet := OffsetSet b; Offset := Offset b;
     Suffixes := Suffixes b; CompactOutput := CompactOutput b |}.

Definition UnionBuilder_Limit (b : unionData Sqlizer) (n : N)
  : unionData Sqlizer :=
  {| unionPlaceholderFormat := unionPlaceholderFormat b;
     Parts := Parts b; OrderBy := OrderBy b;
     LimitSet := true; Limit := n;
     OffsetSet := OffsetSet b; Offset := Offset b;
     Suffixes := Suffixes b; CompactOutput := CompactOutput b |}.

Definition UnionBuilder_Offset (b : unionData Sqlizer) (n : N)
  : unionData Sqlizer :=
  {| unionPlaceholderFormat := unionPlaceholderFormat b;
     Parts := Parts b; OrderBy := OrderBy b;
     LimitSet := LimitSet b; Limit := Limit b;
     OffsetSet := true; Offset := n;
     Suffixes := Suffixes b; CompactOutput := CompactOutput b |}.

Definition UnionBuilder_Suffix (b : unionData Sqlizer) (exprs : list Sqlizer)
  : unionData Sqlizer :=
  {| unionPlaceholderFormat := unionPlaceholderFormat b;
     Parts := Parts b; OrderBy := OrderBy b;
     LimitSet := LimitSet b; Limit := Limit b;
     OffsetSet := OffsetSet b; Offset := Offset b;
     Suffixes := Suffixes b ++ exprs; CompactOutput := CompactOutput b |}.

Definition UnionBuilder_PlaceholderFormat (b : unionData Sqlizer)
    (f : PlaceholderFormat) : unionData Sqlizer :=
  {| unionPlaceholderFormat := Some f;
     Parts := Parts b; OrderBy := OrderBy b;
     LimitSet := LimitSet b; Limit := Limit b;
     OffsetSet := OffsetSet b; Offset := Offset b;
     Suffixes := Suffixes b; CompactOutput := CompactOutput b |}.

Definition UnionBuilder_Compact (b : unionData Sqlizer) : unionData Sqlizer :=
  {| unionPlaceholderFormat := unionPlaceholderFormat b;
     Parts := Parts b; OrderBy := OrderBy b;
     LimitSet := LimitSet b; Limit := Limit b;
     OffsetSet := OffsetSet b; Offset := Offset b;
     Suffixes := Suffixes b; CompactOutput := true |}.

(** A chain of calls on a union builder. *)
Inductive unionCall : Type :=
| CallUnion (q : Sqlizer)
| CallUnionAll (q : Sqlizer)
| CallOrderBy (exprs : list string)
| CallLimit (n : N)
| CallOffset (n : N)
| CallSuffix (exprs : list Sqlizer)
| CallPlaceholderFormat (f : PlaceholderFormat)
| CallCompact.

Definition applyCall (b : unionData Sqlizer) (c : unionCall)
  : unionData Sqlizer :=
  match c with
  | CallUnion q => UnionBuilder_Union b q
  | CallUnionAll q => UnionBuilder_UnionAll b q
  | CallOrderBy exprs => UnionBuilder_OrderBy b exprs
  | CallLimit n => UnionBuilder_Limit b n
  | CallOffset n => UnionBuilder_Offset b n
  | CallSuffix exprs => UnionBuilder_Suffix b exprs
  | CallPlaceholderFormat f => UnionBuilder_PlaceholderFormat b f
  | CallCompact => UnionBuilder_Compact b
  end.

Definition applyCalls (b : unionData Sqlizer) (cs : list unionCall)
  : unionData Sqlizer :=
  fold_left applyCall cs b.

Definition isCallLimit (c : unionCall) : bool :=
  match c with CallLimit _ => true | _ => false end.

Definition isCallOffset (c : unionCall) : bool :=
  match c with CallOffset _ => true | _ => false end.

End Union.

(** ** case.go *)

(** [sqlizerBuffer] writes many Sqlizers one by one and remembers the first
    error. *)
Record sqlizerBuffer : Type := {
  sbBuffer : Buffer;
  sbArgs : list value;
  sbErr : option error
}.

Definition sbWriteString (b : sqlizerBuffer) (s : string) : sqlizerBuffer :=
  {| sbBuffer := WriteString (sbBuffer b) s;
     sbArgs := sbArgs b; sbErr := sbErr b |}.

Definition sbAppendArg (b : sqlizerBuffer) (v : value) : sqlizerBuffer :=
  {| sbBuffer := sbBuffer b; sbArgs := sbArgs b ++ [v]; sbErr := sbErr b |}.

Definition sqlizerBuffer_ToSql (b : sqlizerBuffer) : result :=
  (sbBuffer b, sbArgs b, sbErr b).

Record whenPart (Sqlizer : Type) : Type := {
  when : Sqlizer;
  then_ : option Sqlizer;
  thenValue : value;
  nullThen : bool
}.

Record caseData (Sqlizer : Type) : Type := {
  What : option Sqlizer;
  WhenParts : list (whenPart Sqlizer);
  Else : option Sqlizer;
  ElseValue : value;
  ElseNull : bool
}.

Definition errCaseNoWhen : error :=
  errorString "case expression must contain at lease one WHEN clause".

Definition errWhenNoThen : error :=
  errorString "When clause must have Then part".

Section Case.
Context {Sqlizer : Type} `{Renderable Sqlizer}.

Definition WriteSql (b : sqlizerBuffer) (item : Sqlizer) : sqlizerBuffer :=
  match sbErr b with
  | Some _ => b
  | None =>
    let '(str, args, err) := nestedToSql item in
    match err with
    | Some e =>
      {| sbBuffer := sbBuffer b; sbArgs := sbArgs b; sbErr := Some e |}
    | None =>
      {| sbBuffer := WriteByte (WriteString (sbBuffer b) str) " ";
         sbArgs := sbArgs b ++ args; sbErr := None |}
    end
  end.

Definition newWhenPart (when_ then' : any Sqlizer) : whenPart Sqlizer :=
  match then' with
  | AnySqlizer _ =>
    {| when := newPart when_; then_ := Some (newPart then');
       thenValue := vnil; nullThen := false |}
  | AnyValue t =>
    if isNil t
    then {| when := newPart when_; then_ := None;
            thenValue := vnil; nullThen := true |}
    else {| when := newPart when_; then_ := None;
            thenValue := t; nullThen := false |}
  end.

(** A WHEN part that has no THEN in any of its three forms. *)
Definition missingThen (p : whenPart Sqlizer) : bool :=
  match then_ p with
  | Some _ => false
  | None => isNil (thenValue p) && negb (nullThen p)
  end.

(** The loop over [d.WhenParts]; [None] is the return from inside the loop,
    on a WHEN part without THEN. *)
Fixpoint caseWhenParts (parts : list (whenPart Sqlizer)) (sql : sqlizerBuffer)
  : option sqlizerBuffer :=
  match parts with
  | [] => Some sql
  | p :: rest =>
    let sql := sbWriteString sql "WHEN " in
    let sql := WriteSql sql (when p) in
    if missingThen p then None
    else
      let sql := sbWriteString sql "THEN " in
      let sql :=
        match then_ p with
        | Some t => WriteSql sql t
        | None =>
          sbAppendArg (sbWriteString sql (Placeholders 1 ++ " ")) (thenValue p)
        end in
      caseWhenParts rest sql
  end.

(** The ELSE part and the closing END, written after the WHEN parts. *)
Definition caseElse (d : caseData Sqlizer) (sql : sqlizerBuffer)
  : sqlizerBuffer :=
  let sql :=
    if isSome (Else d) || negb (isNil (ElseValue d)) || ElseNull d
    then sbWriteString sql "ELSE "
    else sql in
  let sql :=
    match Else d with
    | Some e => WriteSql sql e
    | None =>
      if negb (isNil (ElseValue d)) || ElseNull d
      then sbAppendArg (sbWriteString sql (Placeholders 1 ++ " ")) (ElseValue d)
      else sql
    end in
  sbWriteString sql "END".

(** The buffer after CASE and the optional operand. *)
Definition caseHead (d : caseData Sqlizer) : sqlizerBuffer :=
  let sql := {| sbBuffer := ""; sbArgs := []; sbErr := None |} in
  let sql := sbWriteString sql "CASE " in
  match What d with
  | Some w => WriteSql sql w
  | None => sql
  end.

Definition caseData_ToSql (d : caseData Sqlizer) : result :=
  if Nat.eqb (List.length (WhenParts d)) 0 then ("", [], Some errCaseNoWhen)
  else
    match caseWhenParts (WhenParts d) (caseHead d) with
    | None => ("", [], Some errWhenNoThen)
    | Some sql => sqlizerBuffer_ToSql (caseElse d sql)
    end.

Definition emptyCase : caseData Sqlizer :=
  {| What := None; WhenParts := []; Else := None;
     ElseValue := vnil; ElseNull := false |}.

Definition CaseBuilder_what (b : caseData Sqlizer) (e : any Sqlizer)
  : caseData Sqlizer :=
  {| What := Some (newPart e); WhenParts := WhenParts b; Else := Else b;
     ElseValue := ElseValue b; ElseNull := ElseNull b |}.

Definition CaseBuilder_When (b : caseData Sqlizer) (when_ then' : any Sqlizer)
  : caseData Sqlizer :=
  {| What := What b; WhenParts := WhenParts b ++ [newWhenPart when_ then'];
     Else := Else b; ElseValue := ElseValue b; ElseNull := ElseNull b |}.

Definition CaseBuilder_Else (b : caseData Sqlizer) (e : any Sqlizer)
  : caseData Sqlizer :=
  match e with
  | AnySqlizer _ =>
    {| What := What b; WhenParts := WhenParts b; Else := Some (newPart e);
       ElseValue := ElseValue b; ElseNull := ElseNull b |}
  | AnyValue v =>
    if isNil v
    then {| What := What b; WhenParts := WhenParts b; Else := Else b;
            ElseValue := ElseValue b; ElseNull := true |}
    else {| What := What b; WhenParts := WhenParts b; Else := Else b;
            ElseValue := v; ElseNull := ElseNull b |}
  end.

End Case.

(** ** joins.go: the LATERAL parts *)

Record fromSelectLateralPart (Sqlizer : Type) : Type := {
  fromSel : Sqlizer;
  fromAlias : string
}.

Record joinLateralSelectPart (Sqlizer : Type) : Type := {
  joinType : string;
  sel : Sqlizer;
  alias : string;
  on : option Sqlizer
}.

Section Lateral.
Context {Sqlizer : Type} `{Renderable Sqlizer}.

Definition fromSelectLateralPart_ToSql (p : fromSelectLateralPart Sqlizer)
  : result :=
  let '(subSql, subArgs, err) := ToSql (fromSel p) in
  match err with
  | Some e => ("", [], Some e)
  | None => ("LATERAL (" ++ subSql ++ ") AS " ++ fromAlias p, subArgs, None)
  end.

Definition joinLateralSelectPart_ToSql (p : joinLateralSelectPart Sqlizer)
  : result :=
  let '(subSql, subArgs, err) := ToSql (sel p) in
  match err with
  | Some e => ("", [], Some e)
  | None =>
    let buf :=
      WriteString "" (joinType p ++ " LATERAL (" ++ subSql ++ ") AS " ++ alias p) in
    let args := subArgs in
    match on p with
    | Some o =>
      let '(onSql, onArgs, err) := ToSql o in
      match err with
      | Some e => ("", [], Some e)
      | None => (WriteString buf (" ON " ++ onSql), (args ++ onArgs)%list, None)
      end
    | None => (buf, args, None)
    end
  end.

End Lateral.

(** ** The statements that embed the parts

    select.go and the builder of common table expressions are outside the
    files verified here; joins.go sets the fields [From] and [Joins] of the
    one and the placeholder format of both. *)

(** Modelled from the spec: the state of a SELECT builder, with the
    placeholder format, the result columns, the FROM part, the JOIN parts and
    the WHERE parts (section 3 names the list of JOIN parts, section 4.6 the
    from-clause part); the other clauses of a SELECT are left out. *)
Record selectData (Sqlizer : Type) : Type := {
  selectPlaceholderFormat : option PlaceholderFormat;
  Columns : list Sqlizer;
  From : option Sqlizer;
  Joins : list Sqlizer;
  WhereParts : list Sqlizer
}.

(** Modelled from the spec: the state of a builder of common table
    expressions, of which section 4.6 only says that it can be embedded and
    that it has a placeholder format; the neutral rendering of its clauses is
    carried as given. *)
Record cteData : Type := {
  ctePlaceholderFormat : option PlaceholderFormat;
  cteRaw : result
}.

(** Modelled from the spec: the last step of a statement's [ToSql], the
    statement's own placeholder format applied to the neutral text. *)
Definition applyPlaceholderFormat (f : option PlaceholderFormat) (r : result)
  : result :=
  let '(sqlStr, args, err) := r in
  match err with
  | Some e => ("", [], Some e)
  | None =>
    match f with
    | None => (sqlStr, args, None)
    | Some f =>
      let '(sqlStr, err) := ReplacePlaceholders f sqlStr in
      match err with
      | Some e => ("", [], Some e)
      | None => (sqlStr, args, None)
      end
    end
  end.

Section Select.
Context {Sqlizer : Type} `{Renderable Sqlizer}.

(** Modelled from the spec: one clause of a statement, a keyword and then
    the parts, separated. *)
Definition selectClause (keyword : string) (parts : list Sqlizer)
    (sep : string) (st : Buffer * (list value * option error))
  : Buffer * (list value * option error) :=
  let '(buf, (args, err)) := st in
  match err with
  | Some e => (buf, (args, Some e))
  | None =>
    if Nat.ltb 0 (List.length parts)
    then
      let '(written, (args, err)) := appendToSql parts sep args in
      (WriteString (WriteString buf keyword) written, (args, err))
    else (buf, (args, None))
  end.

(** Modelled from the spec: the neutral rendering of a SELECT, section 2: the
    parent renders each child left to right, concatenates the text with the
    SQL keywords and the arguments in the same order; the expected texts are
    those of the tests of joins.go. *)
Definition selectData_toSqlRaw (d : selectData Sqlizer) : result :=
  let st := (WriteString "" "SELECT ", ([], None)) in
  let st := selectClause "" (Columns d) ", " st in
  let st :=
    match From d with
    | Some f => selectClause " FROM " [f] "" st
    | None => st
    end in
  let st := selectClause " " (Joins d) " " st in
  let st := selectClause " WHERE " (WhereParts d) " AND " st in
  let '(buf, (args, err)) := st in
  match err with
  | Some e => ("", [], Some e)
  | None => (buf, args, None)
  end.

(** Modelled from the spec: only the outermost render applies the
    placeholder format, to the fully assembled text (section 2). *)
Definition selectData_ToSql (d : selectData Sqlizer) : result :=
  applyPlaceholderFormat (selectPlaceholderFormat d) (selectData_toSqlRaw d).

(** Modelled from the spec: the setter of the placeholder format. *)
Definition SelectBuilder_PlaceholderFormat (b : selectData Sqlizer)
    (f : PlaceholderFormat) : selectData Sqlizer :=
  {| selectPlaceholderFormat := Some f; Columns := Columns b;
     From := From b; Joins := Joins b; WhereParts := WhereParts b |}.

(** [builder.Set(b, "From", f)] and [builder.Append(b, "Joins", j)]. *)
Definition setFrom (b : selectData Sqlizer) (f : Sqlizer)
  : selectData Sqlizer :=
  {| selectPlaceholderFormat := selectPlaceholderFormat b;
     Columns := Columns b; From := Some f; Joins := Joins b;
     WhereParts := WhereParts b |}.

Definition appendJoin (b : selectData Sqlizer) (j : Sqlizer)
  : selectData Sqlizer :=
  {| selectPlaceholderFormat := selectPlaceholderFormat b;
     Columns := Columns b; From := From b; Joins := Joins b ++ [j];
     WhereParts := WhereParts b |}.

(** Modelled from the spec: [appendToSql], which renders the parts in order
    through [nestedToSql], writes them separated by [sep] (section 6: the
    suffixes are space-joined), appends their arguments in the same order
    and stops at the first error. *)
Fixpoint appendToSqlFrom (nested : Sqlizer -> result) (parts : list Sqlizer)
    (i : nat) (w : Buffer) (sep : string) (args : list value)
  : Buffer * (list value * option error) :=
  match parts with
  | [] => (w, (args, None))
  | p :: rest =>
    let '(partSql, partArgs, err) := nested p in
    match err with
    | Some e => (w, ([], Some e))
    | None =>
      let w := if Nat.ltb 0 i then WriteString w sep else w in
      let w := WriteString w partSql in
      appendToSqlFrom nested rest (S i) w sep (args ++ partArgs)
    end
  end.

End Select.

(** Modelled from the spec: the setter of the placeholder format. *)
Definition CommonTableExpressionsBuilder_PlaceholderFormat (b : cteData)
    (f : PlaceholderFormat) : cteData :=
  {| ctePlaceholderFormat := Some f; cteRaw := cteRaw b |}.

(** ** The fragments

    The dynamic types behind the interface: the builders and parts above,
    a part wrapping a value handed in as [any], and [Opaque] for every other
    implementation (raw expressions, predicates), given by what its [ToSql]
    returns. *)
Local Unset Elimination Schemes.
Inductive Fragment : Type :=
| Opaque (r : result)
| Part (pred : any Fragment)
| SelectBuilder (d : selectData Fragment)
| CommonTableExpressionsBuilder (d : cteData)
| UnionBuilder (d : unionData Fragment)
| CaseBuilder (d : caseData Fragment)
| FromSelectLateralPart (p : fromSelectLateralPart Fragment)
| JoinLateralSelectPart (p : joinLateralSelectPart Fragment).
Local Set Elimination Schemes.

(** A raw expression, [Expr(sql, args...)]. *)
Definition Expr (sql : string) (args : list value) : Fragment :=
  Opaque (sql, args, None).

(** [render false] is [ToSql], [render true] is [nestedToSql], which renders
    a statement in its neutral form.  Modelled from the spec: a part renders
    the fragment it wraps, or binds the value it wraps to one placeholder
    (section 3). *)
Fixpoint render (nested : bool) (s : Fragment) {struct s} : result :=
  let R : Renderable Fragment :=
    {| ToSql := render false; nestedToSql := render true;
       appendToSql := fun parts => appendToSqlFrom (render true) parts 0 "";
       newPart := Part |} in
  match s with
  | Opaque r => r
  | Part pred =>
    match pred with
    | AnySqlizer q => render true q
    | AnyValue v => (Placeholders 1, [v], None)
    end
  | SelectBuilder d =>
    if nested then selectData_toSqlRaw d else selectData_ToSql d
  | CommonTableExpressionsBuilder d =>
    if nested then cteRaw d
    else applyPlaceholderFormat (ctePlaceholderFormat d) (cteRaw d)
  | UnionBuilder d => unionData_toSql d
  | CaseBuilder d => caseData_ToSql d
  | FromSelectLateralPart p => fromSelectLateralPart_ToSql p
  | JoinLateralSelectPart p => joinLateralSelectPart_ToSql p
  end.

#[export] Instance Fragment_Renderable : Renderable Fragment :=
  {| ToSql := render false; nestedToSql := render true;
     appendToSql := fun parts => appendToSqlFrom (render true) parts 0 "";
     newPart := Part |}.

(** *** joins.go: attaching the LATERAL parts *)

Definition forceQuestionPlaceholders (s : Fragment) : Fragment :=
  match s with
  | SelectBuilder v => SelectBuilder (SelectBuilder_PlaceholderFormat v Question)
  | CommonTableExpressionsBuilder v =>
    CommonTableExpressionsBuilder
      (CommonTableExpressionsBuilder_PlaceholderFormat v Question)
  | _ => s
  end.

Definition SelectBuilder_FromSelectLateral (b : selectData Fragment)
    (sel : Fragment) (alias : string) : selectData Fragment :=
  let sel := forceQuestionPlaceholders sel in
  setFrom b (FromSelectLateralPart {| fromSel := sel; fromAlias := alias |}).

Definition SelectBuilder_JoinLateralSelect (b : selectData Fragment)
    (sel : Fragment) (alias : string) (on : option Fragment)
  : selectData Fragment :=
  let sel := forceQuestionPlaceholders sel in
  let part :=
    {| joinType := "JOIN"; sel := sel; alias := alias; on := on |} in
  appendJoin b (JoinLateralSelectPart part).

Definition SelectBuilder_LeftJoinLateralSelect (b : selectData Fragment)
    (sel : Fragment) (alias : string) (on : option Fragment)
  : selectData Fragment :=
  let sel := forceQuestionPlaceholders sel in
  let part :=
    {| joinType := "LEFT JOIN"; sel := sel; alias := alias; on := on |} in
  appendJoin b (JoinLateralSelectPart part).

Definition SelectBuilder_CrossJoinLateralSelect (b : selectData Fragment)
    (sel : Fragment) (alias : string) : selectData Fragment :=
  let sel := forceQuestionPlaceholders sel in
  let part :=
    {| joinType := "CROSS JOIN"; sel := sel; alias := alias; on := None |} in
  appendJoin b (JoinLateralSelectPart part).

(** ** What the specification says of a union's body

    Stated from the words of the specification, to be compared with the loop
    of [unionData_toSql]: segment 0 in parentheses; then, for each further
    segment, a space, the operator of that segment, a space and the segment
    in parentheses. *)
Section UnionSpec.
Context {Sqlizer : Type} `{Renderable Sqlizer}.

Definition segmentSql (p : unionPart Sqlizer) : string :=
  resultSql (ToSql (query p)).

Definition segmentArgs (p : unionPart Sqlizer) : list value :=
  resultArgs (ToSql (query p)).

Definition segmentOk (p : unionPart Sqlizer) : Prop :=
  resultErr (ToSql (query p)) = None.

Fixpoint unionTail (parts : list (unionPart Sqlizer)) : string :=
  match parts with
  | [] => ""
  | p :: rest => " " ++ op p ++ " (" ++ segmentSql p ++ ")" ++ unionTail rest
  end.

Definition unionBody (parts : list (unionPart Sqlizer)) : string :=
  match parts with
  | [] => ""
  | p :: rest => "(" ++ segmentSql p ++ ")" ++ unionTail rest
  end.

(** The operator of a segment is one of the two combining keywords. *)
Definition combining (p : unionPart Sqlizer) : Prop :=
  op p = unionDistinct \/ op p = unionAll.

Definition unionArgs (parts : list (unionPart Sqlizer)) : list value :=
  flat_map segmentArgs parts.

Definition argCounts (parts : list (unionPart Sqlizer)) : nat :=
  list_sum (map (fun p => List.length (segmentArgs p)) parts).

(** The text after the placeholder format and the compaction of [d]. *)
Definition unionPost (d : unionData Sqlizer) (sqlStr : string) : string :=
  let sqlStr :=
    match unionPlaceholderFormat d with
    | Some f => fst (ReplacePlaceholders f sqlStr)
    | None => sqlStr
    end in
  if CompactOutput d then compactSQL sqlStr else sqlStr.

End UnionSpec.

(** [s] has [sub] as a substring. *)
Definition Contains (s sub : string) : Prop :=
  exists a b, s = a ++ sub ++ b.

(** ** Runes, words and white space *)

(** The bytes of a list of decoded runes. *)
Fixpoint bytesOf (rs : list (rune * string)) : string :=
  match rs with
  | [] => ""
  | x :: rest => snd x ++ bytesOf rest
  end.

Definition isSpaceRune (x : rune * string) : bool := IsSpace (fst x).

(** The first byte of [s], if any, is not a continuation byte. *)
Definition nonContHead (s : string) : Prop :=
  match s with
  | "" => True
  | String c _ => inRange locb hicb (N_of_ascii c) = false
  end.

(** A list of runes that is the decoding of its own bytes. *)
Definition valid (l : list (rune * string)) : Prop := runes (bytesOf l) = l.

Definition solid (l : list (rune * string)) : Prop :=
  Forall (fun x => isSpaceRune x = false) l.

(** A word: a string that is not empty and holds no white space. *)
Definition isWord (w : string) : Prop := w <> "" /\ solid (runes w).

Definition startBytes (start : option string) : string :=
  match start with Some w => w | None => "" end.

(** Stated from the words of the specification, to be compared with
    [compactSQL]: every run of white space collapsed into a single space,
    everything else kept as it is and in its order. *)
Fixpoint collapseLoop (rs : list (rune * string)) (inRun : bool) : string :=
  match rs with
  | [] => ""
  | x :: rest =>
    if isSpaceRune x
    then (if inRun then "" else " ") ++ collapseLoop rest true
    else snd x ++ collapseLoop rest false
  end.

Definition collapseRuns (s : string) : string := collapseLoop (runes s) false.

Fixpoint dropSpaces (rs : list (rune * string)) : list (rune * string) :=
  match rs with
  | [] => []
  | x :: rest => if isSpaceRune x then dropSpaces rest else rs
  end.

Definition trimRunes (rs : list (rune * string)) : list (rune * string) :=
  dropSpaces (rev (dropSpaces (rev rs))).

(** [strings.TrimSpace]: the string without its leading and trailing white
    space. *)
Definition TrimSpace (s : string) : string := bytesOf (trimRunes (runes s)).

Fixpoint lastSolid (l : list (rune * string)) : bool :=
  match l with
  | [] => true
  | [x] => negb (isSpaceRune x)
  | _ :: rest => lastSolid rest
  end.

(** Plain text: ASCII, no white space, no marker. *)
Definition plainChar (c : ascii) : bool :=
  (N_of_ascii c <? RuneSelf)%N && negb (IsSpace (N_of_ascii c))
  && negb (isMarker c).

Fixpoint plainText (s : string) : bool :=
  match s with
  | "" => true
  | String c t => plainChar c && plainText t
  end.

Definition plainWord (s : string) : Prop := s <> "" /\ plainText s = true.

Fixpoint plainRunes (s : string) : list (rune * string) :=
  match s with
  | "" => []
  | String c t => (N_of_ascii c, String c "") :: plainRunes t
  end.

(** The clauses of a union, one by one. *)
Section UnionClausesSpec.
Context {Sqlizer : Type}.

Definition orderByClause (d : unionData Sqlizer) : string :=
  if Nat.ltb 0 (List.length (OrderBy d))
  then " ORDER BY " ++ Join (OrderBy d) ", "
  else "".

Definition limitClause (d : unionData Sqlizer) : string :=
  if LimitSet d then " LIMIT " ++ utoa (Limit d) else "".

Definition offsetClause (d : unionData Sqlizer) : string :=
  if OffsetSet d then " OFFSET " ++ utoa (Offset d) else "".

(** [d] with compaction switched on or off. *)
Definition withCompactOutput (d : unionData Sqlizer) (c : bool)
  : unionData Sqlizer :=
  {| unionPlaceholderFormat := unionPlaceholderFormat d;
     Parts := Parts d; OrderBy := OrderBy d;
     LimitSet := LimitSet d; Limit := Limit d;
     OffsetSet := OffsetSet d; Offset := Offset d;
     Suffixes := Suffixes d; CompactOutput := c |}.

End UnionClausesSpec.

(** [compactSQL] on the text of a result, an error left as it is. *)
Definition compactResult (r : result) : result :=
  match resultErr r with
  | Some _ => r
  | None => (compactSQL (resultSql r), resultArgs r, None)
  end.

(** ** Sample builders

    Builders of the tests of the repository and small variations, on which
    the properties below are run. *)

(** Modelled from the spec: [Select], [From] and [Where] of select.go, as
    the tests of joins.go use them. *)
Definition Select (columns : list string) : selectData Fragment :=
  {| selectPlaceholderFormat := Some Question;
     Columns := map (fun c => Expr c []) columns;
     From := None; Joins := []; WhereParts := [] |}.

Definition SelectBuilder_From (b : selectData Fragment) (table : string)
  : selectData Fragment :=
  setFrom b (Expr table []).

Definition SelectBuilder_Where (b : selectData Fragment) (pred : Fragment)
  : selectData Fragment :=
  {| selectPlaceholderFormat := selectPlaceholderFormat b;
     Columns := Columns b; From := From b; Joins := Joins b;
     WhereParts := WhereParts b ++ [pred] |}.

(** A fragment whose [ToSql] fails. *)
Definition failing (msg : string) : Fragment :=
  Opaque ("", [], Some (errorString msg)).

(** Two statements, given by what they render. *)
Definition selectA : Fragment :=
  Expr "SELECT id FROM a WHERE x > ?" [vint 10].

Definition selectB : Fragment :=
  Expr "SELECT id FROM b WHERE y < ?" [vint 5].

(** [Union(a, b).OrderBy("id").Limit(100).Offset(2)] with dollar
    placeholders, the first scenario of section 8. *)
Definition sampleUnion : unionData Fragment :=
  UnionBuilder_PlaceholderFormat
    (UnionBuilder_Offset
       (UnionBuilder_Limit
          (UnionBuilder_OrderBy (Union [selectA; selectB]) ["id"]) 100) 2)
    Dollar.

(** [Union(a).UnionAll(b).Union(<failing>)]. *)
Definition brokenUnion : unionData Fragment :=
  UnionBuilder_Union
    (UnionBuilder_UnionAll (Union [selectA]) selectB) (failing "boom").

(** [Union(a).Suffix(Expr("/* ? */", 1))]: a suffix that binds an argument. *)
Definition suffixUnion : unionData Fragment :=
  UnionBuilder_Suffix (Union [selectA]) [Expr "/* ? */" [vint 1]].


(** [Case().When(Expr("x = ?", 1), "one")]. *)
Definition sampleCase : caseData Fragment :=
  CaseBuilder_When emptyCase
    (AnySqlizer (Expr "x = ?" [vint 1])) (AnyValue (vstring "one")).

(** A state with a WHEN part that has no THEN, which [When] never builds. *)
Definition caseWithoutThen : caseData Fragment :=
  {| What := None;
     WhenParts :=
       WhenParts sampleCase ++
       [ {| when := Expr "y" []; then_ := None;
            thenValue := vnil; nullThen := false |} ];
     Else := None; ElseValue := vnil; ElseNull := false |}.

(** [sampleCase.Else(7).Else(nil)]. *)
Definition caseElseTwice : caseData Fragment :=
  CaseBuilder_Else (CaseBuilder_Else sampleCase (AnyValue (vint 7)))
    (AnyValue vnil).

(** [sampleCase.Else(Expr("z")).Else(7)]. *)
Definition caseElseFragmentThenValue : caseData Fragment :=
  CaseBuilder_Else
    (CaseBuilder_Else sampleCase (AnySqlizer (Expr "z" [])))
    (AnyValue (vint 7)).


(** [Select("c").From("t").Where(Gt{"c": 1}).PlaceholderFormat(Dollar)],
    the subquery of the tests with nested dollar placeholders. *)
Definition innerDollar : selectData Fragment :=
  SelectBuilder_PlaceholderFormat
    (SelectBuilder_Where (SelectBuilder_From (Select ["c"]) "t")
       (Expr "c > ?" [vint 1]))
    Dollar.

(** The statement of TestSelectBuilderJoinLateralSelectNestedDollarPlaceholders,
    around a subquery [inner]. *)
Definition outerJoin (inner : Fragment) : selectData Fragment :=
  SelectBuilder_PlaceholderFormat
    (SelectBuilder_Where
       (SelectBuilder_JoinLateralSelect
          (SelectBuilder_From (Select ["u.id"; "subq.c"]) "users u")
          inner "subq" (Some (Expr "TRUE" [])))
       (Expr "subq.c < ?" [vint 2]))
    Dollar.

(** A union with dollar placeholders, used as a LATERAL subquery. *)
Definition unionDollar : unionData Fragment :=
  UnionBuilder_PlaceholderFormat
    (Union [Expr "SELECT c FROM t WHERE c > ?" [vint 1]]) Dollar.

(** A SELECT with dollar placeholders that itself joins [unionDollar]:
    [Select("c").From("t").JoinLateralSelect(unionDollar, "u", Expr("TRUE")).
    Where(Expr("c > ?", 3)).PlaceholderFormat(Dollar)]. *)
Definition innerWithUnion : selectData Fragment :=
  SelectBuilder_PlaceholderFormat
    (SelectBuilder_Where
       (SelectBuilder_JoinLateralSelect
          (SelectBuilder_From (Select ["c"]) "t")
          (UnionBuilder unionDollar) "u" (Some (Expr "TRUE" [])))
       (Expr "c > ?" [vint 3]))
    Dollar.

(** The JOIN part of [JoinLateralSelect(Expr("generate_series(1,3)"),
    "gs(n)", Expr("TRUE"))]. *)
Definition rawJoinPart : joinLateralSelectPart Fragment :=
  {| joinType := "JOIN"; sel := Expr "generate_series(1,3)" [];
     alias := "gs(n)"; on := Some (Expr "TRUE" []) |}.


(** [Union(Expr("SELECT 1")).Suffix(Expr("/* note */\n"))]: the rendered
    text ends with a newline. *)
Definition trailingNewlineUnion : unionData Fragment :=
  UnionBuilder_Suffix (Union [Expr "SELECT 1" []])
    [Expr ("/* note */" ++ String (ascii_of_nat 10) "") []].


(** [Union(a).UnionAll(b).Union(c)] with dollar placeholders, after
    TestUnion_AppendChainMix. *)
Definition mixedUnion : unionData Fragment :=
  UnionBuilder_PlaceholderFormat
    (UnionBuilder_Union
       (UnionBuilder_UnionAll
          (Union [Expr "SELECT id FROM a WHERE x = ?" [vstring "A"]])
          (Expr "SELECT id FROM b WHERE y = ?" [vstring "B"]))
       (Expr "SELECT id FROM c WHERE z = ?" [vstring "C"]))
    Dollar.

(** The builder of TestUnion_CompactCollapsesWhitespace. *)
Definition compactUnion : unionData Fragment :=
  UnionBuilder_PlaceholderFormat
    (UnionBuilder_Compact
       (UnionBuilder_Suffix
          (Union [Expr "SELECT id FROM a" []; Expr "SELECT id FROM b" []])
          [Expr ("/* line1 */" ++ String (ascii_of_nat 10) "/* line2 */") []]))
    Dollar.

(** The statement of TestSelectBuilderFromSelectLateralNestedDollarPlaceholders. *)
Definition outerFrom : selectData Fragment :=
  SelectBuilder_PlaceholderFormat
    (SelectBuilder_Where
       (SelectBuilder_FromSelectLateral (Select ["c"])
          (SelectBuilder innerDollar) "subq")
       (Expr "c < ?" [vint 2]))
    Dollar.

(** The statement of TestSelectBuilderRawLeftAndCrossJoinLateral. *)
Definition rawLeftAndCross : selectData Fragment :=
  SelectBuilder_CrossJoinLateralSelect
    (SelectBuilder_LeftJoinLateralSelect
       (SelectBuilder_From (Select ["u.id"; "gs.n"]) "users u")
       (Expr "generate_series(1,3)" []) "gs(n)" (Some (Expr "TRUE" [])))
    (Expr "generate_series(4,6)" []) "gs2(n)".

(** ** Chains of calls and closed forms

    What a chain of builder calls adds to a union, a chain of calls on a
    CASE builder, and the text and arguments of a CASE whose fragments all
    render, written out for comparison with the loops of the renderers. *)

Section CallsSpec.
Context {Sqlizer : Type} `{Renderable Sqlizer}.

Definition callParts (c : @unionCall Sqlizer) : list (unionPart Sqlizer) :=
  match c with
  | CallUnion q => [ {| op := unionDistinct; query := q |} ]
  | CallUnionAll q => [ {| op := unionAll; query := q |} ]
  | _ => []
  end.

Definition callOrderBy (c : @unionCall Sqlizer) : list string :=
  match c with CallOrderBy exprs => exprs | _ => [] end.

Definition callSuffixes (c : @unionCall Sqlizer) : list Sqlizer :=
  match c with CallSuffix exprs => exprs | _ => [] end.

Definition isCallCompact (c : @unionCall Sqlizer) : bool :=
  match c with CallCompact => true | _ => false end.

Definition isCallPlaceholderFormat (c : @unionCall Sqlizer) : bool :=
  match c with CallPlaceholderFormat _ => true | _ => false end.

(** A chain of calls on a CASE builder. *)
Inductive caseCall : Type :=
| CallWhat (e : any Sqlizer)
| CallWhen (when_ then' : any Sqlizer)
| CallElse (e : any Sqlizer).

Definition applyCaseCall (b : caseData Sqlizer) (c : caseCall)
  : caseData Sqlizer :=
  match c with
  | CallWhat e => CaseBuilder_what b e
  | CallWhen w t => CaseBuilder_When b w t
  | CallElse e => CaseBuilder_Else b e
  end.

Definition applyCaseCalls (b : caseData Sqlizer) (cs : list caseCall)
  : caseData Sqlizer :=
  fold_left applyCaseCall cs b.

Definition isCallWhen (c : caseCall) : bool :=
  match c with CallWhen _ _ => true | _ => false end.

(** A fragment written by [WriteSql]: its text and a space. *)
Definition fragmentText (item : Sqlizer) : string :=
  resultSql (nestedToSql item) ++ " ".

Definition fragmentArgs (item : Sqlizer) : list value :=
  resultArgs (nestedToSql item).

Definition fragmentOk (item : Sqlizer) : Prop :=
  resultErr (nestedToSql item) = None.

Definition whenText (p : whenPart Sqlizer) : string :=
  "WHEN " ++ fragmentText (when p) ++ "THEN "
  ++ match then_ p with
     | Some t => fragmentText t
     | None => "? "
     end.

Definition whenArgs (p : whenPart Sqlizer) : list value :=
  (fragmentArgs (when p)
   ++ match then_ p with
      | Some t => fragmentArgs t
      | None => [thenValue p]
      end)%list.

Fixpoint whensText (parts : list (whenPart Sqlizer)) : string :=
  match parts with
  | [] => ""
  | p :: rest => whenText p ++ whensText rest
  end.

Definition elseText (d : caseData Sqlizer) : string :=
  match Else d with
  | Some e => "ELSE " ++ fragmentText e
  | None =>
    if negb (isNil (ElseValue d)) || ElseNull d then "ELSE ? " else ""
  end.

Definition elseArgs (d : caseData Sqlizer) : list value :=
  match Else d with
  | Some e => fragmentArgs e
  | None =>
    if negb (isNil (ElseValue d)) || ElseNull d then [ElseValue d] else []
  end.

Definition caseText (d : caseData Sqlizer) : string :=
  "CASE "
  ++ match What d with Some w => fragmentText w | None => "" end
  ++ whensText (WhenParts d) ++ elseText d ++ "END".

Definition caseArgs (d : caseData Sqlizer) : list value :=
  (match What d with Some w => fragmentArgs w | None => [] end
   ++ flat_map whenArgs (WhenParts d) ++ elseArgs d)%list.

(** The fragments of a CASE, in the order in which they are rendered. *)
Definition whenChildren (p : whenPart Sqlizer) : list Sqlizer :=
  when p :: match then_ p with Some t => [t] | None => [] end.

Definition caseChildren (d : caseData Sqlizer) : list Sqlizer :=
  (match What d with Some w => [w] | None => [] end
   ++ flat_map whenChildren (WhenParts d)
   ++ match Else d with Some e => [e] | None => [] end)%list.

(** The error of the first fragment that fails, after [start]. *)
Fixpoint firstError (start : option error) (items : list Sqlizer)
  : option error :=
  match start with
  | Some e => Some e
  | None =>
    match items with
    | [] => None
    | x :: rest => firstError (resultErr (nestedToSql x)) rest
    end
  end.

End CallsSpec.

(** A result with as many neutral markers in its text as arguments. *)
Definition balanced (r : result) : Prop :=
  markers (resultSql r) = List.length (resultArgs r).

(** union_test.go: [compactedEqual] compares two texts after collapsing all
    whitespace. *)
Definition compactedEqual (got want : string) : bool :=
  String.eqb (compactSQL got) (compactSQL want).

(** The runes of words joined by single spaces. *)
Fixpoint joinRunes (ws : list string) : list (rune * string) :=
  match ws with
  | [] => []
  | w :: rest =>
    match rest with
    | [] => runes w
    | _ => runes w ++ (32%N, " ") :: joinRunes rest
    end
  end.

(** [Case().When(Expr("x = ?", 1), "one").When(<failing>, 2).Else(Expr("z"))]:
    the second WHEN fragment fails. *)
Definition brokenCase : caseData Fragment :=
  CaseBuilder_Else
    (CaseBuilder_When sampleCase (AnySqlizer (failing "boom"))
       (AnyValue (vint 2)))
    (AnySqlizer (Expr "z" [])).

(** A JOIN part whose subquery fails. *)
Definition brokenJoinPart : joinLateralSelectPart Fragment :=
  {| joinType := "JOIN"; sel := failing "boom"; alias := "x";
     on := Some (Expr "TRUE" []) |}.


Section CaseCallsSpec.
Context {Sqlizer : Type} `{Renderable Sqlizer}.

(** The WHEN part that a call adds. *)
Definition callWhenParts (c : @caseCall Sqlizer) : list (whenPart Sqlizer) :=
  match c with
  | CallWhen w t => [newWhenPart w t]
  | _ => []
  end.

End CaseCallsSpec.


(** * Properties *)

(** ** Strings *)

Lemma append_nil_r (s : string) : s ++ "" = s.
Proof. induction s as [|c s IH]; simpl; [reflexivity | now rewrite IH]. Qed.

Lemma append_assoc (a b c : string) : (a ++ b) ++ c = a ++ (b ++ c).
Proof. induction a as [|x a IH]; simpl; [reflexivity | now rewrite IH]. Qed.

Lemma append_length (a b : string) :
  String.length (a ++ b) = String.length a + String.length b.
Proof. induction a as [|x a IH]; simpl; [reflexivity | now rewrite IH]. Qed.

Lemma append_inv_head (a b c : string) : a ++ b = a ++ c -> b = c.
Proof.
  induction a as [|x a IH]; simpl; intros E; [exact E|].
  injection E as E. auto.
Qed.

#[local] Ltac norm_append :=
  unfold WriteString, WriteByte;
  repeat first [rewrite !append_assoc | rewrite !append_nil_r | progress simpl].

Lemma string_snoc_cases (s : string) :
  s = "" \/ exists t c, s = t ++ String c "".
Proof.
  induction s as [|x s IH]; [now left|right].
  destruct IH as [->|[t [c ->]]].
  - now exists "", x.
  - now exists (String x t), c.
Qed.

Lemma string_snoc_inj (x y : string) (c d : ascii) :
  x ++ String c "" = y ++ String d "" -> x = y /\ c = d.
Proof.
  revert y. induction x as [|a x IH]; intros [|b y] E; simpl in E.
  - injection E as ->. now split.
  - injection E as -> E. now destruct y.
  - injection E as -> E. now destruct x.
  - injection E as -> E. destruct (IH _ E) as [-> ->]. now split.
Qed.

Lemma Contains_refl_mid (a sub b : string) : Contains (a ++ sub ++ b) sub.
Proof. now exists a, b. Qed.

(** A keyword that holds no parenthesis is found between parentheses only if
    it is found in the text they enclose. *)
Lemma Contains_parens (s : string) :
  Contains ("(" ++ s ++ ")") "UNION" -> Contains s "UNION".
Proof.
  intros [a [b E]]. destruct a as [|x a]; simpl in E; [discriminate|].
  injection E as _ E.
  destruct (string_snoc_cases b) as [->|[t [c ->]]].
  - assert (E' : s ++ String ")" "" = (a ++ "UNIO") ++ String "N" "")
      by (rewrite E, append_assoc; reflexivity).
    apply string_snoc_inj in E'. destruct E' as [_ E']. discriminate.
  - assert (E' : s ++ String ")" "" = (a ++ "UNION" ++ t) ++ String c "")
      by (rewrite E, !append_assoc; reflexivity).
    clear E; rename E' into E.
    apply string_snoc_inj in E. destruct E as [-> _]. now exists a, t.
Qed.

(** *** Decoding and concatenation *)

Lemma first_spec b sz lo hi :
  first b = Some (sz, lo, hi) ->
  (sz = 2 \/ sz = 3 \/ sz = 4) /\ (locb <= lo)%N /\ (hi <= hicb)%N.
Proof.
  unfold first, locb, hicb.
  repeat match goal with
         | |- context [if ?c then _ else _] => destruct c
         end; intros E; inversion E; subst; repeat split; auto; lia.
Qed.

Lemma inRange_sub lo hi x :
  (locb <= lo)%N -> (hi <= hicb)%N ->
  inRange locb hicb x = false -> inRange lo hi x = false.
Proof.
  unfold inRange. intros Hl Hh Hx.
  apply andb_false_iff in Hx. apply andb_false_iff.
  destruct Hx as [Hx|Hx]; [left|right];
    apply N.leb_gt in Hx; apply N.leb_gt; lia.
Qed.

#[local] Ltac solve_head :=
  match goal with
  | Hb' : forall cb tb, ?b = String cb tb -> _ |- _ =>
    destruct b as [|cb tb]; [reflexivity|];
    destruct (Hb' cb tb eq_refl) as [H1 H2];
    rewrite ?H1, ?H2; reflexivity
  end.

(** What follows a string does not change its first rune, as long as it
    does not start with a continuation byte. *)
Lemma DecodeRuneInString_app (a b : string) :
  a <> "" -> nonContHead b ->
  DecodeRuneInString (a ++ b) = DecodeRuneInString a.
Proof.
  intros Ha Hb. destruct a as [|c0 t0]; [contradiction|clear Ha].
  cbn [append DecodeRuneInString].
  destruct (first (N_of_ascii c0)) as [[[sz lo] hi]|] eqn:F; [|reflexivity].
  destruct (first_spec _ F) as [Hsz [Hlo Hhi]].
  assert (Hb' : forall cb tb, b = String cb tb ->
             inRange locb hicb (N_of_ascii cb) = false
             /\ inRange lo hi (N_of_ascii cb) = false).
  { intros cb tb ->. simpl in Hb. split; [assumption|].
    now apply inRange_sub. }
  destruct t0 as [|c1 t1]; cbn [append]; [solve_head|].
  destruct (negb (inRange lo hi (N_of_ascii c1))); [reflexivity|].
  destruct (Nat.leb sz 2); [reflexivity|].
  destruct t1 as [|c2 t2]; cbn [append]; [solve_head|].
  destruct (negb (inRange locb hicb (N_of_ascii c2))); [reflexivity|].
  destruct (Nat.leb sz 3); [reflexivity|].
  destruct t2 as [|c3 t3]; cbn [append]; [solve_head|].
  reflexivity.
Qed.

Lemma runes_cons (c0 : ascii) (t0 : string) :
  exists bytes rest,
    runes (String c0 t0)
    = (fst (DecodeRuneInString (String c0 t0)), bytes) :: runes rest
    /\ String c0 t0 = bytes ++ rest
    /\ bytes <> ""
    /\ String.length bytes = snd (DecodeRuneInString (String c0 t0)).
Proof.
  cbn [runes].
  destruct (DecodeRuneInString (String c0 t0)) as [r size] eqn:E.
  cbn [fst snd].
  assert (Hsize : size = 1 \/
            (size = 2 /\ exists c1 t1, t0 = String c1 t1) \/
            (size = 3 /\ exists c1 c2 t2, t0 = String c1 (String c2 t2)) \/
            (size = 4 /\ exists c1 c2 c3 t3,
                t0 = String c1 (String c2 (String c3 t3)))).
  { revert E. cbn [DecodeRuneInString].
    destruct (first (N_of_ascii c0)) as [[[sz lo] hi]|];
      [|intros [= _ <-]; now left].
    destruct t0 as [|c1 t1]; [intros [= _ <-]; now left|].
    destruct (negb _); [intros [= _ <-]; now left|].
    destruct (Nat.leb sz 2); [intros [= _ <-]; right; left; eauto|].
    destruct t1 as [|c2 t2]; [intros [= _ <-]; now left|].
    destruct (negb _); [intros [= _ <-]; now left|].
    destruct (Nat.leb sz 3); [intros [= _ <-]; right; right; left; eauto|].
    destruct t2 as [|c3 t3]; [intros [= _ <-]; now left|].
    destruct (negb _); [intros [= _ <-]; now left|].
    intros [= _ <-]; right; right; right; eauto 6. }
  destruct Hsize as [->|[[-> [c1 [t1 ->]]]|[[-> [c1 [c2 [t2 ->]]]]|
                     [-> [c1 [c2 [c3 [t3 ->]]]]]]]].
  - exists (String c0 ""), t0. repeat split; discriminate.
  - exists (String c0 (String c1 "")), t1. repeat split; discriminate.
  - exists (String c0 (String c1 (String c2 ""))), t2.
    repeat split; discriminate.
  - exists (String c0 (String c1 (String c2 (String c3 "")))), t3.
    repeat split; discriminate.
Qed.

Lemma runes_app_bounded (n : nat) :
  forall a b, String.length a <= n -> nonContHead b ->
    runes (a ++ b) = (runes a ++ runes b)%list.
Proof.
  induction n as [|n IH]; intros a b Hlen Hb.
  - destruct a; [reflexivity|simpl in Hlen; lia].
  - destruct a as [|c0 t0]; [reflexivity|].
    destruct (runes_cons c0 t0) as [bytes [rest [Hr [Hs [Hne Hl]]]]].
    destruct (runes_cons c0 (t0 ++ b)) as [bytes' [rest' [Hr' [Hs' [Hne' Hl']]]]].
    change (String c0 (t0 ++ b)) with (String c0 t0 ++ b) in *.
    rewrite DecodeRuneInString_app in Hr', Hl' by (assumption || discriminate).
    rewrite Hs, append_assoc in Hs'.
    assert (bytes' = bytes /\ rest' = rest ++ b) as [-> ->].
    { clear - Hs' Hl Hl'. rewrite <- Hl in Hl'. clear Hl.
      revert bytes' Hs' Hl'.
      induction bytes as [|x bytes IHb]; intros [|y bytes'] Hs' Hl';
        simpl in *; try discriminate.
      - now split.
      - injection Hs' as -> Hs'. injection Hl' as Hl'.
        destruct (IHb _ Hs' Hl') as [-> ->]. now split. }
    rewrite Hr', Hr. cbn [app]. f_equal.
    apply IH; [|assumption].
    apply (f_equal String.length) in Hs. rewrite append_length in Hs.
    simpl in Hlen, Hs. destruct bytes; [contradiction|simpl in Hs; lia].
Qed.

(** The runes of a concatenation, when the second string does not start
    in the middle of a sequence. *)
Lemma runes_app (a b : string) :
  nonContHead b -> runes (a ++ b) = (runes a ++ runes b)%list.
Proof. now apply (runes_app_bounded (n := String.length a)). Qed.

Lemma runes_bytes_bounded (n : nat) :
  forall s, String.length s <= n -> bytesOf (runes s) = s.
Proof.
  induction n as [|n IH]; intros s Hlen.
  - destruct s; [reflexivity|simpl in Hlen; lia].
  - destruct s as [|c0 t0]; [reflexivity|].
    destruct (runes_cons c0 t0) as [bytes [rest [Hr [Hs [Hne Hl]]]]].
    rewrite Hr. cbn [bytesOf snd]. rewrite IH; [now symmetry|].
    apply (f_equal String.length) in Hs. rewrite append_length in Hs.
    simpl in Hlen, Hs. destruct bytes; [contradiction|simpl in Hs; lia].
Qed.

Lemma runes_bytes (s : string) : bytesOf (runes s) = s.
Proof. now apply (runes_bytes_bounded (n := String.length s)). Qed.

(** *** Lists of runes that are the decoding of their bytes *)

Lemma valid_runes (s : string) : valid (runes s).
Proof. unfold valid. now rewrite runes_bytes. Qed.

Lemma bytesOf_app (l1 l2 : list (rune * string)) :
  bytesOf (l1 ++ l2) = bytesOf l1 ++ bytesOf l2.
Proof.
  induction l1 as [|x l1 IH]; simpl; [reflexivity|].
  now rewrite IH, append_assoc.
Qed.

Lemma runes_tail (s : string) x l :
  runes s = x :: l -> exists s', s = snd x ++ s' /\ l = runes s'.
Proof.
  destruct s as [|c0 t0]; [discriminate|].
  destruct (runes_cons c0 t0) as [bytes [rest [Hr [Hs _]]]].
  rewrite Hr. intros [= <- <-]. now exists rest.
Qed.

Lemma valid_tail x l : valid (x :: l) -> valid l.
Proof.
  unfold valid. cbn [bytesOf]. intros Hv.
  destruct (runes_tail _ Hv) as [s' [Hs Hl]].
  apply append_inv_head in Hs. now rewrite Hs, <- Hl.
Qed.

Lemma valid_suffix pre post : valid (pre ++ post) -> valid post.
Proof.
  induction pre as [|x pre IH]; [trivial|].
  intros Hv. apply IH. now apply valid_tail in Hv.
Qed.

Lemma valid_prefix mid post :
  valid (mid ++ post) -> nonContHead (bytesOf post) -> valid mid.
Proof.
  intros Hv Hh. pose proof (valid_suffix _ _ Hv) as Hp.
  unfold valid in *. rewrite bytesOf_app, runes_app, Hp in Hv by assumption.
  now apply app_inv_tail in Hv.
Qed.

Lemma DecodeRuneInString_continuation c0 t0 :
  inRange locb hicb (N_of_ascii c0) = true ->
  fst (DecodeRuneInString (String c0 t0)) = RuneError.
Proof.
  unfold inRange, locb, hicb. intros Hc.
  apply andb_true_iff in Hc. destruct Hc as [Hlo Hhi].
  apply N.leb_le in Hlo. apply N.leb_le in Hhi.
  cbn [DecodeRuneInString]. unfold first, RuneSelf.
  destruct (N.ltb_spec (N_of_ascii c0) 194); [|lia].
  destruct (N.ltb_spec (N_of_ascii c0) 128); [lia|reflexivity].
Qed.

(** A white space rune does not start with a continuation byte. *)
Lemma space_nonContHead x l :
  valid (x :: l) -> isSpaceRune x = true -> nonContHead (bytesOf (x :: l)).
Proof.
  unfold valid. intros Hv Hx.
  destruct (bytesOf (x :: l)) as [|c0 t0] eqn:Eb; [exact I|].
  destruct (runes_cons c0 t0) as [bytes [rest [Hr _]]].
  rewrite Hv in Hr.
  assert (Hx' : x = (fst (DecodeRuneInString (String c0 t0)), bytes))
    by congruence.
  simpl. destruct (inRange locb hicb (N_of_ascii c0)) eqn:Hc; [|reflexivity].
  apply (DecodeRuneInString_continuation _ t0) in Hc.
  unfold isSpaceRune in Hx. rewrite Hx' in Hx. cbn [fst] in Hx.
  rewrite Hc in Hx. discriminate.
Qed.

(** *** Fields *)

Lemma fieldsLoop_solid g :
  solid g -> g <> [] ->
  forall rest start,
    fieldsLoop (g ++ rest) start
    = fieldsLoop rest (Some (startBytes start ++ bytesOf g)).
Proof.
  induction 1 as [|x g Hx Hg IH]; [contradiction|intros _ rest start].
  destruct x as [r bytes]. unfold isSpaceRune in Hx. cbn [fst] in Hx.
  cbn [app fieldsLoop]. rewrite Hx.
  destruct g as [|y g'].
  - cbn [app bytesOf snd]. rewrite append_nil_r.
    destruct start; reflexivity.
  - rewrite IH by discriminate. cbn [startBytes]. f_equal. f_equal.
    cbn [bytesOf snd]. destruct start; cbn [startBytes];
      now rewrite ?append_assoc.
Qed.

Lemma valid_nonempty l : valid l -> l <> [] -> bytesOf l <> "".
Proof.
  unfold valid. intros Hv Hl Hb. rewrite Hb in Hv. simpl in Hv. now subst.
Qed.

Lemma fieldsLoop_words rs :
  forall g start,
    valid (g ++ rs) -> solid g ->
    (start = None /\ g = []) \/ (start = Some (bytesOf g) /\ g <> []) ->
    Forall isWord (fieldsLoop rs start).
Proof.
  induction rs as [|[r bytes] rest IH]; intros g start Hv Hg Hs.
  - destruct Hs as [[-> ->]|[-> Hne]]; cbn; [constructor|].
    rewrite app_nil_r in Hv. repeat constructor.
    + now apply valid_nonempty.
    + now rewrite Hv.
  - cbn [fieldsLoop]. destruct (IsSpace r) eqn:Hr.
    + assert (Hrest : Forall isWord (fieldsLoop rest None)).
      { apply (IH [] None); [|constructor|now left].
        apply valid_suffix in Hv. now apply valid_tail in Hv. }
      destruct Hs as [[-> ->]|[-> Hne]]; [assumption|].
      constructor; [|assumption].
      assert (Hvg : valid g).
      { apply (valid_prefix _ _ Hv).
        apply space_nonContHead; [now apply valid_suffix in Hv|exact Hr]. }
      split; [now apply valid_nonempty|now rewrite Hvg].
    + apply (IH (g ++ [(r, bytes)])%list).
      * now rewrite <- app_assoc.
      * apply Forall_app. split; [assumption|]. now repeat constructor.
      * right. split; [|now destruct g].
        rewrite bytesOf_app. cbn [bytesOf snd]. rewrite append_nil_r.
        destruct Hs as [[-> ->]|[-> _]]; reflexivity.
Qed.

(** The fields of a string are words. *)
Lemma Fields_words (s : string) : Forall isWord (Fields s).
Proof.
  apply (@fieldsLoop_words (runes s) [] None);
    [apply valid_runes|constructor|now left].
Qed.

Lemma runes_space (t : string) : runes (String " " t) = (32%N, " ") :: runes t.
Proof. reflexivity. Qed.

Lemma Fields_word (w : string) : isWord w -> Fields w = [w].
Proof.
  intros [Hne Hs]. unfold Fields.
  rewrite <- (app_nil_r (runes w)), fieldsLoop_solid; [|assumption|].
  - cbn. now rewrite runes_bytes.
  - intros Hr. apply Hne. rewrite <- (runes_bytes w), Hr. reflexivity.
Qed.

Lemma Fields_word_space (w t : string) :
  isWord w -> Fields (w ++ String " " t) = w :: Fields t.
Proof.
  intros [Hne Hs]. unfold Fields.
  rewrite runes_app by reflexivity. rewrite runes_space.
  rewrite fieldsLoop_solid; [|assumption|].
  - cbn. now rewrite runes_bytes.
  - intros Hr. apply Hne. rewrite <- (runes_bytes w), Hr. reflexivity.
Qed.

(** Joining words with single spaces and splitting again gives the words. *)
Lemma Fields_Join (ws : list string) :
  Forall isWord ws -> Fields (Join ws " ") = ws.
Proof.
  unfold Join. induction 1 as [|w ws Hw Hws IH]; [reflexivity|].
  destruct ws as [|w' ws'].
  - now apply Fields_word.
  - change (String.concat " " (w :: w' :: ws'))
      with (w ++ String " " (String.concat " " (w' :: ws'))).
    rewrite Fields_word_space by assumption. now rewrite IH.
Qed.

Lemma Fields_compactSQL (s : string) : Fields (Join (Fields s) " ") = Fields s.
Proof. apply Fields_Join, Fields_words. Qed.

(** *** Collapsing and trimming *)

Lemma fieldsLoop_dropSpaces rs :
  fieldsLoop (dropSpaces rs) None = fieldsLoop rs None.
Proof.
  induction rs as [|[r bytes] rest IH]; [reflexivity|].
  cbn [dropSpaces fieldsLoop]. unfold isSpaceRune. cbn [fst].
  destruct (IsSpace r) eqn:Hr; [exact IH|].
  cbn [fieldsLoop]. now rewrite Hr.
Qed.

Lemma fieldsLoop_snoc_space rs x :
  isSpaceRune x = true ->
  forall start, fieldsLoop (rs ++ [x]) start = fieldsLoop rs start.
Proof.
  intros Hx. destruct x as [rx bx]. unfold isSpaceRune in Hx. cbn [fst] in Hx.
  induction rs as [|[r bytes] rest IH]; intros start.
  - cbn. rewrite Hx. now destruct start.
  - cbn [app fieldsLoop]. destruct (IsSpace r), start; now rewrite ?IH.
Qed.

Lemma fieldsLoop_dropTrailing l :
  forall start,
    fieldsLoop (rev (dropSpaces l)) start = fieldsLoop (rev l) start.
Proof.
  induction l as [|x l IH]; intros start; [reflexivity|].
  cbn [dropSpaces rev]. destruct (isSpaceRune x) eqn:Hx; [|reflexivity].
  now rewrite fieldsLoop_snoc_space, IH.
Qed.

Lemma fieldsLoop_trimRunes rs :
  fieldsLoop (trimRunes rs) None = fieldsLoop rs None.
Proof.
  unfold trimRunes.
  rewrite fieldsLoop_dropSpaces, fieldsLoop_dropTrailing.
  now rewrite rev_involutive.
Qed.

Lemma lastSolid_snoc l x : lastSolid (l ++ [x]) = negb (isSpaceRune x).
Proof.
  induction l as [|y l IH]; [reflexivity|].
  cbn [app lastSolid]. destruct (l ++ [x])%list eqn:E; [|exact IH].
  now destruct l.
Qed.

Lemma lastSolid_rev_dropSpaces l : lastSolid (rev (dropSpaces l)) = true.
Proof.
  induction l as [|x l IH]; [reflexivity|].
  cbn [dropSpaces]. destruct (isSpaceRune x) eqn:Hx; [exact IH|].
  cbn [rev]. now rewrite lastSolid_snoc, Hx.
Qed.

Lemma lastSolid_tail x l : l <> [] -> lastSolid (x :: l) = lastSolid l.
Proof. now destruct l. Qed.

Lemma lastSolid_dropSpaces l : lastSolid l = true -> lastSolid (dropSpaces l) = true.
Proof.
  induction l as [|x l IH]; [trivial|]. intros Hl.
  cbn [dropSpaces]. destruct (isSpaceRune x) eqn:Hx; [|exact Hl].
  destruct l as [|y l']; [reflexivity|]. apply IH.
  now rewrite lastSolid_tail in Hl by discriminate.
Qed.

Lemma lastSolid_trimRunes rs : lastSolid (trimRunes rs) = true.
Proof. apply lastSolid_dropSpaces, lastSolid_rev_dropSpaces. Qed.

Lemma Join_cons w l sep :
  l <> [] -> Join (w :: l) sep = w ++ sep ++ Join l sep.
Proof. now destruct l. Qed.

Lemma fieldsLoop_Some l :
  forall w, exists x rest, fieldsLoop l (Some w) = (w ++ x) :: rest.
Proof.
  induction l as [|[r bytes] l IH]; intros w.
  - exists "", []. cbn. now rewrite append_nil_r.
  - cbn [fieldsLoop]. destruct (IsSpace r).
    + exists "", (fieldsLoop l None). now rewrite append_nil_r.
    + destruct (IH (w ++ bytes)) as [x [rest E]].
      exists (bytes ++ x), rest. now rewrite E, append_assoc.
Qed.

(** On a list that does not end with white space, the fields joined by
    single spaces are the runs collapsed. *)
Lemma Join_fieldsLoop_collapse t :
  lastSolid t = true ->
  (forall w, Join (fieldsLoop t (Some w)) " " = w ++ collapseLoop t false)
  /\ (t <> [] ->
      fieldsLoop t None <> []
      /\ Join (fieldsLoop t None) " " = collapseLoop t true).
Proof.
  induction t as [|[r bytes] rest IH]; intros Hl.
  - split; [intros w; cbn; now rewrite append_nil_r|now intros []].
  - assert (Hrest : rest <> [] -> lastSolid rest = true).
    { intros Hne. now rewrite lastSolid_tail in Hl. }
    cbn [fieldsLoop collapseLoop]. unfold isSpaceRune at 1 2. cbn [fst snd].
    destruct (IsSpace r) eqn:Hr.
    + assert (Hne : rest <> []).
      { intros ->. cbn in Hl. unfold isSpaceRune in Hl. cbn in Hl.
        rewrite Hr in Hl. discriminate. }
      destruct (IH (Hrest Hne)) as [_ IHn]. destruct (IHn Hne) as [Hf Hj].
      split.
      * intros w. rewrite Join_cons by assumption. now rewrite Hj.
      * intros _. split; [assumption|]. exact Hj.
    + destruct rest as [|y rest'].
      * split; [intros w; cbn; now rewrite append_nil_r|].
        intros _. split; [discriminate|]. cbn. now rewrite append_nil_r.
      * destruct (IH (Hrest ltac:(discriminate))) as [IHs _]. split.
        -- intros w. rewrite IHs. now rewrite append_assoc.
        -- intros _. split; [|apply IHs].
           destruct (fieldsLoop_Some (y :: rest') bytes) as [x [l E]].
           rewrite E. discriminate.
Qed.

Lemma dropSpaces_head l x rest :
  dropSpaces l = x :: rest -> isSpaceRune x = false.
Proof.
  induction l as [|y l IH]; [discriminate|].
  cbn [dropSpaces]. destruct (isSpaceRune y) eqn:Hy; [exact IH|].
  now intros [= <- _].
Qed.

Lemma dropSpaces_split l :
  exists sp, l = (sp ++ dropSpaces l)%list /\ Forall (fun x => isSpaceRune x = true) sp.
Proof.
  induction l as [|x l [sp [E Hsp]]]; [now exists []|].
  cbn [dropSpaces]. destruct (isSpaceRune x) eqn:Hx.
  - exists (x :: sp). cbn [app]. split; [now rewrite <- E|now constructor].
  - now exists [].
Qed.

Lemma valid_dropSpaces l : valid l -> valid (dropSpaces l).
Proof.
  intros Hv. destruct (dropSpaces_split l) as [sp [E _]].
  rewrite E in Hv. now apply valid_suffix in Hv.
Qed.

Lemma valid_dropTrailing l : valid l -> valid (rev (dropSpaces (rev l))).
Proof.
  intros Hv. destruct (dropSpaces_split (rev l)) as [sp [E Hsp]].
  apply (f_equal (@rev _)) in E. rewrite rev_involutive, rev_app_distr in E.
  rewrite E in Hv. destruct (rev sp) as [|x sp'] eqn:Es.
  - now rewrite app_nil_r in Hv.
  - apply (valid_prefix _ _ Hv). apply space_nonContHead.
    + now apply valid_suffix in Hv.
    + assert (Hin : In x (rev sp)) by (rewrite Es; now left).
      apply in_rev in Hin. rewrite Forall_forall in Hsp. now apply Hsp.
Qed.

Lemma valid_trimRunes l : valid l -> valid (trimRunes l).
Proof. intros Hv. now apply valid_dropSpaces, valid_dropTrailing. Qed.

(** What [compactSQL] returns: the runs of white space between words
    collapsed into one space, leading and trailing white space removed. *)
Lemma compactSQL_collapse (s : string) :
  compactSQL s = collapseRuns (TrimSpace s).
Proof.
  unfold compactSQL, collapseRuns, TrimSpace, Fields.
  rewrite (valid_trimRunes (valid_runes s)).
  rewrite <- fieldsLoop_trimRunes.
  pose proof (lastSolid_trimRunes (runes s)) as Hl.
  destruct (trimRunes (runes s)) as [|x rest] eqn:Et; [reflexivity|].
  assert (Hx : isSpaceRune x = false).
  { unfold trimRunes in Et. now apply dropSpaces_head in Et. }
  destruct x as [r bytes]. cbn [fieldsLoop collapseLoop].
  rewrite Hx. unfold isSpaceRune in Hx. cbn [fst snd] in *. rewrite Hx.
  destruct rest as [|y rest'].
  - cbn. now rewrite append_nil_r.
  - rewrite lastSolid_tail in Hl by discriminate.
    now destruct (Join_fieldsLoop_collapse _ Hl) as [-> _].
Qed.

(** The bytes outside white space, in their order, are those of the
    fields. *)
Lemma fieldsLoop_content rs :
  forall start,
    Join (fieldsLoop rs start) ""
    = startBytes start
      ++ bytesOf (filter (fun x => negb (isSpaceRune x)) rs).
Proof.
  induction rs as [|[r bytes] rest IH]; intros start.
  - destruct start; cbn; now rewrite ?append_nil_r.
  - cbn [fieldsLoop filter]. unfold isSpaceRune at 1. cbn [fst].
    destruct (IsSpace r); cbn [negb].
    + destruct start as [w|]; [|apply IH].
      cbn [startBytes]. specialize (IH None). cbn [startBytes] in IH.
      cbn [append] in IH. rewrite <- IH.
      destruct (fieldsLoop rest None) eqn:E; cbn; [now rewrite append_nil_r|].
      reflexivity.
    + rewrite IH. cbn [startBytes bytesOf snd].
      destruct start; cbn [startBytes append]; now rewrite ?append_assoc.
Qed.

(** *** Plain text *)

Lemma plainChar_spec c :
  plainChar c = true ->
  (N_of_ascii c < 128)%N /\ IsSpace (N_of_ascii c) = false
  /\ isMarker c = false.
Proof.
  unfold plainChar, RuneSelf. intros Hc.
  apply andb_true_iff in Hc. destruct Hc as [Hc Hm].
  apply andb_true_iff in Hc. destruct Hc as [Ha Hs].
  apply N.ltb_lt in Ha. apply negb_true_iff in Hs, Hm. now repeat split.
Qed.

Lemma runes_ascii c t :
  (N_of_ascii c < 128)%N ->
  runes (String c t) = (N_of_ascii c, String c "") :: runes t.
Proof.
  intros Hc. cbn [runes DecodeRuneInString]. unfold first, RuneSelf.
  destruct (N.ltb_spec (N_of_ascii c) 194); [|lia].
  destruct (N.ltb_spec (N_of_ascii c) 128); [|lia].
  reflexivity.
Qed.

Lemma runes_plain w t :
  plainText w = true -> runes (w ++ t) = (plainRunes w ++ runes t)%list.
Proof.
  induction w as [|c w IH]; [reflexivity|]. cbn [plainText]. intros Hw.
  apply andb_true_iff in Hw. destruct Hw as [Hc Hw].
  destruct (plainChar_spec _ Hc) as [Ha _].
  cbn [append plainRunes app]. rewrite runes_ascii by assumption.
  now rewrite IH.
Qed.

Lemma plainRunes_solid w : plainText w = true -> solid (plainRunes w).
Proof.
  induction w as [|c w IH]; [constructor|]. cbn [plainText]. intros Hw.
  apply andb_true_iff in Hw. destruct Hw as [Hc Hw].
  destruct (plainChar_spec _ Hc) as [_ [Hs _]].
  constructor; [exact Hs|now apply IH].
Qed.

Lemma plainRunes_bytes w : bytesOf (plainRunes w) = w.
Proof. induction w as [|c w IH]; [reflexivity|]. cbn. now rewrite IH. Qed.

Lemma plainText_markers w : plainText w = true -> markers w = 0.
Proof.
  induction w as [|c w IH]; [reflexivity|]. cbn [plainText]. intros Hw.
  apply andb_true_iff in Hw. destruct Hw as [Hc Hw].
  destruct (plainChar_spec _ Hc) as [_ [_ Hm]].
  cbn [markers]. now rewrite Hm, IH.
Qed.

Lemma fieldsLoop_app_space l1 x l2 :
  isSpaceRune x = true ->
  forall start,
    fieldsLoop (l1 ++ x :: l2) start
    = (fieldsLoop l1 start ++ fieldsLoop l2 None)%list.
Proof.
  intros Hx. destruct x as [rx bx]. unfold isSpaceRune in Hx. cbn [fst] in Hx.
  induction l1 as [|[r bytes] l1 IH]; intros start.
  - cbn. rewrite Hx. now destruct start.
  - cbn [app fieldsLoop]. destruct (IsSpace r), start; now rewrite ?IH.
Qed.

Lemma Join_app l1 l2 sep :
  l1 <> [] -> l2 <> [] ->
  Join (l1 ++ l2) sep = Join l1 sep ++ sep ++ Join l2 sep.
Proof.
  intros H1 H2. induction l1 as [|w l1 IH]; [contradiction|].
  destruct l1 as [|w' l1'].
  - cbn [app]. now rewrite Join_cons.
  - cbn [app]. rewrite Join_cons by discriminate.
    change ((w' :: l1') ++ l2)%list with (w' :: l1' ++ l2)%list in IH.
    rewrite IH by discriminate.
    rewrite (@Join_cons w (w' :: l1') sep) by discriminate.
    now rewrite !append_assoc.
Qed.

Lemma Join_head w l sep : exists t, Join (w :: l) sep = w ++ t.
Proof.
  destruct l as [|w' l'].
  - exists "". cbn. now rewrite append_nil_r.
  - exists (sep ++ Join (w' :: l') sep). reflexivity.
Qed.

Lemma plainWord_runes_nonempty w : plainWord w -> plainRunes w <> [].
Proof. intros [Hne _]. now destruct w. Qed.

(** A clause written after text that starts a word survives the
    compaction. *)
Lemma compactSQL_keeps_clause (c : ascii) (A K D B : string) :
  plainChar c = true -> plainWord K -> plainWord D ->
  Contains (compactSQL (String c A ++ " " ++ K ++ " " ++ D ++ B))
           (" " ++ K ++ " " ++ D).
Proof.
  intros Hc HK HD.
  destruct (plainChar_spec _ Hc) as [Ha [Hs _]].
  unfold compactSQL, Fields.
  change (String c A ++ " " ++ K ++ " " ++ D ++ B)
    with (String c A ++ String " " (K ++ String " " (D ++ B))).
  rewrite runes_app by reflexivity. rewrite runes_space.
  rewrite fieldsLoop_app_space by reflexivity.
  rewrite (@runes_plain K _ (proj2 HK)), runes_space.
  rewrite fieldsLoop_app_space by reflexivity.
  rewrite (@runes_plain D _ (proj2 HD)).
  rewrite <- (app_nil_r (plainRunes K)).
  rewrite !fieldsLoop_solid
    by (try apply plainRunes_solid; try apply plainWord_runes_nonempty;
        try apply HK; try apply HD; assumption).
  rewrite !plainRunes_bytes. cbn [startBytes append fieldsLoop].
  rewrite runes_ascii by assumption. cbn [fieldsLoop]. rewrite Hs.
  destruct (fieldsLoop_Some (runes A) (String c "")) as [x [rest ->]].
  destruct (fieldsLoop_Some (runes B) D) as [y [rest' ->]].
  change ([K] ++ ?l)%list with (K :: l).
  rewrite Join_app by discriminate.
  rewrite (@Join_cons K ((D ++ y) :: rest') " ") by discriminate.
  destruct (Join_head (D ++ y) rest' " ") as [t ->].
  exists (Join ((String c "" ++ x) :: rest) " "), (y ++ t).
  cbn [append]. now rewrite !append_assoc.
Qed.

Lemma string_of_uint_plain (u : Decimal.uint) :
  plainText (NilEmpty.string_of_uint u) = true.
Proof. induction u; cbn [NilEmpty.string_of_uint plainText]; auto. Qed.

Lemma utoa_plainWord (n : N) : plainWord (utoa n).
Proof.
  split; [|apply string_of_uint_plain].
  unfold utoa. destruct n as [|p]; [cbn; discriminate|]. cbn [N.to_uint].
  pose proof (DecimalPos.Unsigned.to_uint_nonnil p) as Hp.
  destruct (Pos.to_uint p); [contradiction|..]; cbn; discriminate.
Qed.

(** ** The union renderer *)

Section UnionProofs.
Context {Sqlizer : Type} `{Renderable Sqlizer}.

Lemma unionFinish_post (d : unionData Sqlizer) sqlStr args :
  unionFinish d sqlStr args = (unionPost d sqlStr, args, None).
Proof.
  unfold unionFinish, unionPost.
  destruct (unionPlaceholderFormat d) as [f|]; [|reflexivity].
  unfold ReplacePlaceholders. destruct (ordinalPrefix f); reflexivity.
Qed.

Lemma unionArgs_length (parts : list (unionPart Sqlizer)) :
  List.length (unionArgs parts) = argCounts parts.
Proof.
  unfold unionArgs, argCounts.
  induction parts as [|p rest IH]; simpl; [reflexivity|].
  rewrite length_app, IH. reflexivity.
Qed.

(** The loop, when no subquery fails, from any index above 0. *)
Lemma unionParts_tail (parts : list (unionPart Sqlizer)) :
  Forall segmentOk parts ->
  forall i buf args,
    unionParts parts (S i) buf args
    = inl (buf ++ unionTail parts, (args ++ unionArgs parts)%list).
Proof.
  induction 1 as [|p rest Hp _ IH]; intros i buf args; simpl.
  - now rewrite append_nil_r, app_nil_r.
  - unfold segmentOk, resultErr in Hp. unfold segmentSql, segmentArgs, resultSql, resultArgs.
    destruct (ToSql (query p)) as [[subSQL subArgs] err]; simpl in *; subst err.
    rewrite IH. norm_append. now rewrite app_assoc.
Qed.

Lemma unionParts_body (parts : list (unionPart Sqlizer)) :
  Forall segmentOk parts ->
  unionParts parts 0 "" [] = inl (unionBody parts, unionArgs parts).
Proof.
  intros Hok. destruct parts as [|p rest]; [reflexivity|].
  inversion Hok as [|? ? Hp Hrest]; subst. simpl.
  unfold segmentOk, resultErr in Hp. unfold segmentSql, segmentArgs, resultSql, resultArgs.
  destruct (ToSql (query p)) as [[subSQL subArgs] err]; simpl in *; subst err.
  rewrite unionParts_tail by assumption. norm_append. reflexivity.
Qed.

(** The loop stops at the first subquery that fails. *)
Lemma unionParts_error (pre : list (unionPart Sqlizer)) :
  Forall segmentOk pre ->
  forall p post e i buf args,
    resultErr (ToSql (query p)) = Some e ->
    unionParts (pre ++ p :: post) i buf args
    = inr (errUnionSubquery (i + List.length pre) e).
Proof.
  induction 1 as [|q rest Hq _ IH]; intros p post e i buf args Hp; simpl.
  - unfold resultErr in Hp.
    destruct (ToSql (query p)) as [[subSQL subArgs] err]; simpl in *; subst err.
    now rewrite Nat.add_0_r.
  - unfold segmentOk, resultErr in Hq.
    destruct (ToSql (query q)) as [[subSQL subArgs] err]; simpl in *; subst err.
    rewrite (IH p post e) by assumption. now rewrite Nat.add_succ_comm.
Qed.

End UnionProofs.

Section UnionClaims.
Context {Sqlizer : Type} `{Renderable Sqlizer}.

Lemma unionClauses_append (d : unionData Sqlizer) (buf : Buffer) :
  unionClauses d buf = buf ++ unionClauses d "".
Proof.
  unfold unionClauses.
  destruct (Nat.ltb 0 (List.length (OrderBy d))), (LimitSet d), (OffsetSet d);
    norm_append; reflexivity.
Qed.

Lemma unionData_toSql_nonempty (d : unionData Sqlizer) :
  Parts d <> [] ->
  unionData_toSql d =
    match unionParts (Parts d) 0 "" [] with
    | inr e => ("", [], Some e)
    | inl (buf, args) =>
      let buf := unionClauses d buf in
      let '(buf, (args, err)) :=
        if Nat.ltb 0 (List.length (Suffixes d))
        then
          let '(written, (args, err)) := appendToSql (Suffixes d) " " args in
          (WriteString (WriteByte buf " ") written, (args, err))
        else (buf, (args, None)) in
      match err with
      | Some e => ("", [], Some e)
      | None => unionFinish d buf args
      end
    end.
Proof.
  intros Hne. unfold unionData_toSql.
  destruct (Parts d); [contradiction|reflexivity].
Qed.

(** C7: when a segment fails to render (and those before it did not), the
    union returns that segment's error wrapped in a message that names the
    index of the segment, with empty text and no arguments; nothing after the
    failing segment is rendered: the segments that follow and the clauses of
    the builder have no influence on the outcome. *)
Theorem union_segment_error (d : unionData Sqlizer) pre p post e :
  Parts d = (pre ++ p :: post)%list ->
  Forall segmentOk pre ->
  resultErr (ToSql (query p)) = Some e ->
  let err := errUnionSubquery (List.length pre) e in
  unionData_toSql d = ("", [], Some err)
  /\ Unwrap err = Some e
  /\ Error err
     = "squirrel: union subquery " ++ itoa (List.length pre) ++ ": " ++ Error e
  /\ forall d' post',
       Parts d' = (pre ++ p :: post')%list -> unionData_toSql d' = unionData_toSql d.
Proof.
  intros HP Hpre Hp err.
  assert (Hd : forall d0 post0, Parts d0 = (pre ++ p :: post0)%list ->
                 unionData_toSql d0 = ("", [], Some err)).
  { intros d0 post0 HP0.
    rewrite unionData_toSql_nonempty.
    - rewrite HP0, (unionParts_error Hpre p post0 0 "" [] Hp). reflexivity.
    - rewrite HP0. now destruct pre. }
  repeat split.
  - now apply (Hd d post).
  - intros d' post' HP'. rewrite (Hd d' post' HP'), (Hd d post HP). reflexivity.
Qed.

End UnionClaims.

Lemma union_segment_error_witness :
  unionData_toSql brokenUnion
  = ("", [], Some (wrapError "squirrel: union subquery 2: boom"
                             (errorString "boom"))).
Proof.
  refine (proj1 (@union_segment_error Fragment _ brokenUnion
           [ {| op := ""; query := selectA |};
             {| op := unionAll; query := selectB |} ]
           {| op := unionDistinct; query := failing "boom" |} []
           (errorString "boom") _ _ _)).
  - reflexivity.
  - repeat constructor.
  - reflexivity.
Defined.

Section UnionZeroOne.
Context {Sqlizer : Type} `{Renderable Sqlizer}.

(** C6: a union with no segment fails to render, with the error that a
    union requires at least one SELECT, an empty text and no arguments; a
    union built from one statement that renders renders too, and its text is
    that statement in parentheses and nothing else: no combining keyword is
    written, whatever operator the segment carries, so the text holds UNION
    only if the statement's own text does. *)
Theorem union_zero_or_one :
  (forall d : unionData Sqlizer,
      Parts d = [] -> unionData_toSql d = ("", [], Some errUnionEmpty))
  /\ unionData_toSql (Union []) = ("", [], Some errUnionEmpty)
  /\ Error errUnionEmpty = "squirrel: union requires at least one SELECT"
  /\ (forall (x : Sqlizer) sql args,
        ToSql x = (sql, args, None) ->
        unionData_toSql (Union [x]) = ("(" ++ sql ++ ")", args, None)
        /\ unionData_toSql (UnionAll [x]) = ("(" ++ sql ++ ")", args, None)
        /\ (forall o, unionParts [ {| op := o; query := x |} ] 0 "" []
                      = inl ("(" ++ sql ++ ")", args))
        /\ (~ Contains sql "UNION" -> ~ Contains ("(" ++ sql ++ ")") "UNION")).
Proof.
  split; [|split; [|split]].
  - intros d Hd. unfold unionData_toSql. now rewrite Hd.
  - reflexivity.
  - reflexivity.
  - intros x sql args Hx.
    assert (Hp : forall o, unionParts [ {| op := o; query := x |} ] 0 "" []
                           = inl ("(" ++ sql ++ ")", args)).
    { intros o. simpl. rewrite Hx. norm_append. reflexivity. }
    repeat split.
    + unfold unionData_toSql, Union. simpl. rewrite Hx. norm_append. reflexivity.
    + unfold unionData_toSql, UnionAll. simpl. rewrite Hx. norm_append. reflexivity.
    + exact Hp.
    + intros Hn Hc. apply Hn. now apply Contains_parens.
Qed.

End UnionZeroOne.

Lemma union_zero_or_one_witness :
  unionData_toSql (Union [selectA])
  = ("(" ++ "SELECT id FROM a WHERE x > ?" ++ ")", [vint 10], None).
Proof.
  refine (proj1 (proj2 (proj2 (proj2 (@union_zero_or_one Fragment _)))
                   selectA "SELECT id FROM a WHERE x > ?" [vint 10] _)).
  reflexivity.
Defined.

Section UnionRender.
Context {Sqlizer : Type} `{Renderable Sqlizer}.

Lemma unionTail_app (parts : list (unionPart Sqlizer)) p :
  unionTail (parts ++ [p])
  = unionTail parts ++ " " ++ op p ++ " (" ++ segmentSql p ++ ")".
Proof.
  induction parts as [|q rest IH]; simpl.
  - reflexivity.
  - rewrite IH. norm_append. reflexivity.
Qed.

Lemma unionBody_app (parts : list (unionPart Sqlizer)) p :
  parts <> [] ->
  unionBody (parts ++ [p])
  = unionBody parts ++ " " ++ op p ++ " (" ++ segmentSql p ++ ")".
Proof.
  destruct parts as [|q rest]; [contradiction|intros _]. simpl.
  rewrite unionTail_app. norm_append. reflexivity.
Qed.

Lemma combining_tl_app (l : list (unionPart Sqlizer)) p :
  Forall combining (tl l) -> combining p -> Forall combining (tl (l ++ [p])).
Proof.
  intros Hl Hp. destruct l as [|x t]; [constructor|].
  cbn [app tl] in *. apply Forall_app. split; [assumption|now constructor].
Qed.

Lemma unionOf_combining (o : unionOp) (parts : list Sqlizer) :
  o = unionDistinct \/ o = unionAll ->
  forall i (u : unionData Sqlizer),
    (i = 0 -> Parts u = []) ->
    Forall combining (tl (Parts u)) ->
    Forall combining (tl (Parts (unionOf o parts i u))).
Proof.
  intros Ho. induction parts as [|q rest IH]; intros i u Hi Hu; [exact Hu|].
  cbn [unionOf]. apply IH; [discriminate|].
  destruct i as [|i]; cbn [Nat.eqb appendPart Parts].
  - rewrite (Hi eq_refl). constructor.
  - apply combining_tl_app; [assumption|exact Ho].
Qed.

Lemma applyCalls_combining (calls : list unionCall) :
  forall b : unionData Sqlizer,
    Forall combining (tl (Parts b)) ->
    Forall combining (tl (Parts (applyCalls b calls))).
Proof.
  unfold applyCalls.
  induction calls as [|c calls IH]; intros b Hb; [exact Hb|].
  cbn [fold_left]. apply IH.
  destruct c; cbn [applyCall]; try exact Hb.
  - apply combining_tl_app; [assumption|now left].
  - apply combining_tl_app; [assumption|now right].
Qed.

(** C1, as the code has it: for a union with at least one segment whose
    segments all render, the text, before the placeholder format and the
    compaction are applied, is segment 0 in parentheses followed, for each
    further segment, by a space, the operator recorded on that segment, a
    space and the segment in parentheses, and then by the ORDER BY, LIMIT and
    OFFSET clauses that are set; without suffixes the render succeeds and
    the arguments are those of the segments, concatenated in segment order,
    as many as the segments bind; with suffixes a space and the text that
    [appendToSql] writes follow, and the arguments are those that
    [appendToSql] returns when it is given the arguments of the segments.
    On a builder made by [Union] or [UnionAll] and any calls, the operator
    of every segment but the first is UNION or UNION ALL. *)
Theorem union_render (d : unionData Sqlizer) :
  Parts d <> [] ->
  Forall segmentOk (Parts d) ->
  let body := unionBody (Parts d) in
  let args := unionArgs (Parts d) in
  List.length args = argCounts (Parts d)
  /\ (Suffixes d = [] ->
      unionData_toSql d
      = (unionPost d (body ++ unionClauses d ""), args, None))
  /\ (Suffixes d <> [] ->
      forall written args' err,
        appendToSql (Suffixes d) " " args = (written, (args', err)) ->
        unionData_toSql d
        = match err with
          | Some e => ("", [], Some e)
          | None =>
            (unionPost d (body ++ unionClauses d "" ++ " " ++ written),
             args', None)
          end)
  /\ (OrderBy d = [] -> LimitSet d = false -> OffsetSet d = false ->
      Suffixes d = [] -> unionPlaceholderFormat d = None ->
      CompactOutput d = false ->
      unionData_toSql d = (body, args, None))
  /\ (forall q,
        unionBody (Parts (UnionBuilder_Union d q))
        = body ++ " UNION (" ++ resultSql (ToSql q) ++ ")"
        /\ unionBody (Parts (UnionBuilder_UnionAll d q))
           = body ++ " UNION ALL (" ++ resultSql (ToSql q) ++ ")")
  /\ (forall (parts : list Sqlizer) calls (b0 : unionData Sqlizer),
        b0 = Union parts \/ b0 = UnionAll parts ->
        Forall combining (tl (Parts (applyCalls b0 calls)))).
Proof.
  intros Hne Hok body args.
  assert (Hno : Suffixes d = [] ->
                unionData_toSql d
                = (unionPost d (body ++ unionClauses d ""), args, None)).
  { intros Hs. rewrite unionData_toSql_nonempty by assumption.
    rewrite (unionParts_body Hok), Hs. simpl.
    rewrite unionFinish_post, unionClauses_append. reflexivity. }
  split; [apply unionArgs_length|].
  split; [exact Hno|].
  split; [|split; [|split]].
  - intros Hs written args' err Happ.
    rewrite unionData_toSql_nonempty by assumption.
    rewrite (unionParts_body Hok).
    destruct (Suffixes d) as [|s0 ss] eqn:Es; [contradiction|].
    cbn [List.length Nat.ltb Nat.leb].
    rewrite unionClauses_append. unfold WriteByte, WriteString.
    fold body. fold args. rewrite Happ.
    destruct err; [reflexivity|].
    rewrite unionFinish_post, !append_assoc. reflexivity.
  - intros Ho Hl Hf Hs Hp Hc. rewrite (Hno Hs).
    unfold unionPost, unionClauses. rewrite Ho, Hl, Hf, Hp, Hc. simpl.
    apply (f_equal (fun t => (t, args, @None error))), append_nil_r.
  - intros q. unfold UnionBuilder_Union, UnionBuilder_UnionAll, appendPart.
    cbn [Parts]. rewrite !unionBody_app by assumption. split; reflexivity.
  - intros parts calls b0 Hb. apply applyCalls_combining.
    destruct Hb as [-> | ->]; unfold Union, UnionAll;
      apply unionOf_combining;
      solve [now left | now right | reflexivity | constructor].
Qed.

End UnionRender.

Lemma union_render_witness :
  unionData_toSql sampleUnion
  = (unionPost sampleUnion
       (unionBody (Parts sampleUnion) ++ unionClauses sampleUnion ""),
     unionArgs (Parts sampleUnion), None).
Proof.
  refine (proj1 (proj2 (@union_render Fragment _ sampleUnion _ _)) _).
  - discriminate.
  - repeat constructor.
  - reflexivity.
Defined.

(** C1 as stated fails on a builder with a suffix that binds an argument:
    every child renders, and the arguments returned are one more than the
    segments bind. *)
Lemma union_suffix_arguments_counterexample :
  Parts suffixUnion <> []
  /\ Forall segmentOk (Parts suffixUnion)
  /\ Forall (fun s => resultErr (nestedToSql s) = None) (Suffixes suffixUnion)
  /\ unionData_toSql suffixUnion
     = ("(SELECT id FROM a WHERE x > ?) /* ? */", [vint 10; vint 1], None)
  /\ unionBody (Parts suffixUnion) = "(SELECT id FROM a WHERE x > ?)"
  /\ unionArgs (Parts suffixUnion) = [vint 10]
  /\ resultArgs (unionData_toSql suffixUnion) <> unionArgs (Parts suffixUnion)
  /\ List.length (resultArgs (unionData_toSql suffixUnion))
     <> argCounts (Parts suffixUnion).
Proof.
  repeat split; try reflexivity; try discriminate.
  - repeat constructor.
  - repeat constructor.
Qed.

(** ** The CASE renderer *)

Section CaseProofs.
Context {Sqlizer : Type} `{Renderable Sqlizer}.

Lemma caseWhenParts_missing (parts : list (whenPart Sqlizer)) :
  Exists (fun p => missingThen p = true) parts ->
  forall sql, caseWhenParts parts sql = None.
Proof.
  induction parts as [|p rest IH]; intros Hex sql.
  - inversion Hex.
  - simpl. destruct (missingThen p) eqn:Hp; [reflexivity|].
    apply IH. inversion Hex as [? ? Hp'|]; subst; [congruence|assumption].
Qed.

Lemma newWhenPart_has_then (w t : any Sqlizer) :
  missingThen (newWhenPart w t) = false.
Proof.
  destruct t as [s|v]; [reflexivity|].
  unfold newWhenPart. destruct (isNil v) eqn:Hv; unfold missingThen; simpl.
  - reflexivity.
  - now rewrite Hv.
Qed.

Lemma caseData_ToSql_nonempty (d : caseData Sqlizer) :
  WhenParts d <> [] ->
  caseData_ToSql d =
    match caseWhenParts (WhenParts d) (caseHead d) with
    | None => ("", [], Some errWhenNoThen)
    | Some sql => sqlizerBuffer_ToSql (caseElse d sql)
    end.
Proof.
  intros Hne. unfold caseData_ToSql.
  destruct (WhenParts d); [contradiction|reflexivity].
Qed.

(** The ELSE step when a fragment is stored: the fragment is written. *)
Lemma caseElse_fragment (d : caseData Sqlizer) sql e :
  Else d = Some e ->
  caseElse d sql
  = sbWriteString (WriteSql (sbWriteString sql "ELSE ") e) "END".
Proof. intros He. unfold caseElse. rewrite He. reflexivity. Qed.

(** The ELSE step when no fragment is stored and a value or the null marker
    is: one placeholder, bound to what [ElseValue] holds. *)
Lemma caseElse_value (d : caseData Sqlizer) sql :
  Else d = None ->
  isNil (ElseValue d) = false \/ ElseNull d = true ->
  caseElse d sql
  = {| sbBuffer := sbBuffer sql ++ "ELSE ? END";
       sbArgs := sbArgs sql ++ [ElseValue d];
       sbErr := sbErr sql |}.
Proof.
  intros He Hv. unfold caseElse. rewrite He.
  assert (Hb : negb (isNil (ElseValue d)) || ElseNull d = true).
  { destruct Hv as [-> | ->]; [reflexivity|apply orb_true_r]. }
  cbn [isSome orb]. rewrite Hb.
  unfold sbWriteString, sbAppendArg; cbn [sbBuffer sbArgs sbErr].
  f_equal. norm_append. reflexivity.
Qed.

(** The ELSE step when nothing is stored: only END is written. *)
Lemma caseElse_none (d : caseData Sqlizer) sql :
  Else d = None -> ElseValue d = vnil -> ElseNull d = false ->
  caseElse d sql
  = {| sbBuffer := sbBuffer sql ++ "END"; sbArgs := sbArgs sql;
       sbErr := sbErr sql |}.
Proof.
  intros He Hv Hn. unfold caseElse. rewrite He, Hv, Hn. reflexivity.
Qed.

(** C5: building a CASE cannot fail, as the builder methods return a
    builder and nothing else, and a part built by [When] always has a THEN;
    the violations show when rendering: a CASE without WHEN part, and a
    CASE with a WHEN part that has no THEN in any of its three forms, both
    return an error with an empty text and no arguments. *)
Theorem case_render_errors :
  (forall d : caseData Sqlizer,
      WhenParts d = [] -> caseData_ToSql d = ("", [], Some errCaseNoWhen))
  /\ (forall d : caseData Sqlizer,
         Exists (fun p => missingThen p = true) (WhenParts d) ->
         caseData_ToSql d = ("", [], Some errWhenNoThen))
  /\ (forall (b : caseData Sqlizer) w t,
         Forall (fun p => missingThen p = false) (WhenParts b) ->
         Forall (fun p => missingThen p = false)
                (WhenParts (CaseBuilder_When b w t))).
Proof.
  split; [|split].
  - intros d Hd. unfold caseData_ToSql. now rewrite Hd.
  - intros d Hex. rewrite caseData_ToSql_nonempty.
    + now rewrite caseWhenParts_missing.
    + intros Hd. rewrite Hd in Hex. inversion Hex.
  - intros b w t Hb. unfold CaseBuilder_When; cbn [WhenParts].
    apply Forall_app. split; [assumption|].
    constructor; [apply newWhenPart_has_then|constructor].
Qed.

End CaseProofs.

Lemma case_render_errors_witness :
  caseData_ToSql caseWithoutThen = ("", [], Some errWhenNoThen).
Proof.
  refine (proj1 (proj2 (@case_render_errors Fragment _)) caseWithoutThen _).
  apply Exists_cons_tl, Exists_cons_hd. reflexivity.
Defined.

Section CaseElse.
Context {Sqlizer : Type} `{Renderable Sqlizer}.

(** [Else] touches the ELSE fields only: what a CASE renders after it is
    what the ELSE step writes after the WHEN parts of the builder. *)
Lemma caseData_ToSql_else (b d : caseData Sqlizer) (sql : sqlizerBuffer) :
  WhenParts b <> [] ->
  caseWhenParts (WhenParts b) (caseHead b) = Some sql ->
  What d = What b -> WhenParts d = WhenParts b ->
  caseData_ToSql d = sqlizerBuffer_ToSql (caseElse d sql).
Proof.
  intros Hne Hw HW HP.
  rewrite caseData_ToSql_nonempty by (rewrite HP; exact Hne).
  unfold caseHead in *. now rewrite HW, HP, Hw.
Qed.

Lemma CaseBuilder_Else_keeps (b : caseData Sqlizer) (e : any Sqlizer) :
  What (CaseBuilder_Else b e) = What b
  /\ WhenParts (CaseBuilder_Else b e) = WhenParts b.
Proof.
  destruct e as [f|v]; [now split|].
  unfold CaseBuilder_Else. now destruct (isNil v).
Qed.

(** What a CASE renders after one call of [Else], on any builder with WHEN
    parts: with no fragment stored, a value is the argument of the one
    placeholder, and after [Else(nil)] the argument is what [ElseValue]
    held; with a fragment stored, a value or nil changes nothing. *)
Lemma case_else_call (b : caseData Sqlizer) (sql : sqlizerBuffer) :
  WhenParts b <> [] ->
  caseWhenParts (WhenParts b) (caseHead b) = Some sql ->
  (Else b = None -> ElseValue b = vnil -> ElseNull b = false ->
   caseData_ToSql b = (sbBuffer sql ++ "END", sbArgs sql, sbErr sql))
  /\ (Else b = None ->
      forall v, isNil v = false ->
        caseData_ToSql (CaseBuilder_Else b (AnyValue v))
        = (sbBuffer sql ++ "ELSE ? END", (sbArgs sql ++ [v])%list,
           sbErr sql))
  /\ (Else b = None ->
      caseData_ToSql (CaseBuilder_Else b (AnyValue vnil))
      = (sbBuffer sql ++ "ELSE ? END", (sbArgs sql ++ [ElseValue b])%list,
         sbErr sql))
  /\ (forall e x,
         Else b = Some e ->
         caseData_ToSql (CaseBuilder_Else b (AnyValue x))
         = sqlizerBuffer_ToSql
             (sbWriteString (WriteSql (sbWriteString sql "ELSE ") e) "END"))
  /\ (forall f,
         caseData_ToSql (CaseBuilder_Else b (AnySqlizer f))
         = sqlizerBuffer_ToSql
             (sbWriteString
                (WriteSql (sbWriteString sql "ELSE ")
                   (newPart (AnySqlizer f))) "END")).
Proof.
  intros Hne Hw.
  assert (R : forall e,
             caseData_ToSql (CaseBuilder_Else b e)
             = sqlizerBuffer_ToSql (caseElse (CaseBuilder_Else b e) sql)).
  { intros e. destruct (CaseBuilder_Else_keeps b e) as [HW HP].
    now apply (@caseData_ToSql_else b). }
  split; [|split; [|split; [|split]]].
  - intros He Hv Hn.
    rewrite (@caseData_ToSql_else b b sql) by auto.
    now rewrite caseElse_none.
  - intros He v Hv. rewrite R. unfold CaseBuilder_Else. rewrite Hv.
    rewrite caseElse_value; cbn [Else ElseValue ElseNull]; auto.
  - intros He. rewrite R. unfold CaseBuilder_Else. cbn [isNil].
    rewrite caseElse_value; cbn [Else ElseValue ElseNull]; auto.
  - intros e x He. rewrite R.
    rewrite (@caseElse_fragment _ _ (CaseBuilder_Else b (AnyValue x)) sql e);
      [reflexivity|].
    unfold CaseBuilder_Else. now destruct (isNil x).
  - intros f. rewrite R.
    now rewrite (@caseElse_fragment _ _ (CaseBuilder_Else b (AnySqlizer f))
                   sql (newPart (AnySqlizer f))).
Qed.

(** C10, as the code has it: the three ELSE variants live in three fields,
    and a call of [Else] sets its own field (the fragment, the value, the
    null marker) and leaves the two others, the operand and the WHEN parts as
    they are; when rendering, a stored fragment wins over a stored value and
    over the null marker, whichever was set first; with no fragment stored,
    and a value or the null marker stored, one placeholder is written, bound
    to what [ElseValue] holds.  So on a builder that holds no ELSE fragment,
    after [Else(v)] and then [Else(nil)], with [v] neither nil nor a
    fragment, the placeholder is bound to [v], not to nil; on a builder that
    holds a fragment, the fragment is what is written, and no placeholder. *)
Theorem case_else_fields (b : caseData Sqlizer) :
  (forall f,
      Else (CaseBuilder_Else b (AnySqlizer f)) = Some (newPart (AnySqlizer f))
      /\ ElseValue (CaseBuilder_Else b (AnySqlizer f)) = ElseValue b
      /\ ElseNull (CaseBuilder_Else b (AnySqlizer f)) = ElseNull b)
  /\ (forall v, isNil v = false ->
        Else (CaseBuilder_Else b (AnyValue v)) = Else b
        /\ ElseValue (CaseBuilder_Else b (AnyValue v)) = v
        /\ ElseNull (CaseBuilder_Else b (AnyValue v)) = ElseNull b)
  /\ (Else (CaseBuilder_Else b (AnyValue vnil)) = Else b
      /\ ElseValue (CaseBuilder_Else b (AnyValue vnil)) = ElseValue b
      /\ ElseNull (CaseBuilder_Else b (AnyValue vnil)) = true)
  /\ (forall e,
        What (CaseBuilder_Else b e) = What b
        /\ WhenParts (CaseBuilder_Else b e) = WhenParts b)
  /\ (forall e sql,
        Else b = Some e ->
        caseElse b sql
        = sbWriteString (WriteSql (sbWriteString sql "ELSE ") e) "END")
  /\ (forall sql,
        Else b = None ->
        isNil (ElseValue b) = false \/ ElseNull b = true ->
        caseElse b sql
        = {| sbBuffer := sbBuffer sql ++ "ELSE ? END";
             sbArgs := sbArgs sql ++ [ElseValue b];
             sbErr := sbErr sql |})
  /\ (forall f x sql,
        WhenParts b <> [] ->
        caseWhenParts (WhenParts b) (caseHead b) = Some sql ->
        let written :=
          sqlizerBuffer_ToSql
            (sbWriteString
               (WriteSql (sbWriteString sql "ELSE ") (newPart (AnySqlizer f)))
               "END") in
        caseData_ToSql (CaseBuilder_Else b (AnySqlizer f)) = written
        /\ caseData_ToSql
             (CaseBuilder_Else (CaseBuilder_Else b (AnySqlizer f))
                (AnyValue x))
           = written
        /\ caseData_ToSql
             (CaseBuilder_Else (CaseBuilder_Else b (AnyValue x))
                (AnySqlizer f))
           = written)
  /\ (forall v sql,
        isNil v = false ->
        Else b = None ->
        WhenParts b <> [] ->
        caseWhenParts (WhenParts b) (caseHead b) = Some sql ->
        caseData_ToSql
          (CaseBuilder_Else (CaseBuilder_Else b (AnyValue v)) (AnyValue vnil))
        = (sbBuffer sql ++ "ELSE ? END", (sbArgs sql ++ [v])%list, sbErr sql))
  /\ (forall v e sql,
        isNil v = false ->
        Else b = Some e ->
        WhenParts b <> [] ->
        caseWhenParts (WhenParts b) (caseHead b) = Some sql ->
        caseData_ToSql
          (CaseBuilder_Else (CaseBuilder_Else b (AnyValue v)) (AnyValue vnil))
        = sqlizerBuffer_ToSql
            (sbWriteString (WriteSql (sbWriteString sql "ELSE ") e) "END")).
Proof.
  assert (Hstep : forall (c : caseData Sqlizer) e sql,
             WhenParts b <> [] ->
             caseWhenParts (WhenParts b) (caseHead b) = Some sql ->
             What c = What b -> WhenParts c = WhenParts b ->
             WhenParts (CaseBuilder_Else c e) <> []
             /\ caseWhenParts (WhenParts (CaseBuilder_Else c e))
                  (caseHead (CaseBuilder_Else c e)) = Some sql).
  { intros c e sql Hne Hw HW HP.
    destruct (CaseBuilder_Else_keeps c e) as [HW' HP'].
    unfold caseHead in *. rewrite HW', HP', HW, HP. now split. }
  split; [|split; [|split; [|split; [|split; [|split; [|split; [|split]]]]]]].
  - intros f. now repeat split.
  - intros v Hv. unfold CaseBuilder_Else. rewrite Hv. now repeat split.
  - now repeat split.
  - intros e. apply CaseBuilder_Else_keeps.
  - intros e sql He. now apply caseElse_fragment.
  - intros sql He Hv. now apply caseElse_value.
  - intros f x sql Hne Hw written. subst written.
    destruct (@case_else_call b sql Hne Hw) as [_ [_ [_ [_ Hf]]]].
    split; [apply Hf|]. split.
    + destruct (Hstep b (AnySqlizer f) sql Hne Hw eq_refl eq_refl)
        as [Hne1 Hw1].
      destruct (@case_else_call _ sql Hne1 Hw1) as [_ [_ [_ [Hx _]]]].
      now apply Hx.
    + destruct (Hstep b (AnyValue x) sql Hne Hw eq_refl eq_refl)
        as [Hne1 Hw1].
      destruct (@case_else_call _ sql Hne1 Hw1) as [_ [_ [_ [_ Hf1]]]].
      apply Hf1.
  - intros v sql Hv He Hne Hw.
    destruct (Hstep b (AnyValue v) sql Hne Hw eq_refl eq_refl) as [Hne1 Hw1].
    destruct (@case_else_call _ sql Hne1 Hw1) as [_ [_ [Hnil _]]].
    rewrite Hnil; unfold CaseBuilder_Else; rewrite Hv; cbn [Else ElseValue];
      [reflexivity|exact He].
  - intros v e sql Hv He Hne Hw.
    destruct (Hstep b (AnyValue v) sql Hne Hw eq_refl eq_refl) as [Hne1 Hw1].
    destruct (@case_else_call _ sql Hne1 Hw1) as [_ [_ [_ [Hx _]]]].
    apply Hx. unfold CaseBuilder_Else. rewrite Hv. exact He.
Qed.

End CaseElse.

(** C4, where the code and the claim part.  On every CASE builder with WHEN
    parts and no ELSE fragment stored, the code does what the claim says of
    a value: after [Else(v)] one placeholder is written and [v] is the one
    argument added; with no ELSE variant stored no ELSE is written; after
    [Else(nil)] on a builder with nothing stored the argument is nil.  But
    [Else] sets one of three fields and clears none, and the renderer reads
    the fragment first, then the value: [Else(nil)] after [Else(7)] binds 7
    where the claim binds nil, and [Else(7)] after [Else(Expr("z"))] writes
    z and no placeholder, while in the other orders of the same calls the
    last call is the one rendered. *)
Theorem case_else_variants :
  (forall (b : caseData Fragment) (sql : sqlizerBuffer),
      WhenParts b <> [] ->
      caseWhenParts (WhenParts b) (caseHead b) = Some sql ->
      (Else b = None -> ElseValue b = vnil -> ElseNull b = false ->
       caseData_ToSql b = (sbBuffer sql ++ "END", sbArgs sql, sbErr sql))
      /\ (Else b = None ->
          forall v, isNil v = false ->
            caseData_ToSql (CaseBuilder_Else b (AnyValue v))
            = (sbBuffer sql ++ "ELSE ? END", (sbArgs sql ++ [v])%list,
               sbErr sql))
      /\ (Else b = None ->
          caseData_ToSql (CaseBuilder_Else b (AnyValue vnil))
          = (sbBuffer sql ++ "ELSE ? END",
             (sbArgs sql ++ [ElseValue b])%list, sbErr sql)))
  /\ caseData_ToSql sampleCase
     = ("CASE WHEN x = ? THEN ? END", [vint 1; vstring "one"], None)
  /\ caseData_ToSql (CaseBuilder_Else sampleCase (AnyValue (vint 7)))
     = ("CASE WHEN x = ? THEN ? ELSE ? END",
        [vint 1; vstring "one"; vint 7], None)
  /\ caseData_ToSql (CaseBuilder_Else sampleCase (AnyValue vnil))
     = ("CASE WHEN x = ? THEN ? ELSE ? END",
        [vint 1; vstring "one"; vnil], None)
  /\ caseData_ToSql
       (CaseBuilder_Else (CaseBuilder_Else sampleCase (AnyValue vnil))
          (AnyValue (vint 7)))
     = ("CASE WHEN x = ? THEN ? ELSE ? END",
        [vint 1; vstring "one"; vint 7], None)
  /\ caseData_ToSql
       (CaseBuilder_Else (CaseBuilder_Else sampleCase (AnyValue (vint 7)))
          (AnySqlizer (Expr "z" [])))
     = ("CASE WHEN x = ? THEN ? ELSE z END", [vint 1; vstring "one"], None)
  /\ ElseNull caseElseTwice = true
  /\ caseData_ToSql caseElseTwice
     = ("CASE WHEN x = ? THEN ? ELSE ? END",
        [vint 1; vstring "one"; vint 7], None)
  /\ last (resultArgs (caseData_ToSql caseElseTwice)) vnil <> vnil
  /\ ElseValue caseElseFragmentThenValue = vint 7
  /\ caseData_ToSql caseElseFragmentThenValue
     = ("CASE WHEN x = ? THEN ? ELSE z END", [vint 1; vstring "one"], None).
Proof.
  split.
  - intros b sql Hne Hw.
    destruct (@case_else_call Fragment _ b sql Hne Hw) as [H0 [Hv [Hn _]]].
    split; [exact H0|]. split; [exact Hv|exact Hn].
  - repeat split; try reflexivity. discriminate.
Qed.

Lemma case_else_variants_witness :
  caseData_ToSql caseElseTwice
  = ("CASE WHEN x = ? THEN ? " ++ "ELSE ? END",
     ([vint 1; vstring "one"] ++ [vint 7])%list, None).
Proof.
  refine (proj2 (proj2 (proj1 case_else_variants
           (CaseBuilder_Else sampleCase (AnyValue (vint 7)))
           {| sbBuffer := "CASE WHEN x = ? THEN ? ";
              sbArgs := [vint 1; vstring "one"]; sbErr := None |}
           _ _)) _); try reflexivity.
  discriminate.
Defined.

Lemma case_else_fields_witness :
  caseData_ToSql caseElseTwice
  = ("CASE WHEN x = ? THEN ? " ++ "ELSE ? END",
     ([vint 1; vstring "one"] ++ [vint 7])%list, None)
  /\ caseData_ToSql caseElseFragmentThenValue
     = ("CASE WHEN x = ? THEN ? ELSE z END", [vint 1; vstring "one"], None).
Proof.
  split.
  - refine (proj1 (proj2 (proj2 (proj2 (proj2 (proj2 (proj2 (proj2
              (@case_else_fields Fragment _ sampleCase))))))))
              (vint 7)
              {| sbBuffer := "CASE WHEN x = ? THEN ? ";
                 sbArgs := [vint 1; vstring "one"]; sbErr := None |}
              _ _ _ _); try reflexivity.
    discriminate.
  - refine (proj1 (proj2 (proj1 (proj2 (proj2 (proj2 (proj2 (proj2 (proj2
              (@case_else_fields Fragment _ sampleCase)))))))
              (Expr "z" []) (vint 7)
              {| sbBuffer := "CASE WHEN x = ? THEN ? ";
                 sbArgs := [vint 1; vstring "one"]; sbErr := None |}
              _ _))); try reflexivity.
    discriminate.
Defined.

(** C10 as stated fails on a builder that holds an ELSE fragment: after
    [Else(Expr("z"))], [Else(7)] and [Else(nil)] the value 7 is stored and
    the null marker is set, but the text has the fragment after ELSE and no
    placeholder, and 7 is no argument. *)
Lemma case_else_fields_counterexample :
  let b := CaseBuilder_Else caseElseFragmentThenValue (AnyValue vnil) in
  ElseValue b = vint 7
  /\ ElseNull b = true
  /\ caseData_ToSql b
     = ("CASE WHEN x = ? THEN ? ELSE z END", [vint 1; vstring "one"], None)
  /\ ~ In (vint 7) (resultArgs (caseData_ToSql b)).
Proof.
  repeat split. cbn. intros [E|[E|[]]]; discriminate E.
Qed.

(** ** The LATERAL parts *)

Section LateralProofs.
Context {Sqlizer : Type} `{Renderable Sqlizer}.

Lemma joinLateralSelectPart_ToSql_ok (p : joinLateralSelectPart Sqlizer)
    subSql subArgs :
  ToSql (sel p) = (subSql, subArgs, None) ->
  joinLateralSelectPart_ToSql p =
    match on p with
    | None =>
      (joinType p ++ " LATERAL (" ++ subSql ++ ") AS " ++ alias p, subArgs, None)
    | Some o =>
      match resultErr (ToSql o) with
      | Some e => ("", [], Some e)
      | None =>
        (joinType p ++ " LATERAL (" ++ subSql ++ ") AS " ++ alias p
           ++ " ON " ++ resultSql (ToSql o),
         (subArgs ++ resultArgs (ToSql o))%list, None)
      end
    end.
Proof.
  intros Hs. unfold joinLateralSelectPart_ToSql. rewrite Hs.
  destruct (on p) as [o|]; [|reflexivity].
  unfold resultErr, resultSql, resultArgs.
  destruct (ToSql o) as [[onSql onArgs] [e|]]; cbn [fst snd]; [reflexivity|].
  norm_append. reflexivity.
Qed.

End LateralProofs.

(** C3: a JOIN-position LATERAL part whose subquery renders gives its join
    keyword, then LATERAL, the subquery in parentheses, AS and the alias;
    ON and the rendered condition follow exactly when the part has an ON
    condition (which must render too), and the arguments of the condition
    come after those of the subquery; a part built by
    [CrossJoinLateralSelect] has no ON condition, so no ON is written. *)
Theorem join_lateral_render (p : joinLateralSelectPart Fragment)
    (subSql : string) (subArgs : list value) :
  ToSql (sel p) = (subSql, subArgs, None) ->
  let head := joinType p ++ " LATERAL (" ++ subSql ++ ") AS " ++ alias p in
  (on p = None -> ToSql (JoinLateralSelectPart p) = (head, subArgs, None))
  /\ (forall o onSql onArgs,
        on p = Some o -> ToSql o = (onSql, onArgs, None) ->
        ToSql (JoinLateralSelectPart p)
        = (head ++ " ON " ++ onSql, (subArgs ++ onArgs)%list, None))
  /\ (forall o e,
        on p = Some o -> resultErr (ToSql o) = Some e ->
        ToSql (JoinLateralSelectPart p) = ("", [], Some e))
  /\ (forall b sub a,
        exists part,
          Joins (SelectBuilder_CrossJoinLateralSelect b sub a)
          = (Joins b ++ [JoinLateralSelectPart part])%list
          /\ joinType part = "CROSS JOIN" /\ alias part = a
          /\ on part = None
          /\ forall sql args,
               ToSql (sel part) = (sql, args, None) ->
               ToSql (JoinLateralSelectPart part)
               = ("CROSS JOIN LATERAL (" ++ sql ++ ") AS " ++ a, args, None)).
Proof.
  intros Hs head.
  pose proof (joinLateralSelectPart_ToSql_ok p Hs) as Hr.
  change (ToSql (JoinLateralSelectPart p)) with (joinLateralSelectPart_ToSql p).
  split; [|split; [|split]].
  - intros Hon. now rewrite Hr, Hon.
  - intros o onSql onArgs Hon Ho. rewrite Hr, Hon, Ho. cbn.
    unfold head. now rewrite !append_assoc.
  - intros o e Hon He. now rewrite Hr, Hon, He.
  - intros b sub a. eexists. split; [reflexivity|].
    cbn [joinType alias on sel]. repeat split.
    intros sql args Hsub.
    change (ToSql (JoinLateralSelectPart ?q))
      with (joinLateralSelectPart_ToSql q).
    rewrite (@joinLateralSelectPart_ToSql_ok Fragment _
               {| joinType := "CROSS JOIN";
                  sel := forceQuestionPlaceholders sub;
                  alias := a; on := None |} sql args Hsub).
    reflexivity.
Qed.

Lemma join_lateral_render_witness :
  ToSql (JoinLateralSelectPart rawJoinPart)
  = (("JOIN" ++ " LATERAL (" ++ "generate_series(1,3)" ++ ") AS " ++ "gs(n)")
       ++ " ON " ++ "TRUE", ([] ++ [])%list, None).
Proof.
  refine (proj1 (proj2 (@join_lateral_render rawJoinPart
            "generate_series(1,3)" [] _)) (Expr "TRUE" []) "TRUE" [] _ _);
    reflexivity.
Defined.

(** ** Forcing the placeholder format of an embedded subquery *)

(** The markers of a concatenation. *)
Lemma markers_app (a b : string) : markers (a ++ b) = markers a + markers b.
Proof.
  induction a as [|c a IH]; [reflexivity|]. cbn [append markers].
  rewrite IH. lia.
Qed.

(** The rewrite of a concatenation numbers the markers of the second text
    after those of the first: the ordinals are contiguous across the texts
    that a parent assembles. *)
Lemma replacePositionalPlaceholders_app (a b prefix : string) (n : nat) :
  replacePositionalPlaceholders (a ++ b) prefix n
  = replacePositionalPlaceholders a prefix n
    ++ replacePositionalPlaceholders b prefix (n + markers a).
Proof.
  revert n. induction a as [|c a IH]; intros n; simpl.
  - now rewrite Nat.add_0_r.
  - destruct (isMarker c); rewrite IH.
    + rewrite !append_assoc. now rewrite Nat.add_succ_comm.
    + reflexivity.
Qed.

Lemma applyPlaceholderFormat_Question (r : result) :
  resultErr r = None -> applyPlaceholderFormat (Some Question) r = r.
Proof. destruct r as [[sqlStr args] [e|]]; [discriminate|reflexivity]. Qed.

Lemma selectData_toSqlRaw_format (v : selectData Fragment) f :
  selectData_toSqlRaw (SelectBuilder_PlaceholderFormat v f)
  = selectData_toSqlRaw v.
Proof. reflexivity. Qed.

Lemma selectData_toSqlRaw_error (v : selectData Fragment) e :
  resultErr (selectData_toSqlRaw v) = Some e ->
  selectData_toSqlRaw v = ("", [], Some e).
Proof.
  unfold selectData_toSqlRaw.
  destruct (selectClause _ _ _ _) as [buf [args [e'|]]]; cbn.
  - now intros [= ->].
  - discriminate.
Qed.

(** ** The text of a SELECT around a LATERAL part *)

Section AppendToSql.
Context {Sqlizer : Type} (nested : Sqlizer -> result).

(** [appendToSql] only appends to what was written. *)
Lemma appendToSqlFrom_grows (parts : list Sqlizer) :
  forall i w sep args w' args',
    appendToSqlFrom nested parts i w sep args = (w', (args', None)) ->
    exists t, w' = w ++ t.
Proof.
  induction parts as [|p rest IH]; intros i w sep args w' args' E.
  - cbn [appendToSqlFrom] in E. injection E as <- _.
    exists "". now rewrite append_nil_r.
  - cbn [appendToSqlFrom] in E.
    destruct (nested p) as [[partSql partArgs] [e|]]; [discriminate|].
    apply IH in E. destruct E as [t ->].
    exists ((if Nat.ltb 0 i then sep else "") ++ partSql ++ t).
    unfold WriteString. destruct (Nat.ltb 0 i); now rewrite ?append_assoc.
Qed.

(** The text of every part is in what [appendToSql] writes, when it
    returns no error. *)
Lemma appendToSqlFrom_In (x : Sqlizer) (parts : list Sqlizer) :
  In x parts ->
  forall i w sep args w' args',
    appendToSqlFrom nested parts i w sep args = (w', (args', None)) ->
    resultErr (nested x) = None
    /\ exists t1 t2, w' = w ++ t1 ++ resultSql (nested x) ++ t2.
Proof.
  induction parts as [|p rest IH]; intros Hin i w sep args w' args' E;
    [destruct Hin|].
  cbn [appendToSqlFrom] in E.
  destruct (nested p) as [[partSql partArgs] [e|]] eqn:Ep; [discriminate|].
  destruct Hin as [-> | Hin].
  - rewrite Ep. split; [reflexivity|].
    apply appendToSqlFrom_grows in E. destruct E as [t ->].
    exists (if Nat.ltb 0 i then sep else ""), t.
    unfold resultSql, WriteString. cbn [fst].
    destruct (Nat.ltb 0 i); now rewrite ?append_assoc.
  - destruct (IH Hin _ _ _ _ _ _ E) as [Hx [t1 [t2 ->]]].
    split; [exact Hx|].
    exists ((if Nat.ltb 0 i then sep else "") ++ partSql ++ t1), t2.
    unfold WriteString. destruct (Nat.ltb 0 i); now rewrite ?append_assoc.
Qed.

(** [appendToSql] adds as many neutral markers as arguments, when each
    part renders as many markers as arguments. *)
Lemma appendToSqlFrom_balanced (parts : list Sqlizer) :
  Forall (fun p => markers (resultSql (nested p))
                   = List.length (resultArgs (nested p))) parts ->
  forall i w sep args w' args',
    markers sep = 0 ->
    appendToSqlFrom nested parts i w sep args = (w', (args', None)) ->
    markers w' + List.length args = markers w + List.length args'.
Proof.
  induction 1 as [|p rest Hp _ IH]; intros i w sep args w' args' Hsep E.
  - cbn [appendToSqlFrom] in E. now injection E as <- <-.
  - cbn [appendToSqlFrom] in E.
    destruct (nested p) as [[partSql partArgs] [e|]]; [discriminate|].
    unfold resultSql, resultArgs in Hp. cbn [fst snd] in Hp.
    apply (IH _ _ _ _ _ _ Hsep) in E. rewrite length_app in E.
    unfold WriteString in E.
    destruct (Nat.ltb 0 i); rewrite ?markers_app, ?Hsep in E; lia.
Qed.

End AppendToSql.

(** A clause returns no error only on a state without error, and only
    appends to the buffer. *)
Lemma selectClause_ok (kw : string) (parts : list Fragment) (sep : string)
    (st : Buffer * (list value * option error)) buf' args' :
  selectClause kw parts sep st = (buf', (args', None)) ->
  exists buf args t, st = (buf, (args, None)) /\ buf' = buf ++ t.
Proof.
  destruct st as [buf [args [e|]]]; unfold selectClause; [discriminate|].
  destruct (Nat.ltb 0 (List.length parts)).
  - change (appendToSql parts sep args)
      with (appendToSqlFrom (render true) parts 0 "" sep args).
    destruct (appendToSqlFrom (render true) parts 0 "" sep args)
      as [written [args1 err]] eqn:E.
    intros [= <- <- ->]. apply appendToSqlFrom_grows in E.
    destruct E as [t ->]. exists buf, args, (kw ++ t). split; [reflexivity|].
    unfold WriteString. now rewrite ?append_assoc.
  - intros [= <- <-]. exists buf, args, "". now rewrite append_nil_r.
Qed.

Lemma selectClause_In (kw : string) (parts : list Fragment) (sep : string)
    (x : Fragment) buf args buf' args' :
  In x parts ->
  selectClause kw parts sep (buf, (args, None)) = (buf', (args', None)) ->
  resultErr (nestedToSql x) = None
  /\ exists t1 t2, buf' = buf ++ t1 ++ resultSql (nestedToSql x) ++ t2.
Proof.
  intros Hin. unfold selectClause.
  destruct parts as [|p rest]; [destruct Hin|]. cbn [List.length Nat.ltb Nat.leb].
  change (appendToSql (p :: rest) sep args)
    with (appendToSqlFrom (render true) (p :: rest) 0 "" sep args).
  destruct (appendToSqlFrom (render true) (p :: rest) 0 "" sep args)
    as [written [args1 err]] eqn:E.
  intros [= <- <- ->].
  destruct (@appendToSqlFrom_In _ (render true) x _ Hin _ _ _ _ _ _ E)
    as [Hx [t1 [t2 ->]]].
  split; [exact Hx|]. exists (kw ++ t1), t2.
  change (nestedToSql x) with (render true x).
  unfold WriteString. now rewrite ?append_assoc.
Qed.

(** The neutral text of a SELECT holds the text of its FROM part and of
    each of its JOIN parts. *)
Lemma selectData_toSqlRaw_part (d : selectData Fragment) (x : Fragment) :
  From d = Some x \/ In x (Joins d) ->
  resultErr (selectData_toSqlRaw d) = None ->
  resultErr (nestedToSql x) = None
  /\ exists pre post,
       resultSql (selectData_toSqlRaw d)
       = pre ++ resultSql (nestedToSql x) ++ post.
Proof.
  intros Hx. unfold selectData_toSqlRaw.
  set (st0 := (WriteString "" "SELECT ", (@nil value, @None error))).
  set (st1 := selectClause "" (Columns d) ", " st0).
  set (st2 := match From d with
              | Some f => selectClause " FROM " [f] "" st1
              | None => st1
              end).
  set (st3 := selectClause " " (Joins d) " " st2).
  destruct (selectClause " WHERE " (WhereParts d) " AND " st3)
    as [buf4 [args4 [e|]]] eqn:E4; [discriminate|]. intros _.
  unfold resultSql. cbn [fst].
  destruct (selectClause_ok _ _ _ _ E4) as [buf3 [args3 [t4 [E3 ->]]]].
  unfold st3 in E3.
  destruct (selectClause_ok _ _ _ _ E3) as [buf2 [args2 [t3 [E2 B3]]]].
  destruct Hx as [Hf | Hj].
  - unfold st2 in E2. rewrite Hf in E2.
    destruct (selectClause_ok _ _ _ _ E2) as [buf1 [args1 [t2 [E1 _]]]].
    rewrite E1 in E2.
    destruct (@selectClause_In " FROM " [x] "" x buf1 args1 buf2 args2
                (or_introl eq_refl) E2) as [Hok [t1 [t2' B2]]].
    split; [exact Hok|]. subst buf3 buf2.
    exists (buf1 ++ t1), (t2' ++ t3 ++ t4).
    unfold resultSql. now rewrite ?append_assoc.
  - rewrite E2 in E3.
    destruct (@selectClause_In " " (Joins d) " " x buf2 args2 buf3 args3
                Hj E3) as [Hok [t1 [t2' B3']]].
    split; [exact Hok|]. rewrite B3'.
    exists (buf2 ++ t1), (t2' ++ t4).
    unfold resultSql. now rewrite ?append_assoc.
Qed.

Lemma selectClause_balanced (kw : string) (parts : list Fragment)
    (sep : string) buf args buf' args' :
  markers kw = 0 -> markers sep = 0 ->
  Forall (fun x => balanced (nestedToSql x)) parts ->
  selectClause kw parts sep (buf, (args, None)) = (buf', (args', None)) ->
  markers buf' + List.length args = markers buf + List.length args'.
Proof.
  intros Hkw Hsep Hb. unfold selectClause.
  destruct (Nat.ltb 0 (List.length parts)); [|now intros [= <- <-]].
  change (appendToSql parts sep args)
    with (appendToSqlFrom (render true) parts 0 "" sep args).
  destruct (appendToSqlFrom (render true) parts 0 "" sep args)
    as [written [args1 err]] eqn:E.
  intros [= <- <- ->].
  apply (@appendToSqlFrom_balanced _ (render true) parts Hb) in E;
    [|exact Hsep].
  unfold WriteString. rewrite !markers_app, Hkw. cbn [markers] in E. lia.
Qed.

(** The neutral text of a SELECT has as many markers as the SELECT returns
    arguments, when each of its parts does. *)
Lemma selectData_toSqlRaw_balanced (d : selectData Fragment) :
  Forall (fun x => balanced (nestedToSql x)) (Columns d) ->
  (forall x, From d = Some x -> balanced (nestedToSql x)) ->
  Forall (fun x => balanced (nestedToSql x)) (Joins d) ->
  Forall (fun x => balanced (nestedToSql x)) (WhereParts d) ->
  balanced (selectData_toSqlRaw d).
Proof.
  intros Hc Hf Hj Hw. unfold selectData_toSqlRaw.
  set (st0 := (WriteString "" "SELECT ", (@nil value, @None error))).
  set (st1 := selectClause "" (Columns d) ", " st0).
  set (st2 := match From d with
              | Some f => selectClause " FROM " [f] "" st1
              | None => st1
              end).
  set (st3 := selectClause " " (Joins d) " " st2).
  destruct (selectClause " WHERE " (WhereParts d) " AND " st3)
    as [buf4 [args4 [e|]]] eqn:E4; [reflexivity|].
  unfold balanced, resultSql, resultArgs. cbn [fst snd].
  destruct (selectClause_ok _ _ _ _ E4) as [buf3 [args3 [t4 [E3 _]]]].
  rewrite E3 in E4.
  apply selectClause_balanced in E4; [|reflexivity|reflexivity|exact Hw].
  unfold st3 in E3.
  destruct (selectClause_ok _ _ _ _ E3) as [buf2 [args2 [t3 [E2 _]]]].
  rewrite E2 in E3.
  apply selectClause_balanced in E3; [|reflexivity|reflexivity|exact Hj].
  assert (E1 : exists buf1 args1,
             st1 = (buf1, (args1, None))
             /\ markers buf2 + List.length args1
                = markers buf1 + List.length args2).
  { unfold st2 in E2. destruct (From d) as [x|] eqn:Ex.
    - destruct (selectClause_ok _ _ _ _ E2) as [buf1 [args1 [t2 [E1 _]]]].
      rewrite E1 in E2. exists buf1, args1. split; [exact E1|].
      apply selectClause_balanced in E2; [exact E2|reflexivity|reflexivity|].
      constructor; [now apply Hf|constructor].
    - exists buf2, args2. now split. }
  destruct E1 as [buf1 [args1 [E1 B1]]].
  unfold st1, st0 in E1.
  apply selectClause_balanced in E1; [|reflexivity|reflexivity|exact Hc].
  cbn in E1. lia.
Qed.

(** A LATERAL part has as many markers as arguments, when its subquery and
    its ON condition do and the keyword and the alias hold no marker. *)
Lemma joinLateralSelectPart_ToSql_balanced
    (p : joinLateralSelectPart Fragment) :
  markers (joinType p) = 0 -> markers (alias p) = 0 ->
  balanced (ToSql (sel p)) ->
  (forall o, on p = Some o -> balanced (ToSql o)) ->
  balanced (joinLateralSelectPart_ToSql p).
Proof.
  unfold balanced, joinLateralSelectPart_ToSql, resultSql, resultArgs,
    WriteString.
  intros Hj Ha Hs Ho.
  destruct (ToSql (sel p)) as [[subSql subArgs] [e|]]; cbn [fst snd] in *;
    [reflexivity|].
  destruct (on p) as [o|].
  - specialize (Ho o eq_refl).
    destruct (ToSql o) as [[onSql onArgs] [eo|]]; cbn [fst snd] in *;
      [reflexivity|].
    rewrite !markers_app, length_app, Hj, Ha, Hs, Ho. cbn. lia.
  - cbn [fst snd]. rewrite !markers_app, Hj, Ha, Hs. cbn. lia.
Qed.

Lemma fromSelectLateralPart_ToSql_balanced
    (q : fromSelectLateralPart Fragment) :
  markers (fromAlias q) = 0 ->
  balanced (ToSql (fromSel q)) ->
  balanced (fromSelectLateralPart_ToSql q).
Proof.
  unfold balanced, fromSelectLateralPart_ToSql, resultSql, resultArgs.
  intros Ha Hs.
  destruct (ToSql (fromSel q)) as [[subSql subArgs] [e|]];
    cbn [fst snd] in *; [reflexivity|].
  rewrite !markers_app, Ha, Hs. cbn. lia.
Qed.

(** The text of a LATERAL part around the text of its subquery. *)
Lemma joinLateralSelectPart_ToSql_text (p : joinLateralSelectPart Fragment) :
  resultErr (joinLateralSelectPart_ToSql p) = None ->
  resultErr (ToSql (sel p)) = None
  /\ exists post,
       resultSql (joinLateralSelectPart_ToSql p)
       = (joinType p ++ " LATERAL (") ++ resultSql (ToSql (sel p))
         ++ ") AS " ++ alias p ++ post.
Proof.
  unfold joinLateralSelectPart_ToSql, resultErr, resultSql.
  destruct (ToSql (sel p)) as [[subSql subArgs] [e|]]; cbn [fst snd];
    [discriminate|].
  destruct (on p) as [o|].
  - destruct (ToSql o) as [[onSql onArgs] [e|]]; cbn [fst snd];
      [discriminate|].
    intros _. split; [reflexivity|]. exists (" ON " ++ onSql).
    unfold WriteString. now rewrite ?append_assoc.
  - intros _. split; [reflexivity|]. exists "".
    unfold WriteString. now rewrite ?append_assoc, ?append_nil_r.
Qed.

Lemma fromSelectLateralPart_ToSql_text (q : fromSelectLateralPart Fragment) :
  resultErr (fromSelectLateralPart_ToSql q) = None ->
  resultErr (ToSql (fromSel q)) = None
  /\ resultSql (fromSelectLateralPart_ToSql q)
     = "LATERAL (" ++ resultSql (ToSql (fromSel q)) ++ ") AS " ++ fromAlias q.
Proof.
  unfold fromSelectLateralPart_ToSql, resultErr, resultSql.
  destruct (ToSql (fromSel q)) as [[subSql subArgs] [e|]]; cbn [fst snd];
    [discriminate|].
  intros _. now split.
Qed.

(** What a forced SELECT or builder of common table expressions renders is
    its neutral rendering, whatever format it had. *)
Lemma forceQuestionPlaceholders_neutral (s : Fragment) :
  (exists v, s = SelectBuilder v)
  \/ (exists v, s = CommonTableExpressionsBuilder v) ->
  resultErr (ToSql (forceQuestionPlaceholders s)) = None ->
  ToSql (forceQuestionPlaceholders s) = nestedToSql s.
Proof.
  intros [[v ->] | [v ->]] Hok.
  - change (ToSql (forceQuestionPlaceholders (SelectBuilder v)))
      with (selectData_ToSql (SelectBuilder_PlaceholderFormat v Question))
      in *.
    change (nestedToSql (SelectBuilder v)) with (selectData_toSqlRaw v).
    unfold selectData_ToSql in *. rewrite selectData_toSqlRaw_format in *.
    cbn [selectPlaceholderFormat SelectBuilder_PlaceholderFormat] in *.
    destruct (resultErr (selectData_toSqlRaw v)) as [e|] eqn:He.
    + now rewrite (selectData_toSqlRaw_error v He).
    + now apply applyPlaceholderFormat_Question.
  - cbn in *. destruct (cteRaw v) as [[sqlStr args] [e|]];
      [discriminate|reflexivity].
Qed.

(** The single rewrite of a SELECT with an ordinal format numbers the
    markers of its neutral text from 1 on, those of [mid] after those of
    [pre] and those of [post] after those of [mid]. *)
Lemma selectData_ToSql_ordinals (d : selectData Fragment)
    (f : PlaceholderFormat) (prefix pre mid post : string) :
  selectPlaceholderFormat d = Some f -> ordinalPrefix f = Some prefix ->
  resultErr (selectData_toSqlRaw d) = None ->
  resultSql (selectData_toSqlRaw d) = pre ++ mid ++ post ->
  resultSql (selectData_ToSql d)
  = replacePositionalPlaceholders pre prefix 1
    ++ replacePositionalPlaceholders mid prefix (1 + markers pre)
    ++ replacePositionalPlaceholders post prefix
         (1 + markers pre + markers mid).
Proof.
  intros Hf Hp. unfold selectData_ToSql. rewrite Hf.
  destruct (selectData_toSqlRaw d) as [[sqlStr args] [e|]];
    unfold resultErr, resultSql; cbn [fst snd]; [discriminate|].
  intros _ ->. unfold applyPlaceholderFormat, ReplacePlaceholders.
  rewrite Hp. cbn [fst].
  now rewrite !replacePositionalPlaceholders_app.
Qed.

Lemma applyPlaceholderFormat_ok (f : option PlaceholderFormat) (r : result) :
  resultErr (applyPlaceholderFormat f r) = None -> resultErr r = None.
Proof. now destruct r as [[sqlStr args] [e|]]. Qed.

(** The text of a SELECT with an ordinal format around the subquery of one
    of its LATERAL parts, in JOIN position. *)
Lemma select_join_lateral_ordinals (d : selectData Fragment)
    (p : joinLateralSelectPart Fragment) (f : PlaceholderFormat)
    (prefix : string) :
  selectPlaceholderFormat d = Some f -> ordinalPrefix f = Some prefix ->
  In (JoinLateralSelectPart p) (Joins d) ->
  resultErr (ToSql (SelectBuilder d)) = None ->
  resultErr (ToSql (sel p)) = None
  /\ exists pre post,
       let head := pre ++ joinType p ++ " LATERAL (" in
       let child := resultSql (ToSql (sel p)) in
       let tail := ") AS " ++ alias p ++ post in
       resultSql (nestedToSql (SelectBuilder d)) = head ++ child ++ tail
       /\ resultSql (ToSql (SelectBuilder d))
          = replacePositionalPlaceholders head prefix 1
            ++ replacePositionalPlaceholders child prefix (1 + markers head)
            ++ replacePositionalPlaceholders tail prefix
                 (1 + markers head + markers child).
Proof.
  intros Hf Hp Hin Hok.
  change (ToSql (SelectBuilder d)) with (selectData_ToSql d) in *.
  change (nestedToSql (SelectBuilder d)) with (selectData_toSqlRaw d).
  apply applyPlaceholderFormat_ok in Hok.
  destruct (@selectData_toSqlRaw_part d (JoinLateralSelectPart p)
              (or_intror Hin) Hok) as [Hpart [pre [post Hraw]]].
  change (nestedToSql (JoinLateralSelectPart p))
    with (joinLateralSelectPart_ToSql p) in *.
  destruct (joinLateralSelectPart_ToSql_text p Hpart) as [Hsel [post' Ht]].
  split; [exact Hsel|]. exists pre, (post' ++ post). cbv zeta.
  assert (E : resultSql (selectData_toSqlRaw d)
              = (pre ++ joinType p ++ " LATERAL (")
                ++ resultSql (ToSql (sel p))
                ++ ") AS " ++ alias p ++ post' ++ post).
  { rewrite Hraw, Ht. now rewrite ?append_assoc. }
  split; [exact E|]. now apply selectData_ToSql_ordinals with (f := f).
Qed.

(** The same in FROM position. *)
Lemma select_from_lateral_ordinals (d : selectData Fragment)
    (q : fromSelectLateralPart Fragment) (f : PlaceholderFormat)
    (prefix : string) :
  selectPlaceholderFormat d = Some f -> ordinalPrefix f = Some prefix ->
  From d = Some (FromSelectLateralPart q) ->
  resultErr (ToSql (SelectBuilder d)) = None ->
  resultErr (ToSql (fromSel q)) = None
  /\ exists pre post,
       let head := pre ++ "LATERAL (" in
       let child := resultSql (ToSql (fromSel q)) in
       let tail := ") AS " ++ fromAlias q ++ post in
       resultSql (nestedToSql (SelectBuilder d)) = head ++ child ++ tail
       /\ resultSql (ToSql (SelectBuilder d))
          = replacePositionalPlaceholders head prefix 1
            ++ replacePositionalPlaceholders child prefix (1 + markers head)
            ++ replacePositionalPlaceholders tail prefix
                 (1 + markers head + markers child).
Proof.
  intros Hf Hp Hfrom Hok.
  change (ToSql (SelectBuilder d)) with (selectData_ToSql d) in *.
  change (nestedToSql (SelectBuilder d)) with (selectData_toSqlRaw d).
  apply applyPlaceholderFormat_ok in Hok.
  destruct (@selectData_toSqlRaw_part d (FromSelectLateralPart q)
              (or_introl Hfrom) Hok) as [Hpart [pre [post Hraw]]].
  change (nestedToSql (FromSelectLateralPart q))
    with (fromSelectLateralPart_ToSql q) in *.
  destruct (fromSelectLateralPart_ToSql_text q Hpart) as [Hsel Ht].
  split; [exact Hsel|]. exists pre, post. cbv zeta.
  assert (E : resultSql (selectData_toSqlRaw d)
              = (pre ++ "LATERAL (")
                ++ resultSql (ToSql (fromSel q))
                ++ ") AS " ++ fromAlias q ++ post).
  { rewrite Hraw, Ht. now rewrite ?append_assoc. }
  split; [exact E|]. now apply selectData_ToSql_ordinals with (f := f).
Qed.

(** What is stored for a SELECT or a builder of common table expressions
    has as many markers as arguments, when its neutral rendering does. *)
Lemma forceQuestionPlaceholders_balanced (s : Fragment) :
  (exists v, s = SelectBuilder v)
  \/ (exists v, s = CommonTableExpressionsBuilder v) ->
  balanced (nestedToSql s) ->
  balanced (ToSql (forceQuestionPlaceholders s)).
Proof.
  intros [[v ->] | [v ->]].
  - change (ToSql (forceQuestionPlaceholders (SelectBuilder v)))
      with (selectData_ToSql (SelectBuilder_PlaceholderFormat v Question)).
    change (nestedToSql (SelectBuilder v)) with (selectData_toSqlRaw v).
    unfold selectData_ToSql. rewrite selectData_toSqlRaw_format.
    cbn [selectPlaceholderFormat SelectBuilder_PlaceholderFormat].
    change (@selectData_toSqlRaw Fragment Fragment_Renderable v)
      with (selectData_toSqlRaw v).
    destruct (selectData_toSqlRaw v) as [[sqlStr args] [e|]];
      [reflexivity|trivial].
  - cbn. destruct (cteRaw v) as [[sqlStr args] [e|]]; [reflexivity|trivial].
Qed.

(** The single rewrite of a SELECT whose parts render as many neutral
    markers as arguments gives every argument its ordinal. *)
Lemma selectData_ToSql_final (d : selectData Fragment)
    (f : PlaceholderFormat) (prefix : string) :
  selectPlaceholderFormat d = Some f -> ordinalPrefix f = Some prefix ->
  resultErr (ToSql (SelectBuilder d)) = None ->
  Forall (fun x => balanced (nestedToSql x)) (Columns d) ->
  (forall x, From d = Some x -> balanced (nestedToSql x)) ->
  Forall (fun x => balanced (nestedToSql x)) (Joins d) ->
  Forall (fun x => balanced (nestedToSql x)) (WhereParts d) ->
  resultSql (ToSql (SelectBuilder d))
  = replacePositionalPlaceholders
      (resultSql (nestedToSql (SelectBuilder d))) prefix 1
  /\ resultArgs (ToSql (SelectBuilder d))
     = resultArgs (nestedToSql (SelectBuilder d))
  /\ markers (resultSql (nestedToSql (SelectBuilder d)))
     = List.length (resultArgs (ToSql (SelectBuilder d))).
Proof.
  intros Hf Hp Hok Hc Hfr Hj Hw.
  pose proof (selectData_toSqlRaw_balanced d Hc Hfr Hj Hw) as Hb.
  change (ToSql (SelectBuilder d)) with (selectData_ToSql d) in *.
  change (nestedToSql (SelectBuilder d)) with (selectData_toSqlRaw d).
  unfold selectData_ToSql in *. rewrite Hf in *.
  unfold balanced in Hb.
  destruct (selectData_toSqlRaw d) as [[sqlStr args] [e|]];
    [discriminate Hok|].
  unfold applyPlaceholderFormat, ReplacePlaceholders. rewrite Hp.
  unfold resultSql, resultArgs in *. cbn [fst snd] in *. now repeat split.
Qed.

(** C2, as the code has it: a subquery that is a SELECT builder or a builder
    of common table expressions is set to the question-mark format before a
    LATERAL attachment stores it; a fragment of any other type is stored as
    it is, also when its type has a placeholder format, as a union builder
    has.  So a stored SELECT renders its neutral text whatever format it
    had, a stored builder of common table expressions likewise; and a parent
    with an ordinal format that renders, in JOIN or in FROM position, writes
    the text of the stored subquery between LATERAL ( and ) AS and numbers
    the neutral markers of the assembled text in one pass and one contiguous
    sequence: those of the subquery after those of the text before it, those
    of the text after it after those of the subquery.  What is not a
    neutral marker, such as an ordinal that a union builder nested in the
    subquery wrote, is left as it is; when every part of the parent renders
    as many neutral markers as arguments, as a LATERAL part does whose
    stored subquery does, the ordinals are final: as many as arguments. *)
Theorem lateral_force_placeholders :
  (forall v,
      forceQuestionPlaceholders (SelectBuilder v)
      = SelectBuilder (SelectBuilder_PlaceholderFormat v Question))
  /\ (forall v,
         forceQuestionPlaceholders (CommonTableExpressionsBuilder v)
         = CommonTableExpressionsBuilder
             (CommonTableExpressionsBuilder_PlaceholderFormat v Question))
  /\ (forall s,
         (forall v, s <> SelectBuilder v) ->
         (forall v, s <> CommonTableExpressionsBuilder v) ->
         forceQuestionPlaceholders s = s)
  /\ (forall b s a,
         From (SelectBuilder_FromSelectLateral b s a)
         = Some (FromSelectLateralPart
                   {| fromSel := forceQuestionPlaceholders s;
                      fromAlias := a |}))
  /\ (forall b s a o,
         Joins (SelectBuilder_JoinLateralSelect b s a o)
         = (Joins b ++
            [JoinLateralSelectPart
               {| joinType := "JOIN"; sel := forceQuestionPlaceholders s;
                  alias := a; on := o |}])%list
         /\ Joins (SelectBuilder_LeftJoinLateralSelect b s a o)
            = (Joins b ++
               [JoinLateralSelectPart
                  {| joinType := "LEFT JOIN";
                     sel := forceQuestionPlaceholders s;
                     alias := a; on := o |}])%list
         /\ Joins (SelectBuilder_CrossJoinLateralSelect b s a)
            = (Joins b ++
               [JoinLateralSelectPart
                  {| joinType := "CROSS JOIN";
                     sel := forceQuestionPlaceholders s;
                     alias := a; on := None |}])%list)
  /\ (forall v,
         ToSql (forceQuestionPlaceholders (SelectBuilder v))
         = nestedToSql (SelectBuilder v))
  /\ (forall v,
         resultErr (cteRaw v) = None ->
         ToSql (forceQuestionPlaceholders (CommonTableExpressionsBuilder v))
         = nestedToSql (CommonTableExpressionsBuilder v))
  /\ (forall a b prefix n,
         replacePositionalPlaceholders (a ++ b) prefix n
         = replacePositionalPlaceholders a prefix n
           ++ replacePositionalPlaceholders b prefix (n + markers a))
  /\ (forall d p s f prefix,
         selectPlaceholderFormat d = Some f ->
         ordinalPrefix f = Some prefix ->
         In (JoinLateralSelectPart p) (Joins d) ->
         sel p = forceQuestionPlaceholders s ->
         resultErr (ToSql (SelectBuilder d)) = None ->
         exists pre post,
           let head := pre ++ joinType p ++ " LATERAL (" in
           let child := resultSql (ToSql (forceQuestionPlaceholders s)) in
           let tail := ") AS " ++ alias p ++ post in
           resultSql (nestedToSql (SelectBuilder d)) = head ++ child ++ tail
           /\ resultSql (ToSql (SelectBuilder d))
              = replacePositionalPlaceholders head prefix 1
                ++ replacePositionalPlaceholders child prefix
                     (1 + markers head)
                ++ replacePositionalPlaceholders tail prefix
                     (1 + markers head + markers child)
           /\ ((exists v, s = SelectBuilder v)
               \/ (exists v, s = CommonTableExpressionsBuilder v) ->
               child = resultSql (nestedToSql s)))
  /\ (forall d q s f prefix,
         selectPlaceholderFormat d = Some f ->
         ordinalPrefix f = Some prefix ->
         From d = Some (FromSelectLateralPart q) ->
         fromSel q = forceQuestionPlaceholders s ->
         resultErr (ToSql (SelectBuilder d)) = None ->
         exists pre post,
           let head := pre ++ "LATERAL (" in
           let child := resultSql (ToSql (forceQuestionPlaceholders s)) in
           let tail := ") AS " ++ fromAlias q ++ post in
           resultSql (nestedToSql (SelectBuilder d)) = head ++ child ++ tail
           /\ resultSql (ToSql (SelectBuilder d))
              = replacePositionalPlaceholders head prefix 1
                ++ replacePositionalPlaceholders child prefix
                     (1 + markers head)
                ++ replacePositionalPlaceholders tail prefix
                     (1 + markers head + markers child)
           /\ ((exists v, s = SelectBuilder v)
               \/ (exists v, s = CommonTableExpressionsBuilder v) ->
               child = resultSql (nestedToSql s)))
  /\ (forall d f prefix,
         selectPlaceholderFormat d = Some f ->
         ordinalPrefix f = Some prefix ->
         resultErr (ToSql (SelectBuilder d)) = None ->
         Forall (fun x => balanced (nestedToSql x)) (Columns d) ->
         (forall x, From d = Some x -> balanced (nestedToSql x)) ->
         Forall (fun x => balanced (nestedToSql x)) (Joins d) ->
         Forall (fun x => balanced (nestedToSql x)) (WhereParts d) ->
         resultSql (ToSql (SelectBuilder d))
         = replacePositionalPlaceholders
             (resultSql (nestedToSql (SelectBuilder d))) prefix 1
         /\ resultArgs (ToSql (SelectBuilder d))
            = resultArgs (nestedToSql (SelectBuilder d))
         /\ markers (resultSql (nestedToSql (SelectBuilder d)))
            = List.length (resultArgs (ToSql (SelectBuilder d))))
  /\ (forall s,
         (exists v, s = SelectBuilder v)
         \/ (exists v, s = CommonTableExpressionsBuilder v) ->
         balanced (nestedToSql s) ->
         (forall p,
             sel p = forceQuestionPlaceholders s ->
             markers (joinType p) = 0 -> markers (alias p) = 0 ->
             (forall o, on p = Some o -> balanced (ToSql o)) ->
             balanced (nestedToSql (JoinLateralSelectPart p)))
         /\ (forall q,
                fromSel q = forceQuestionPlaceholders s ->
                markers (fromAlias q) = 0 ->
                balanced (nestedToSql (FromSelectLateralPart q)))).
Proof.
  split; [reflexivity|]. split; [reflexivity|]. split.
  { intros s Hs Hc. destruct s; try reflexivity.
    - now destruct (Hs d).
    - now destruct (Hc d). }
  split; [reflexivity|]. split; [now repeat split|]. split.
  { intros v. destruct (resultErr (selectData_toSqlRaw v)) as [e|] eqn:He.
    - change (ToSql (forceQuestionPlaceholders (SelectBuilder v)))
        with (selectData_ToSql (SelectBuilder_PlaceholderFormat v Question)).
      change (nestedToSql (SelectBuilder v)) with (selectData_toSqlRaw v).
      unfold selectData_ToSql. rewrite selectData_toSqlRaw_format.
      now rewrite (selectData_toSqlRaw_error v He).
    - apply forceQuestionPlaceholders_neutral; [left; now exists v|].
      change (ToSql (forceQuestionPlaceholders (SelectBuilder v)))
        with (selectData_ToSql (SelectBuilder_PlaceholderFormat v Question)).
      unfold selectData_ToSql. rewrite selectData_toSqlRaw_format.
      cbn [selectPlaceholderFormat SelectBuilder_PlaceholderFormat].
      change (@selectData_toSqlRaw Fragment Fragment_Renderable v)
        with (selectData_toSqlRaw v).
      now rewrite applyPlaceholderFormat_Question. }
  split.
  { intros v Hv. cbn. now apply applyPlaceholderFormat_Question. }
  split; [apply replacePositionalPlaceholders_app|]. split.
  - intros d p s f prefix Hf Hp Hin Hs Hok.
    destruct (@select_join_lateral_ordinals d p f prefix Hf Hp Hin Hok)
      as [Hsel [pre [post [E1 E2]]]].
    rewrite Hs in Hsel, E1, E2. exists pre, post. cbv zeta.
    split; [exact E1|]. split; [exact E2|].
    intros Hty. now rewrite (forceQuestionPlaceholders_neutral Hty Hsel).
  - split; [|split].
    + intros d q s f prefix Hf Hp Hfrom Hs Hok.
      destruct (@select_from_lateral_ordinals d q f prefix Hf Hp Hfrom Hok)
        as [Hsel [pre [post [E1 E2]]]].
      rewrite Hs in Hsel, E1, E2. exists pre, post. cbv zeta.
      split; [exact E1|]. split; [exact E2|].
      intros Hty. now rewrite (forceQuestionPlaceholders_neutral Hty Hsel).
    + intros d f prefix. apply selectData_ToSql_final.
    + intros s Hty Hb.
      pose proof (forceQuestionPlaceholders_balanced Hty Hb) as Hforced.
      split.
      * intros p Hs Hj Ha Ho.
        change (nestedToSql (JoinLateralSelectPart p))
          with (joinLateralSelectPart_ToSql p).
        apply joinLateralSelectPart_ToSql_balanced; try assumption.
        now rewrite Hs.
      * intros q Hs Ha.
        change (nestedToSql (FromSelectLateralPart q))
          with (fromSelectLateralPart_ToSql q).
        apply fromSelectLateralPart_ToSql_balanced; [assumption|].
        now rewrite Hs.
Qed.

(** The statement of TestSelectBuilderJoinLateralSelectNestedDollarPlaceholders:
    the subquery, a SELECT that had the dollar format, is written in its
    neutral text and its marker numbered by the parent. *)
Lemma lateral_force_placeholders_witness :
  (exists pre post,
      resultSql
        (nestedToSql (SelectBuilder (outerJoin (SelectBuilder innerDollar))))
      = (pre ++ "JOIN" ++ " LATERAL (") ++ "SELECT c FROM t WHERE c > ?"
        ++ ") AS " ++ "subq" ++ post
      /\ resultSql
           (ToSql (SelectBuilder (outerJoin (SelectBuilder innerDollar))))
         = replacePositionalPlaceholders (pre ++ "JOIN" ++ " LATERAL (") "$" 1
           ++ replacePositionalPlaceholders "SELECT c FROM t WHERE c > ?" "$"
                (1 + markers (pre ++ "JOIN" ++ " LATERAL ("))
           ++ replacePositionalPlaceholders (") AS " ++ "subq" ++ post) "$"
                (1 + markers (pre ++ "JOIN" ++ " LATERAL (")
                 + markers "SELECT c FROM t WHERE c > ?"))
  /\ (exists pre post,
         resultSql (ToSql (SelectBuilder outerFrom))
         = replacePositionalPlaceholders (pre ++ "LATERAL (") "$" 1
           ++ replacePositionalPlaceholders "SELECT c FROM t WHERE c > ?" "$"
                (1 + markers (pre ++ "LATERAL ("))
           ++ replacePositionalPlaceholders (") AS " ++ "subq" ++ post) "$"
                (1 + markers (pre ++ "LATERAL (")
                 + markers "SELECT c FROM t WHERE c > ?"))
  /\ (resultSql (ToSql (SelectBuilder (outerJoin (SelectBuilder innerDollar))))
      = replacePositionalPlaceholders
          "SELECT u.id, subq.c FROM users u JOIN LATERAL (SELECT c FROM t WHERE c > ?) AS subq ON TRUE WHERE subq.c < ?"
          "$" 1
      /\ markers
           "SELECT u.id, subq.c FROM users u JOIN LATERAL (SELECT c FROM t WHERE c > ?) AS subq ON TRUE WHERE subq.c < ?"
         = List.length [vint 1; vint 2]).
Proof.
  pose proof lateral_force_placeholders
    as [_ [_ [_ [_ [_ [_ [_ [_ [Hjoin [Hfrom [Hfinal _]]]]]]]]]]].
  split; [|split].
  - destruct (Hjoin (outerJoin (SelectBuilder innerDollar))
                {| joinType := "JOIN";
                   sel := forceQuestionPlaceholders (SelectBuilder innerDollar);
                   alias := "subq"; on := Some (Expr "TRUE" []) |}
                (SelectBuilder innerDollar) Dollar "$"
                eq_refl eq_refl (or_introl eq_refl) eq_refl eq_refl)
      as [pre [post [E1 [E2 _]]]].
    exists pre, post. split; [exact E1|exact E2].
  - destruct (Hfrom outerFrom
                {| fromSel := forceQuestionPlaceholders (SelectBuilder innerDollar);
                   fromAlias := "subq" |}
                (SelectBuilder innerDollar) Dollar "$"
                eq_refl eq_refl eq_refl eq_refl eq_refl)
      as [pre [post [_ [E2 _]]]].
    exists pre, post. exact E2.
  - destruct (Hfinal (outerJoin (SelectBuilder innerDollar)) Dollar "$"
                eq_refl eq_refl eq_refl) as [E1 [_ E3]].
    + repeat constructor.
    + intros x [= <-]. reflexivity.
    + repeat constructor.
    + repeat constructor.
    + split; [exact E1|exact E3].
Defined.

(** The test with nested dollar placeholders: the subquery had the dollar
    format, and the parent numbers the two markers 1 and 2. *)
Example join_lateral_nested_dollar :
  ToSql (SelectBuilder (outerJoin (SelectBuilder innerDollar)))
  = ("SELECT u.id, subq.c FROM users u JOIN LATERAL (SELECT c FROM t WHERE c > $1) AS subq ON TRUE WHERE subq.c < $2",
     [vint 1; vint 2], None).
Proof. reflexivity. Qed.

(** C2 as stated fails on a union builder, whose type has a placeholder
    format: the union is stored with its dollar format, renders its own
    marker as $1, and the rewrite of the parent numbers the marker that is
    left from 1 again.  The same shows one level down: a SELECT subquery is
    forced, the union that it joins is not, and the text has $1 twice for
    three arguments. *)
Lemma lateral_union_not_forced_counterexample :
  unionPlaceholderFormat unionDollar = Some Dollar
  /\ forceQuestionPlaceholders (UnionBuilder unionDollar)
     = UnionBuilder unionDollar
  /\ Joins (outerJoin (UnionBuilder unionDollar))
     = [JoinLateralSelectPart
          {| joinType := "JOIN"; sel := UnionBuilder unionDollar;
             alias := "subq"; on := Some (Expr "TRUE" []) |}]
  /\ ToSql (UnionBuilder unionDollar)
     = ("(SELECT c FROM t WHERE c > $1)", [vint 1], None)
  /\ ToSql (SelectBuilder (outerJoin (UnionBuilder unionDollar)))
     = ("SELECT u.id, subq.c FROM users u JOIN LATERAL ((SELECT c FROM t WHERE c > $1)) AS subq ON TRUE WHERE subq.c < $1",
        [vint 1; vint 2], None)
  /\ ToSql (forceQuestionPlaceholders (SelectBuilder innerWithUnion))
     = ("SELECT c FROM t JOIN LATERAL ((SELECT c FROM t WHERE c > $1)) AS u ON TRUE WHERE c > ?",
        [vint 1; vint 3], None)
  /\ ToSql (SelectBuilder (outerJoin (SelectBuilder innerWithUnion)))
     = ("SELECT u.id, subq.c FROM users u JOIN LATERAL (SELECT c FROM t JOIN LATERAL ((SELECT c FROM t WHERE c > $1)) AS u ON TRUE WHERE c > $1) AS subq ON TRUE WHERE subq.c < $2",
        [vint 1; vint 3; vint 2], None).
Proof. repeat split. Qed.

(** ** Compaction *)

(** Splitting the compacted text gives the fields of the text again, and
    compacting twice is compacting once. *)
Lemma compactSQL_idempotent (s : string) :
  compactSQL (compactSQL s) = compactSQL s.
Proof. unfold compactSQL. now rewrite Fields_compactSQL. Qed.

Section UnionCompact.
Context {Sqlizer : Type} `{Renderable Sqlizer}.

Lemma unionData_toSql_withCompactOutput (d : unionData Sqlizer) :
  unionData_toSql (withCompactOutput d true)
  = compactResult (unionData_toSql (withCompactOutput d false)).
Proof.
  unfold unionData_toSql. cbn [withCompactOutput Parts Suffixes].
  destruct (Nat.eqb (List.length (Parts d)) 0); [reflexivity|].
  destruct (unionParts (Parts d) 0 "" []) as [[buf args]|e]; [|reflexivity].
  change (unionClauses (withCompactOutput d true) buf)
    with (unionClauses (withCompactOutput d false) buf).
  set (buf' := unionClauses (withCompactOutput d false) buf).
  destruct (Nat.ltb 0 (List.length (Suffixes d))).
  - destruct (appendToSql (Suffixes d) " " args) as [written [args' [e|]]];
      [reflexivity|].
    now rewrite !unionFinish_post.
  - now rewrite !unionFinish_post.
Qed.

(** C8, as the code has it: with compaction enabled, the text returned is
    the compaction of the text that the same builder returns without it, so
    the pass runs after the placeholders are rewritten; the compaction
    collapses every run of white space between two words into one space and
    removes the white space before the first word and after the last one;
    it keeps the words, and so all that is not white space, in their order;
    and it is idempotent. *)
Theorem union_compaction :
  (forall d : unionData Sqlizer,
      UnionBuilder_Compact d = withCompactOutput d true
      /\ unionData_toSql (withCompactOutput d true)
         = compactResult (unionData_toSql (withCompactOutput d false)))
  /\ (forall s, compactSQL s = collapseRuns (TrimSpace s))
  /\ (forall s, Fields (compactSQL s) = Fields s)
  /\ (forall s,
         bytesOf (filter (fun x => negb (isSpaceRune x)) (runes (compactSQL s)))
         = bytesOf (filter (fun x => negb (isSpaceRune x)) (runes s)))
  /\ (forall s, compactSQL (compactSQL s) = compactSQL s)
  /\ (forall r : result,
         compactResult (compactResult r) = compactResult r).
Proof.
  split; [|split; [|split; [|split; [|split]]]].
  - intros d. split; [reflexivity|apply unionData_toSql_withCompactOutput].
  - apply compactSQL_collapse.
  - intros s. apply Fields_compactSQL.
  - intros s.
    pose proof (fieldsLoop_content (runes (compactSQL s)) None) as H1.
    pose proof (fieldsLoop_content (runes s) None) as H2.
    cbn [startBytes append] in H1, H2. rewrite <- H1, <- H2.
    change (fieldsLoop (runes ?t) None) with (Fields t).
    unfold compactSQL at 1. now rewrite Fields_compactSQL.
  - apply compactSQL_idempotent.
  - intros [[sqlStr args] [e|]]; unfold compactResult, resultErr, resultSql,
      resultArgs; cbn [fst snd]; [reflexivity|].
    now rewrite compactSQL_idempotent.
Qed.

End UnionCompact.

Lemma union_compaction_witness :
  unionData_toSql (withCompactOutput trailingNewlineUnion true)
  = compactResult (unionData_toSql (withCompactOutput trailingNewlineUnion false)).
Proof.
  exact (proj2 (proj1 (@union_compaction Fragment _) trailingNewlineUnion)).
Defined.

(** C8 as stated fails on a text that ends with white space: the run at the
    end is removed, not collapsed into a space. *)
Lemma compaction_trailing_space_counterexample :
  compactSQL "a " = "a"
  /\ collapseRuns "a " = "a "
  /\ resultSql (unionData_toSql trailingNewlineUnion)
     = "(SELECT 1) /* note */" ++ String (ascii_of_nat 10) ""
  /\ resultSql (unionData_toSql (UnionBuilder_Compact trailingNewlineUnion))
     = "(SELECT 1) /* note */"
  /\ collapseRuns (resultSql (unionData_toSql trailingNewlineUnion))
     = "(SELECT 1) /* note */ "
  /\ resultSql (unionData_toSql (UnionBuilder_Compact trailingNewlineUnion))
     <> collapseRuns (resultSql (unionData_toSql trailingNewlineUnion)).
Proof. repeat split. discriminate. Qed.

(** ** LIMIT and OFFSET of a union *)

Lemma replacePositionalPlaceholders_plain (w prefix : string) (n : nat) :
  markers w = 0 -> replacePositionalPlaceholders w prefix n = w.
Proof.
  induction w as [|c w IH]; [reflexivity|]. cbn [markers].
  destruct (isMarker c) eqn:Hc; [discriminate|]. intros Hw.
  cbn [replacePositionalPlaceholders]. now rewrite Hc, IH.
Qed.

Lemma markers_clause (K D : string) :
  plainWord K -> plainWord D -> markers (" " ++ K ++ " " ++ D) = 0.
Proof.
  intros [_ HK] [_ HD].
  change (" " ++ K ++ " " ++ D) with (String " " (K ++ String " " D)).
  cbn [markers]. rewrite markers_app. cbn [markers].
  now rewrite (plainText_markers _ HK), (plainText_markers _ HD).
Qed.

Section UnionLimit.
Context {Sqlizer : Type} `{Renderable Sqlizer}.

Lemma unionClauses_split (d : unionData Sqlizer) (buf : Buffer) :
  unionClauses d buf
  = buf ++ orderByClause d ++ limitClause d ++ offsetClause d.
Proof.
  unfold unionClauses, orderByClause, limitClause, offsetClause.
  destruct (Nat.ltb 0 (List.length (OrderBy d))), (LimitSet d), (OffsetSet d);
    unfold WriteString; now rewrite ?append_assoc, ?append_nil_r.
Qed.

Lemma unionParts_inl (parts : list (unionPart Sqlizer)) :
  forall i buf args r,
    unionParts parts i buf args = inl r -> Forall segmentOk parts.
Proof.
  induction parts as [|p rest IH]; intros i buf args r Hr; [constructor|].
  cbn [unionParts] in Hr.
  destruct (ToSql (query p)) as [[subSQL subArgs] [e|]] eqn:Ep; [discriminate|].
  constructor; [unfold segmentOk; now rewrite Ep|]. eapply IH. exact Hr.
Qed.

(** The text of a render that succeeds: the body, which starts with a
    parenthesis, the clauses and what the suffixes add, through the
    placeholder format and the compaction. *)
Lemma unionData_toSql_text (d : unionData Sqlizer) :
  resultErr (unionData_toSql d) = None ->
  exists A sfx,
    resultSql (unionData_toSql d)
    = unionPost d
        (String "(" A ++ orderByClause d ++ limitClause d ++ offsetClause d
           ++ sfx).
Proof.
  unfold unionData_toSql.
  destruct (Parts d) as [|p rest] eqn:EP.
  { unfold resultErr; cbn [snd List.length Nat.eqb]; intros E. discriminate E. }
  cbn [List.length Nat.eqb].
  destruct (unionParts (p :: rest) 0 "" []) as [[buf args]|e] eqn:EU.
  2:{ unfold resultErr; cbn [snd List.length Nat.eqb]; intros E. discriminate E. }
  pose proof (unionParts_inl _ _ _ _ EU) as Hok.
  rewrite (unionParts_body Hok) in EU. injection EU as <- <-.
  rewrite unionClauses_split. cbn [unionBody].
  set (A := segmentSql p ++ ")" ++ unionTail rest).
  destruct (Nat.ltb 0 (List.length (Suffixes d))).
  - destruct (appendToSql (Suffixes d) " " _) as [written [args' [e|]]].
    { unfold resultErr; cbn [snd]; intros E. discriminate E. }
    intros _. exists A, (" " ++ written).
    rewrite unionFinish_post. unfold resultSql, WriteString, WriteByte.
    cbn [fst]. f_equal. subst A. cbn [append]. now rewrite !append_assoc.
  - intros _. exists A, "".
    rewrite unionFinish_post. unfold resultSql. cbn [fst]. f_equal.
    subst A. cbn [append]. now rewrite !append_assoc, !append_nil_r.
Qed.

(** A clause made of a keyword and a number is found in the text after the
    placeholder format and the compaction. *)
Lemma unionPost_keeps_clause (d : unionData Sqlizer) (A K D B : string) :
  plainWord K -> plainWord D ->
  Contains (unionPost d (String "(" A ++ (" " ++ K ++ " " ++ D) ++ B))
           (" " ++ K ++ " " ++ D).
Proof.
  intros HK HD.
  assert (Hc : forall A' B',
             Contains
               (if CompactOutput d
                then compactSQL (String "(" A' ++ (" " ++ K ++ " " ++ D) ++ B')
                else String "(" A' ++ (" " ++ K ++ " " ++ D) ++ B')
               (" " ++ K ++ " " ++ D)).
  { intros A' B'. destruct (CompactOutput d).
    - rewrite append_assoc.
      change ((" " ++ K ++ " " ++ D) ++ B') with (" " ++ (K ++ " " ++ D) ++ B').
      rewrite !append_assoc.
      exact (@compactSQL_keeps_clause "(" A' K D B' eq_refl HK HD).
    - apply Contains_refl_mid. }
  unfold unionPost.
  destruct (unionPlaceholderFormat d) as [f|]; [|apply Hc].
  unfold ReplacePlaceholders. destruct (ordinalPrefix f) as [prefix|];
    cbn [fst]; [|apply Hc].
  pose proof (markers_clause HK HD) as HW.
  set (W := " " ++ K ++ " " ++ D) in *.
  change (String "(" A ++ W ++ B) with (String "(" "" ++ A ++ W ++ B).
  rewrite !replacePositionalPlaceholders_app.
  rewrite (@replacePositionalPlaceholders_plain W prefix _ HW).
  change (replacePositionalPlaceholders "(" prefix 1) with "(".
  apply (Hc (replacePositionalPlaceholders A prefix 1)).
Qed.

Lemma applyCalls_LimitSet (calls : list unionCall) :
  existsb isCallLimit calls = false ->
  forall b : unionData Sqlizer,
    LimitSet (applyCalls b calls) = LimitSet b
    /\ Limit (applyCalls b calls) = Limit b.
Proof.
  unfold applyCalls.
  induction calls as [|c calls IH]; intros Hc b; [now split|].
  cbn [existsb] in Hc. apply orb_false_iff in Hc. destruct Hc as [Hc Hcs].
  cbn [fold_left]. destruct (IH Hcs (applyCall b c)) as [-> ->].
  destruct c; try discriminate; now split.
Qed.

Lemma applyCalls_OffsetSet (calls : list unionCall) :
  existsb isCallOffset calls = false ->
  forall b : unionData Sqlizer,
    OffsetSet (applyCalls b calls) = OffsetSet b
    /\ Offset (applyCalls b calls) = Offset b.
Proof.
  unfold applyCalls.
  induction calls as [|c calls IH]; intros Hc b; [now split|].
  cbn [existsb] in Hc. apply orb_false_iff in Hc. destruct Hc as [Hc Hcs].
  cbn [fold_left]. destruct (IH Hcs (applyCall b c)) as [-> ->].
  destruct c; try discriminate; now split.
Qed.

Lemma unionOf_flags (o : unionOp) (parts : list Sqlizer) :
  forall i (u : unionData Sqlizer),
    LimitSet (unionOf o parts i u) = LimitSet u
    /\ OffsetSet (unionOf o parts i u) = OffsetSet u.
Proof.
  induction parts as [|p rest IH]; intros i u; [now split|].
  cbn [unionOf]. destruct (IH (S i)
    (if Nat.eqb i 0 then appendPart u {| op := ""; query := p |}
     else appendPart u {| op := o; query := p |})) as [-> ->].
  now destruct (Nat.eqb i 0).
Qed.

End UnionLimit.

Section UnionLimitClaim.
Context {Sqlizer : Type} `{Renderable Sqlizer}.

(** C9: LIMIT and OFFSET of a union are kept in two fields each, a flag and
    a number, and setting one leaves the other as it is; once [Limit(n)]
    was called, for any [n], zero too, a render that succeeds returns a
    text that holds " LIMIT n", and likewise " OFFSET n" after
    [Offset(n)]; a builder on which [Limit] was never called has the flag
    unset and writes no LIMIT clause, and likewise for [Offset]; so zero is
    a value, told apart from unset. *)
Theorem union_limit_offset :
  (forall (b : unionData Sqlizer) n,
      LimitSet (UnionBuilder_Limit b n) = true
      /\ Limit (UnionBuilder_Limit b n) = n
      /\ OffsetSet (UnionBuilder_Limit b n) = OffsetSet b
      /\ Offset (UnionBuilder_Limit b n) = Offset b
      /\ OffsetSet (UnionBuilder_Offset b n) = true
      /\ Offset (UnionBuilder_Offset b n) = n
      /\ LimitSet (UnionBuilder_Offset b n) = LimitSet b
      /\ Limit (UnionBuilder_Offset b n) = Limit b)
  /\ (forall (b : unionData Sqlizer) n calls,
         existsb isCallLimit calls = false ->
         let d := applyCalls (UnionBuilder_Limit b n) calls in
         resultErr (unionData_toSql d) = None ->
         Contains (resultSql (unionData_toSql d)) (" LIMIT " ++ utoa n))
  /\ (forall (b : unionData Sqlizer) n calls,
         existsb isCallOffset calls = false ->
         let d := applyCalls (UnionBuilder_Offset b n) calls in
         resultErr (unionData_toSql d) = None ->
         Contains (resultSql (unionData_toSql d)) (" OFFSET " ++ utoa n))
  /\ utoa 0 = "0"
  /\ (forall (parts : list Sqlizer) calls b0,
         b0 = Union parts \/ b0 = UnionAll parts ->
         existsb isCallLimit calls = false ->
         let d := applyCalls b0 calls in
         LimitSet d = false
         /\ forall buf,
              unionClauses d buf = buf ++ orderByClause d ++ offsetClause d)
  /\ (forall (parts : list Sqlizer) calls b0,
         b0 = Union parts \/ b0 = UnionAll parts ->
         existsb isCallOffset calls = false ->
         let d := applyCalls b0 calls in
         OffsetSet d = false
         /\ forall buf,
              unionClauses d buf = buf ++ orderByClause d ++ limitClause d).
Proof.
  split; [|split; [|split; [|split; [|split]]]].
  - intros b n. repeat split.
  - intros b n calls Hc d Hok.
    destruct (applyCalls_LimitSet calls Hc (UnionBuilder_Limit b n))
      as [Hs Hl]. fold d in Hs, Hl. cbn in Hs, Hl.
    destruct (unionData_toSql_text d Hok) as [A [sfx ->]].
    unfold limitClause. rewrite Hs, Hl.
    replace (String "(" A ++ orderByClause d ++ (" LIMIT " ++ utoa n)
               ++ offsetClause d ++ sfx)
      with (String "(" (A ++ orderByClause d)
              ++ (" " ++ "LIMIT" ++ " " ++ utoa n) ++ offsetClause d ++ sfx)
      by (cbn [append]; now rewrite !append_assoc).
    apply unionPost_keeps_clause; [now split|apply utoa_plainWord].
  - intros b n calls Hc d Hok.
    destruct (applyCalls_OffsetSet calls Hc (UnionBuilder_Offset b n))
      as [Hs Hl]. fold d in Hs, Hl. cbn in Hs, Hl.
    destruct (unionData_toSql_text d Hok) as [A [sfx ->]].
    unfold offsetClause. rewrite Hs, Hl.
    replace (String "(" A ++ orderByClause d ++ limitClause d
               ++ (" OFFSET " ++ utoa n) ++ sfx)
      with (String "(" (A ++ orderByClause d ++ limitClause d)
              ++ (" " ++ "OFFSET" ++ " " ++ utoa n) ++ sfx)
      by (cbn [append]; now rewrite !append_assoc).
    apply unionPost_keeps_clause; [now split|apply utoa_plainWord].
  - reflexivity.
  - intros parts calls b0 Hb Hc d.
    destruct (applyCalls_LimitSet calls Hc b0) as [Hs _]. fold d in Hs.
    assert (H0 : LimitSet b0 = false).
    { destruct Hb as [-> | ->]; unfold Union, UnionAll;
        now rewrite (proj1 (unionOf_flags _ parts 0 emptyUnion)). }
    rewrite H0 in Hs. split; [exact Hs|]. intros buf.
    rewrite unionClauses_split. unfold limitClause. now rewrite Hs.
  - intros parts calls b0 Hb Hc d.
    destruct (applyCalls_OffsetSet calls Hc b0) as [Hs _]. fold d in Hs.
    assert (H0 : OffsetSet b0 = false).
    { destruct Hb as [-> | ->]; unfold Union, UnionAll;
        now rewrite (proj2 (unionOf_flags _ parts 0 emptyUnion)). }
    rewrite H0 in Hs. split; [exact Hs|]. intros buf.
    rewrite unionClauses_split. unfold offsetClause.
    now rewrite Hs, append_nil_r.
Qed.

End UnionLimitClaim.

Lemma union_limit_offset_witness :
  Contains
    (resultSql
       (unionData_toSql
          (applyCalls (UnionBuilder_Limit (Union [selectA; selectB]) 0)
             [CallOffset 2; CallPlaceholderFormat Dollar; CallCompact])))
    (" LIMIT " ++ utoa 0).
Proof.
  refine (proj1 (proj2 (@union_limit_offset Fragment _))
            (Union [selectA; selectB]) 0%N
            [CallOffset 2; CallPlaceholderFormat Dollar; CallCompact] _ _);
    reflexivity.
Defined.

(** ** The tests of the repository, run on the model *)

Example TestUnion_DistinctBasic :
  ToSql (UnionBuilder sampleUnion)
  = ("(SELECT id FROM a WHERE x > $1) UNION (SELECT id FROM b WHERE y < $2) ORDER BY id LIMIT 100 OFFSET 2",
     [vint 10; vint 5], None).
Proof. reflexivity. Qed.

Example TestUnion_AppendChainMix :
  ToSql (UnionBuilder mixedUnion)
  = ("(SELECT id FROM a WHERE x = $1) UNION ALL (SELECT id FROM b WHERE y = $2) UNION (SELECT id FROM c WHERE z = $3)",
     [vstring "A"; vstring "B"; vstring "C"], None).
Proof. reflexivity. Qed.

Example TestUnion_CompactCollapsesWhitespace :
  ToSql (UnionBuilder compactUnion)
  = ("(SELECT id FROM a) UNION (SELECT id FROM b) /* line1 */ /* line2 */",
     [], None).
Proof. reflexivity. Qed.

Example TestUnion_EmptyError :
  resultErr (ToSql (UnionBuilder (Union []))) = Some errUnionEmpty.
Proof. reflexivity. Qed.

Example TestSelectBuilderFromSelectLateralNestedDollarPlaceholders :
  ToSql (SelectBuilder outerFrom)
  = ("SELECT c FROM LATERAL (SELECT c FROM t WHERE c > $1) AS subq WHERE c < $2",
     [vint 1; vint 2], None).
Proof. reflexivity. Qed.

Example TestSelectBuilderRawLeftAndCrossJoinLateral :
  ToSql (SelectBuilder rawLeftAndCross)
  = ("SELECT u.id, gs.n FROM users u LEFT JOIN LATERAL (generate_series(1,3)) AS gs(n) ON TRUE CROSS JOIN LATERAL (generate_series(4,6)) AS gs2(n)",
     [], None).
Proof. reflexivity. Qed.

(** * Further properties of the renderers *)

(** ** The union builder *)

Section UnionMore.
Context {Sqlizer : Type} `{Renderable Sqlizer}.

(** X1: a union never returns a text or arguments together with an error:
    whatever fails (no segment, a segment, a suffix, the placeholder
    format), the text is empty and there is no argument. *)
Theorem union_error_no_output (d : unionData Sqlizer) (e : error) :
  resultErr (unionData_toSql d) = Some e ->
  unionData_toSql d = ("", [], Some e).
Proof.
  unfold unionData_toSql.
  destruct (Nat.eqb (List.length (Parts d)) 0);
    [unfold resultErr; cbn [snd]; now intros [= ->]|].
  destruct (unionParts (Parts d) 0 "" []) as [[buf args]|e'];
    [|unfold resultErr; cbn [snd]; now intros [= ->]].
  destruct (Nat.ltb 0 (List.length (Suffixes d))).
  - destruct (appendToSql (Suffixes d) " " args) as [written [args' [e'|]]].
    + unfold resultErr; cbn [snd]; now intros [= ->].
    + rewrite unionFinish_post. unfold resultErr; cbn [snd]. discriminate.
  - rewrite unionFinish_post. unfold resultErr; cbn [snd]. discriminate.
Qed.

Lemma unionOf_fold (o : unionOp) (parts : list Sqlizer) :
  forall i (u : unionData Sqlizer),
    unionOf o parts (S i) u
    = fold_left (fun u p => appendPart u {| op := o; query := p |}) parts u.
Proof.
  induction parts as [|p rest IH]; intros i u; [reflexivity|].
  cbn [unionOf fold_left Nat.eqb]. apply IH.
Qed.

Lemma unionOf_snoc (o : unionOp) (p : Sqlizer) (rest : list Sqlizer) q :
  unionOf o ((p :: rest) ++ [q]) 0 emptyUnion
  = appendPart (unionOf o (p :: rest) 0 emptyUnion) {| op := o; query := q |}.
Proof.
  cbn [app unionOf Nat.eqb]. rewrite !unionOf_fold.
  now rewrite fold_left_app.
Qed.

Lemma unionData_toSql_first_op (o o' : unionOp) (q : Sqlizer) :
  unionData_toSql (appendPart emptyUnion {| op := o; query := q |})
  = unionData_toSql (appendPart emptyUnion {| op := o'; query := q |}).
Proof. reflexivity. Qed.

(** X2: the constructor and the chained call build the same union: putting
    a statement last in [Union(...)] renders as calling [.Union] with it on
    the union of the others, and likewise for [UnionAll]; when there are
    others, the two builders are the same state. *)
Theorem union_constructor_chain (parts : list Sqlizer) (q : Sqlizer) :
  unionData_toSql (Union (parts ++ [q]))
  = unionData_toSql (UnionBuilder_Union (Union parts) q)
  /\ unionData_toSql (UnionAll (parts ++ [q]))
     = unionData_toSql (UnionBuilder_UnionAll (UnionAll parts) q)
  /\ (parts <> [] ->
      Union (parts ++ [q]) = UnionBuilder_Union (Union parts) q
      /\ UnionAll (parts ++ [q]) = UnionBuilder_UnionAll (UnionAll parts) q).
Proof.
  destruct parts as [|p rest].
  - split; [|split]; [apply unionData_toSql_first_op ..|now intros []].
  - unfold Union, UnionAll, UnionBuilder_Union, UnionBuilder_UnionAll.
    rewrite !unionOf_snoc. now repeat split.
Qed.

(** X3: a chain of calls only adds to a union: the segments, the ORDER BY
    expressions and the suffixes of the calls are appended in the order of
    the calls, and the flags of LIMIT, OFFSET and compaction, once set, stay
    set; so a union that has a segment keeps it. *)
Theorem union_calls_accumulate (b : unionData Sqlizer)
    (calls : list (@unionCall Sqlizer)) :
  Parts (applyCalls b calls) = (Parts b ++ flat_map callParts calls)%list
  /\ OrderBy (applyCalls b calls)
     = (OrderBy b ++ flat_map callOrderBy calls)%list
  /\ Suffixes (applyCalls b calls)
     = (Suffixes b ++ flat_map callSuffixes calls)%list
  /\ LimitSet (applyCalls b calls) = LimitSet b || existsb isCallLimit calls
  /\ OffsetSet (applyCalls b calls)
     = OffsetSet b || existsb isCallOffset calls
  /\ CompactOutput (applyCalls b calls)
     = CompactOutput b || existsb isCallCompact calls.
Proof.
  unfold applyCalls. revert b.
  induction calls as [|c calls IH]; intros b.
  - cbn. now rewrite !app_nil_r, !orb_false_r.
  - cbn [fold_left flat_map existsb].
    destruct (IH (applyCall b c)) as [-> [-> [-> [-> [-> ->]]]]].
    destruct c; cbn [applyCall callParts callOrderBy callSuffixes isCallLimit
                     isCallOffset isCallCompact UnionBuilder_Union
                     UnionBuilder_UnionAll UnionBuilder_OrderBy UnionBuilder_Limit
                     UnionBuilder_Offset UnionBuilder_Suffix
                     UnionBuilder_PlaceholderFormat UnionBuilder_Compact
                     appendPart Parts OrderBy Suffixes LimitSet OffsetSet
                     CompactOutput app orb];
      rewrite <- ?app_assoc, ?app_nil_r, ?orb_true_r; repeat split;
      try reflexivity; now destruct (LimitSet b), (OffsetSet b), (CompactOutput b).
Qed.

End UnionMore.

Lemma union_error_no_output_witness :
  unionData_toSql brokenUnion
  = ("", [], Some (errUnionSubquery 2 (errorString "boom"))).
Proof.
  apply (@union_error_no_output Fragment _ brokenUnion). reflexivity.
Defined.

Lemma union_constructor_chain_witness :
  Union ([selectA] ++ [selectB]) = UnionBuilder_Union (Union [selectA]) selectB.
Proof.
  refine (proj1 (proj2 (proj2
            (@union_constructor_chain Fragment _ [selectA] selectB)) _)).
  discriminate.
Defined.

(** ** The CASE builder *)

Section CaseMore.
Context {Sqlizer : Type} `{Renderable Sqlizer}.

Lemma WriteSql_ok (b : sqlizerBuffer) (item : Sqlizer) :
  sbErr b = None -> fragmentOk item ->
  WriteSql b item
  = {| sbBuffer := sbBuffer b ++ fragmentText item;
       sbArgs := sbArgs b ++ fragmentArgs item; sbErr := None |}.
Proof.
  unfold WriteSql, fragmentOk, fragmentText, fragmentArgs, resultErr,
    resultSql, resultArgs.
  intros -> Hok. destruct (nestedToSql item) as [[str args] err].
  cbn [fst snd] in *. subst err. unfold WriteByte, WriteString.
  now rewrite append_assoc.
Qed.

Lemma caseWhenParts_ok (parts : list (whenPart Sqlizer)) :
  Forall (fun p => missingThen p = false) parts ->
  Forall (fun p => Forall fragmentOk (whenChildren p)) parts ->
  forall buf args,
    caseWhenParts parts {| sbBuffer := buf; sbArgs := args; sbErr := None |}
    = Some {| sbBuffer := buf ++ whensText parts;
              sbArgs := args ++ flat_map whenArgs parts; sbErr := None |}.
Proof.
  induction parts as [|p rest IH]; intros Hm Hok buf args.
  - cbn. now rewrite append_nil_r, app_nil_r.
  - inversion Hm as [|? ? Hp Hm']; inversion Hok as [|? ? Hc Hok']; subst.
    cbn [caseWhenParts]. rewrite Hp.
    unfold whenChildren in Hc. inversion Hc as [|? ? Hw Ht]; subst.
    unfold sbWriteString at 1. cbn [sbBuffer sbArgs sbErr].
    rewrite WriteSql_ok by (assumption || reflexivity).
    cbn [sbBuffer sbArgs sbErr].
    cbn [whensText flat_map]. unfold whenText, whenArgs.
    destruct (then_ p) as [t|].
    + inversion Ht; subst.
      unfold sbWriteString. cbn [sbBuffer sbArgs sbErr].
      rewrite WriteSql_ok by (assumption || reflexivity).
      cbn [sbBuffer sbArgs sbErr]. rewrite IH by assumption.
      unfold WriteString. now rewrite !append_assoc, <- !app_assoc.
    + unfold sbAppendArg, sbWriteString. cbn [sbBuffer sbArgs sbErr].
      rewrite IH by assumption.
      unfold WriteString. change (Placeholders 1 ++ " ") with "? ".
      now rewrite !append_assoc, <- !app_assoc.
Qed.

(** X4: the text and the arguments of a CASE whose fragments all render:
    CASE, the operand if any, then for each WHEN part WHEN, its fragment,
    THEN and its fragment or one placeholder, then ELSE with its fragment
    or one placeholder if an ELSE is stored, then END; the arguments are
    those of the fragments and the values bound to the placeholders, in the
    order of the text. *)
Theorem case_render_text (d : caseData Sqlizer) :
  WhenParts d <> [] ->
  Forall (fun p => missingThen p = false) (WhenParts d) ->
  Forall fragmentOk (caseChildren d) ->
  caseData_ToSql d = (caseText d, caseArgs d, None).
Proof.
  intros Hne Hm Hok. rewrite caseData_ToSql_nonempty by assumption.
  unfold caseChildren in Hok.
  apply Forall_app in Hok. destruct Hok as [Hw Hok].
  apply Forall_app in Hok. destruct Hok as [Hp He].
  assert (Hp' : Forall (fun p => Forall fragmentOk (whenChildren p))
                       (WhenParts d)).
  { clear - Hp. induction (WhenParts d) as [|p rest IH]; [constructor|].
    cbn [flat_map] in Hp. apply Forall_app in Hp. destruct Hp as [H1 H2].
    constructor; [assumption|now apply IH]. }
  assert (Hhead : caseHead d
                  = {| sbBuffer :=
                         "CASE " ++ match What d with
                                    | Some w => fragmentText w
                                    | None => ""
                                    end;
                       sbArgs := match What d with
                                 | Some w => fragmentArgs w
                                 | None => []
                                 end;
                       sbErr := None |}).
  { unfold caseHead. destruct (What d) as [w|]; [|reflexivity].
    inversion Hw; subst. rewrite WriteSql_ok by (assumption || reflexivity).
    reflexivity. }
  rewrite Hhead, caseWhenParts_ok by assumption.
  unfold caseElse, caseText, caseArgs, elseText, elseArgs, sqlizerBuffer_ToSql.
  destruct (Else d) as [e|].
  - inversion He; subst. cbn [isSome orb].
    rewrite WriteSql_ok by (assumption || reflexivity).
    cbn [sbWriteString sbBuffer sbArgs sbErr]. unfold WriteString.
    now rewrite !append_assoc, <- !app_assoc.
  - cbn [isSome orb].
    destruct (negb (isNil (ElseValue d)) || ElseNull d);
      cbn [sbWriteString sbAppendArg sbBuffer sbArgs sbErr]; unfold WriteString;
      change (Placeholders 1 ++ " ") with "? ";
      now rewrite ?append_assoc, <- ?app_assoc, ?app_nil_r.
Qed.

End CaseMore.

Lemma case_render_text_witness :
  caseData_ToSql caseElseFragmentThenValue
  = ("CASE WHEN x = ? THEN ? ELSE z END", [vint 1; vstring "one"], None).
Proof.
  change (caseData_ToSql caseElseFragmentThenValue
          = (caseText caseElseFragmentThenValue,
             caseArgs caseElseFragmentThenValue, None)).
  apply (@case_render_text Fragment _ caseElseFragmentThenValue).
  - discriminate.
  - repeat constructor.
  - repeat constructor.
Defined.

Section CaseErrors.
Context {Sqlizer : Type} `{Renderable Sqlizer}.

Lemma firstError_app (start : option error) (l1 l2 : list Sqlizer) :
  firstError (firstError start l1) l2 = firstError start (l1 ++ l2).
Proof.
  revert start. induction l1 as [|x l1 IH]; intros start.
  - destruct start; [now destruct l2|reflexivity].
  - destruct start as [e|]; [now destruct l2|].
    cbn [firstError app]. apply IH.
Qed.

Lemma firstError_Some (e : error) (l : list Sqlizer) :
  firstError (Some e) l = Some e.
Proof. now destruct l. Qed.

Lemma WriteSql_err (b : sqlizerBuffer) (item : Sqlizer) :
  sbErr (WriteSql b item) = firstError (sbErr b) [item]
  /\ exists t, sbBuffer (WriteSql b item) = sbBuffer b ++ t.
Proof.
  unfold WriteSql. destruct (sbErr b) as [e|] eqn:Eb.
  - split; [now rewrite Eb|]. exists "". now rewrite append_nil_r.
  - cbn [firstError]. unfold resultErr.
    destruct (nestedToSql item) as [[str args] [e|]]; cbn [snd sbErr sbBuffer].
    + split; [reflexivity|]. exists "". now rewrite append_nil_r.
    + split; [reflexivity|]. exists (str ++ " ").
      unfold WriteByte, WriteString. now rewrite append_assoc.
Qed.

Lemma caseWhenParts_err (parts : list (whenPart Sqlizer)) :
  Forall (fun p => missingThen p = false) parts ->
  forall sql,
    exists sql',
      caseWhenParts parts sql = Some sql'
      /\ sbErr sql' = firstError (sbErr sql) (flat_map whenChildren parts)
      /\ exists t, sbBuffer sql' = sbBuffer sql ++ t.
Proof.
  induction 1 as [|p rest Hp _ IH]; intros sql.
  - exists sql. repeat split.
    + now destruct (sbErr sql).
    + exists "". now rewrite append_nil_r.
  - cbn [caseWhenParts]. rewrite Hp.
    set (s1 := WriteSql (sbWriteString sql "WHEN ") (when p)).
    destruct (WriteSql_err (sbWriteString sql "WHEN ") (when p))
      as [E1 [t1 B1]]. fold s1 in E1, B1.
    cbn [sbWriteString sbErr sbBuffer] in E1, B1.
    set (s2 := match then_ p with
               | Some t => WriteSql (sbWriteString s1 "THEN ") t
               | None =>
                 sbAppendArg (sbWriteString (sbWriteString s1 "THEN ")
                                (Placeholders 1 ++ " ")) (thenValue p)
               end).
    assert (E2 : sbErr s2
                 = firstError (sbErr s1)
                     (match then_ p with Some t => [t] | None => [] end)
                 /\ exists t, sbBuffer s2 = sbBuffer s1 ++ t).
    { subst s2. destruct (then_ p) as [t|].
      - destruct (WriteSql_err (sbWriteString s1 "THEN ") t) as [E [t2 B]].
        cbn [sbWriteString sbErr sbBuffer] in E, B. split; [exact E|].
        exists ("THEN " ++ t2). unfold WriteString in B.
        now rewrite B, append_assoc.
      - cbn [sbAppendArg sbWriteString sbErr sbBuffer].
        split; [now destruct (sbErr s1)|].
        exists ("THEN " ++ Placeholders 1 ++ " "). unfold WriteString.
        now rewrite !append_assoc. }
    destruct E2 as [E2 [t2 B2]].
    destruct (IH s2) as [sql' [Hs [E3 [t3 B3]]]].
    exists sql'. split; [exact Hs|]. split.
    + rewrite E3, E2, E1. cbn [flat_map]. unfold whenChildren.
      rewrite !firstError_app. reflexivity.
    + exists ("WHEN " ++ t1 ++ t2 ++ t3). rewrite B3, B2, B1.
      unfold WriteString. now rewrite !append_assoc.
Qed.

(** X5: when a fragment of a CASE fails, the CASE returns the error of the
    first fragment that fails, in the order operand, WHEN and THEN of each
    part, ELSE, as it is, with no wrapping; unlike a union it returns it
    together with a text, which starts with CASE and ends with END. *)
Theorem case_first_error (d : caseData Sqlizer) :
  WhenParts d <> [] ->
  Forall (fun p => missingThen p = false) (WhenParts d) ->
  resultErr (caseData_ToSql d) = firstError None (caseChildren d)
  /\ exists mid, resultSql (caseData_ToSql d) = "CASE " ++ mid ++ "END".
Proof.
  intros Hne Hm. rewrite caseData_ToSql_nonempty by assumption.
  assert (Hh : sbErr (caseHead d)
               = firstError None
                   (match What d with Some w => [w] | None => [] end)
               /\ exists t, sbBuffer (caseHead d) = "CASE " ++ t).
  { unfold caseHead. destruct (What d) as [w|].
    - match goal with |- context [WriteSql ?b w] =>
        destruct (WriteSql_err b w) as [E [t B]] end.
      cbn [sbWriteString sbErr sbBuffer] in E, B. split; [exact E|].
      exists t. now rewrite B.
    - split; [reflexivity|]. now exists "". }
  destruct Hh as [Eh [th Bh]].
  destruct (caseWhenParts_err Hm (caseHead d)) as [sql [-> [Ew [tw Bw]]]].
  assert (He : sbErr (caseElse d sql)
               = firstError (sbErr sql)
                   (match Else d with Some e => [e] | None => [] end)
               /\ exists t, sbBuffer (caseElse d sql)
                            = sbBuffer sql ++ t ++ "END").
  { unfold caseElse. destruct (Else d) as [e|].
    - cbn [isSome orb sbWriteString sbErr sbBuffer].
      match goal with |- context [WriteSql ?b e] =>
        destruct (WriteSql_err b e) as [E [t B]] end.
      unfold sbWriteString in E, B |- *. cbn [sbErr sbBuffer] in E, B |- *.
      split; [exact E|].
      exists ("ELSE " ++ t). unfold WriteString in *.
      now rewrite B, !append_assoc.
    - cbn [isSome orb].
      destruct (negb (isNil (ElseValue d)) || ElseNull d);
        cbn [sbWriteString sbAppendArg sbErr sbBuffer];
        (split; [now destruct (sbErr sql)|]); unfold WriteString.
      + exists ("ELSE " ++ Placeholders 1 ++ " "). now rewrite !append_assoc.
      + now exists "". }
  destruct He as [Ee [te Be]].
  unfold sqlizerBuffer_ToSql, resultErr, resultSql. cbn [fst snd]. split.
  - rewrite Ee, Ew, Eh. unfold caseChildren. now rewrite !firstError_app.
  - exists (th ++ tw ++ te). rewrite Be, Bw, Bh. now rewrite !append_assoc.
Qed.

Lemma applyCaseCalls_parts (cs : list (@caseCall Sqlizer)) :
  forall b : caseData Sqlizer,
    WhenParts (applyCaseCalls b cs)
    = (WhenParts b ++ flat_map callWhenParts cs)%list.
Proof.
  unfold applyCaseCalls.
  induction cs as [|c cs IH]; intros b; [now rewrite app_nil_r|].
  cbn [fold_left flat_map]. rewrite IH.
  destruct c as [e|w t|e]; cbn [applyCaseCall callWhenParts app].
  - reflexivity.
  - unfold CaseBuilder_When. cbn [WhenParts]. now rewrite <- app_assoc.
  - unfold CaseBuilder_Else. destruct e as [s|v]; [reflexivity|].
    now destruct (isNil v).
Qed.

Lemma callWhenParts_then (cs : list (@caseCall Sqlizer)) :
  Forall (fun p => missingThen p = false) (flat_map callWhenParts cs).
Proof.
  induction cs as [|c cs IH]; [constructor|].
  cbn [flat_map]. apply Forall_app. split; [|exact IH].
  destruct c; cbn [callWhenParts]; try constructor;
    [apply newWhenPart_has_then|constructor].
Qed.

Lemma callWhenParts_nil (cs : list (@caseCall Sqlizer)) :
  flat_map callWhenParts cs = [] <-> existsb isCallWhen cs = false.
Proof.
  induction cs as [|c cs IH]; [now split|].
  cbn [flat_map existsb]. destruct c; cbn [callWhenParts isCallWhen app orb];
    try exact IH.
  split; discriminate.
Qed.

(** X6: a CASE made by calls on the empty builder never takes the return
    for a WHEN part without THEN, as every part that [When] adds has one;
    with no call of [When] it fails with the error of the missing WHEN
    clause, and otherwise what it returns comes from the buffer, after all
    the parts and the ELSE were written. *)
Theorem case_calls_render (cs : list (@caseCall Sqlizer)) :
  let b := applyCaseCalls emptyCase cs in
  Forall (fun p => missingThen p = false) (WhenParts b)
  /\ (existsb isCallWhen cs = false ->
      caseData_ToSql b = ("", [], Some errCaseNoWhen))
  /\ (existsb isCallWhen cs = true ->
      exists sql,
        caseWhenParts (WhenParts b) (caseHead b) = Some sql
        /\ caseData_ToSql b = sqlizerBuffer_ToSql (caseElse b sql)).
Proof.
  intros b. subst b.
  pose proof (applyCaseCalls_parts cs emptyCase) as HP. cbn [emptyCase WhenParts app] in HP.
  assert (Hm : Forall (fun p => missingThen p = false)
                      (WhenParts (applyCaseCalls emptyCase cs))).
  { rewrite HP. apply callWhenParts_then. }
  split; [exact Hm|]. split.
  - intros Hc. apply callWhenParts_nil in Hc.
    unfold caseData_ToSql. now rewrite HP, Hc.
  - intros Hc.
    assert (Hne : WhenParts (applyCaseCalls emptyCase cs) <> []).
    { rewrite HP. intros E. apply callWhenParts_nil in E.
      rewrite E in Hc. discriminate. }
    destruct (caseWhenParts_err Hm (caseHead (applyCaseCalls emptyCase cs)))
      as [sql [Hs _]].
    exists sql. split; [exact Hs|].
    now rewrite caseData_ToSql_nonempty, Hs.
Qed.

(** X7: what one call of [When] writes, on a buffer without error and with
    fragments that render: WHEN, the fragment, THEN and, for a THEN that is
    a fragment, that fragment; for any other THEN one placeholder with the
    value as the argument added, nil for a nil THEN. *)
Theorem when_then_forms (w : any Sqlizer) (buf : Buffer) (args : list value) :
  fragmentOk (newPart w) ->
  (forall v,
      caseWhenParts [newWhenPart w (AnyValue v)]
        {| sbBuffer := buf; sbArgs := args; sbErr := None |}
      = Some {| sbBuffer :=
                  buf ++ "WHEN " ++ fragmentText (newPart w) ++ "THEN ? ";
                sbArgs := args ++ fragmentArgs (newPart w) ++ [v];
                sbErr := None |})
  /\ (forall t,
         fragmentOk (newPart (AnySqlizer t)) ->
         caseWhenParts [newWhenPart w (AnySqlizer t)]
           {| sbBuffer := buf; sbArgs := args; sbErr := None |}
         = Some {| sbBuffer :=
                     buf ++ "WHEN " ++ fragmentText (newPart w) ++ "THEN "
                     ++ fragmentText (newPart (AnySqlizer t));
                   sbArgs := args ++ fragmentArgs (newPart w)
                             ++ fragmentArgs (newPart (AnySqlizer t));
                   sbErr := None |}).
Proof.
  intros Hw. split.
  - intros v.
    rewrite caseWhenParts_ok.
    + cbn [whensText flat_map]. unfold whenText, whenArgs, newWhenPart.
      destruct (isNil v) eqn:Hv; cbn [when then_ thenValue];
        rewrite ?append_nil_r, ?app_nil_r; [|reflexivity].
      destruct v; try discriminate. reflexivity.
    + constructor; [apply newWhenPart_has_then|constructor].
    + constructor; [|constructor]. unfold whenChildren, newWhenPart.
      destruct (isNil v); cbn [when then_]; now repeat constructor.
  - intros t Ht.
    rewrite caseWhenParts_ok.
    + cbn [whensText flat_map]. unfold whenText, whenArgs, newWhenPart.
      cbn [when then_]. now rewrite ?append_nil_r, ?app_nil_r.
    + constructor; [apply newWhenPart_has_then|constructor].
    + constructor; [|constructor]. unfold whenChildren, newWhenPart.
      cbn [when then_]. now repeat constructor.
Qed.

Lemma markers_fragmentText (x : Sqlizer) :
  balanced (nestedToSql x) ->
  markers (fragmentText x) = List.length (fragmentArgs x).
Proof.
  unfold balanced, fragmentText, fragmentArgs. intros <-.
  rewrite markers_app. cbn. lia.
Qed.

(** X8: a CASE keeps markers and arguments in step: when every fragment
    renders a text with as many neutral markers as it returns arguments,
    the CASE does too. *)
Theorem case_balanced (d : caseData Sqlizer) :
  WhenParts d <> [] ->
  Forall (fun p => missingThen p = false) (WhenParts d) ->
  Forall fragmentOk (caseChildren d) ->
  Forall (fun x => balanced (nestedToSql x)) (caseChildren d) ->
  balanced (caseData_ToSql d).
Proof.
  intros Hne Hm Hok Hb.
  assert (Hr : caseData_ToSql d = (caseText d, caseArgs d, None)).
  { rewrite caseData_ToSql_nonempty by assumption.
    unfold caseChildren in Hok.
    apply Forall_app in Hok. destruct Hok as [Hw Hok].
    apply Forall_app in Hok. destruct Hok as [Hp He].
    assert (Hp' : Forall (fun p => Forall fragmentOk (whenChildren p))
                         (WhenParts d)).
    { clear - Hp. induction (WhenParts d) as [|p rest IH]; [constructor|].
      cbn [flat_map] in Hp. apply Forall_app in Hp. destruct Hp as [H1 H2].
      constructor; [assumption|now apply IH]. }
    assert (Hhead : caseHead d
                    = {| sbBuffer :=
                           "CASE " ++ match What d with
                                      | Some w => fragmentText w
                                      | None => ""
                                      end;
                         sbArgs := match What d with
                                   | Some w => fragmentArgs w
                                   | None => []
                                   end;
                         sbErr := None |}).
    { unfold caseHead. destruct (What d) as [w|]; [|reflexivity].
      inversion Hw; subst. rewrite WriteSql_ok by (assumption || reflexivity).
      reflexivity. }
    rewrite Hhead, caseWhenParts_ok by assumption.
    unfold caseElse, caseText, caseArgs, elseText, elseArgs,
      sqlizerBuffer_ToSql.
    destruct (Else d) as [e|].
    - inversion He; subst. cbn [isSome orb].
      rewrite WriteSql_ok by (assumption || reflexivity).
      cbn [sbWriteString sbBuffer sbArgs sbErr]. unfold WriteString.
      now rewrite !append_assoc, <- !app_assoc.
    - cbn [isSome orb].
      destruct (negb (isNil (ElseValue d)) || ElseNull d);
        cbn [sbWriteString sbAppendArg sbBuffer sbArgs sbErr];
        unfold WriteString; change (Placeholders 1 ++ " ") with "? ";
        now rewrite ?append_assoc, <- ?app_assoc, ?app_nil_r. }
  rewrite Hr. unfold balanced, resultSql, resultArgs. cbn [fst snd].
  unfold caseChildren in Hb.
  apply Forall_app in Hb. destruct Hb as [Bw Hb].
  apply Forall_app in Hb. destruct Hb as [Bp Be].
  unfold caseText, caseArgs. rewrite !markers_app, !length_app.
  assert (Hwhat : markers match What d with
                          | Some w => fragmentText w
                          | None => ""
                          end
                  = List.length match What d with
                                | Some w => fragmentArgs w
                                | None => []
                                end).
  { destruct (What d) as [w|]; [|reflexivity].
    inversion Bw; subst. now apply markers_fragmentText. }
  assert (Hwhens : markers (whensText (WhenParts d))
                   = List.length (flat_map whenArgs (WhenParts d))).
  { clear - Bp. induction (WhenParts d) as [|p rest IH]; [reflexivity|].
    cbn [flat_map whensText] in *. apply Forall_app in Bp.
    destruct Bp as [B1 B2]. rewrite markers_app, length_app, (IH B2).
    f_equal. unfold whenText, whenArgs, whenChildren in *.
    inversion B1 as [|? ? Bw Bt]; subst.
    rewrite !markers_app, length_app, (@markers_fragmentText _ Bw).
    cbn [markers isMarker Ascii.eqb Bool.eqb Nat.add]. f_equal.
    destruct (then_ p) as [t|]; [|reflexivity].
    inversion Bt; subst. now apply markers_fragmentText. }
  assert (Helse : markers (elseText d) = List.length (elseArgs d)).
  { unfold elseText, elseArgs. destruct (Else d) as [e|].
    - inversion Be; subst. rewrite markers_app.
      now rewrite (@markers_fragmentText e) by assumption.
    - now destruct (negb (isNil (ElseValue d)) || ElseNull d). }
  rewrite Hwhat, Hwhens, Helse. cbn. lia.
Qed.

End CaseErrors.

Lemma case_first_error_witness :
  resultErr (caseData_ToSql brokenCase) = Some (errorString "boom")
  /\ exists mid,
       resultSql (caseData_ToSql brokenCase) = "CASE " ++ mid ++ "END".
Proof.
  change (resultErr (caseData_ToSql brokenCase)
          = firstError None (caseChildren brokenCase)
          /\ exists mid,
               resultSql (caseData_ToSql brokenCase) = "CASE " ++ mid ++ "END").
  apply (@case_first_error Fragment _ brokenCase).
  - discriminate.
  - repeat constructor.
Defined.

Lemma case_calls_render_witness :
  caseData_ToSql
    (applyCaseCalls emptyCase
       [CallElse (AnyValue (vint 7)); CallWhat (AnySqlizer (Expr "c" []))])
  = ("", [], Some errCaseNoWhen).
Proof.
  apply (proj1 (proj2 (@case_calls_render Fragment _
    [CallElse (AnyValue (vint 7)); CallWhat (AnySqlizer (Expr "c" []))]))).
  reflexivity.
Defined.

Lemma when_then_forms_witness :
  caseWhenParts
    [newWhenPart (AnySqlizer (Expr "x = ?" [vint 1])) (AnyValue vnil)]
    {| sbBuffer := "CASE "; sbArgs := []; sbErr := None |}
  = Some {| sbBuffer := "CASE WHEN x = ? THEN ? ";
            sbArgs := [vint 1; vnil]; sbErr := None |}.
Proof.
  refine (proj1 (@when_then_forms Fragment _
                   (AnySqlizer (Expr "x = ?" [vint 1])) "CASE " [] _) vnil).
  reflexivity.
Defined.

Lemma case_balanced_witness : balanced (caseData_ToSql caseElseFragmentThenValue).
Proof.
  apply (@case_balanced Fragment _ caseElseFragmentThenValue).
  - discriminate.
  - repeat constructor.
  - repeat constructor.
  - repeat constructor.
Defined.

Section LateralMore.
Context {Sqlizer : Type} `{Renderable Sqlizer}.

(** X9: how the LATERAL parts fail.  A JOIN part returns the error of its
    subquery, and only when the subquery renders that of its ON condition; a
    FROM part returns the error of its subquery; a part that fails returns
    the error as it is, with an empty text and no argument. *)
Theorem lateral_part_failure (p : joinLateralSelectPart Sqlizer)
    (q : fromSelectLateralPart Sqlizer) :
  resultErr (joinLateralSelectPart_ToSql p)
  = match resultErr (ToSql (sel p)) with
    | Some e => Some e
    | None =>
      match on p with
      | Some o => resultErr (ToSql o)
      | None => None
      end
    end
  /\ (forall e,
         resultErr (joinLateralSelectPart_ToSql p) = Some e ->
         joinLateralSelectPart_ToSql p = ("", [], Some e))
  /\ resultErr (fromSelectLateralPart_ToSql q) = resultErr (ToSql (fromSel q))
  /\ (forall e,
         resultErr (fromSelectLateralPart_ToSql q) = Some e ->
         fromSelectLateralPart_ToSql q = ("", [], Some e)).
Proof.
  unfold joinLateralSelectPart_ToSql, fromSelectLateralPart_ToSql, resultErr.
  destruct (ToSql (sel p)) as [[subSql subArgs] [e|]]; cbn [snd];
    destruct (ToSql (fromSel q)) as [[qSql qArgs] [e2|]]; cbn [snd];
    (destruct (on p) as [o|];
     [destruct (ToSql o) as [[onSql onArgs] [eo|]]; cbn [snd]|]);
    repeat split; intros e' E; try discriminate E;
    now inversion E.
Qed.

(** X10: the LATERAL parts keep markers and arguments in step.  With a join
    keyword and an alias that hold no neutral marker, a part whose subquery
    and ON condition render as many markers as arguments does too, so that
    the markers the parent rewrites are those of the fragments, in the order
    of their arguments. *)
Theorem lateral_part_balanced (p : joinLateralSelectPart Sqlizer)
    (q : fromSelectLateralPart Sqlizer) :
  (markers (joinType p) = 0 -> markers (alias p) = 0 ->
   balanced (ToSql (sel p)) ->
   (forall o, on p = Some o -> balanced (ToSql o)) ->
   balanced (joinLateralSelectPart_ToSql p))
  /\ (markers (fromAlias q) = 0 ->
      balanced (ToSql (fromSel q)) ->
      balanced (fromSelectLateralPart_ToSql q)).
Proof.
  unfold balanced, joinLateralSelectPart_ToSql, fromSelectLateralPart_ToSql,
    resultSql, resultArgs, WriteString.
  split.
  - intros Hj Ha Hs Ho.
    destruct (ToSql (sel p)) as [[subSql subArgs] [e|]]; cbn [fst snd] in *;
      [reflexivity|].
    destruct (on p) as [o|].
    + specialize (Ho o eq_refl).
      destruct (ToSql o) as [[onSql onArgs] [eo|]]; cbn [fst snd] in *;
        [reflexivity|].
      rewrite !markers_app, length_app, Hj, Ha, Hs, Ho. cbn. lia.
    + cbn [fst snd]. rewrite !markers_app, Hj, Ha, Hs. cbn. lia.
  - intros Ha Hs.
    destruct (ToSql (fromSel q)) as [[subSql subArgs] [e|]];
      cbn [fst snd] in *; [reflexivity|].
    rewrite !markers_app, Ha, Hs. cbn. lia.
Qed.

End LateralMore.

Lemma lateral_part_failure_witness :
  joinLateralSelectPart_ToSql brokenJoinPart
  = ("", [], Some (errorString "boom")).
Proof.
  apply (proj1 (proj2 (@lateral_part_failure Fragment _ brokenJoinPart
                         {| fromSel := selectA; fromAlias := "x" |}))).
  reflexivity.
Defined.

Lemma lateral_part_balanced_witness :
  balanced
    (joinLateralSelectPart_ToSql
       {| joinType := "LEFT JOIN"; sel := selectA; alias := "x";
          on := Some (Expr "x.id = ?" [vint 3]) |}).
Proof.
  apply (proj1 (@lateral_part_balanced Fragment _
                  {| joinType := "LEFT JOIN"; sel := selectA; alias := "x";
                     on := Some (Expr "x.id = ?" [vint 3]) |}
                  {| fromSel := selectA; fromAlias := "x" |})).
  - reflexivity.
  - reflexivity.
  - reflexivity.
  - intros o [= <-]. reflexivity.
Defined.

(** ** More on [compactSQL] *)

Lemma isMarker_byte (c : ascii) : isMarker c = true -> N_of_ascii c = 63%N.
Proof.
  unfold isMarker. intros E. apply Ascii.eqb_eq in E. now subst.
Qed.

Lemma high_not_marker (c : ascii) :
  (128 <= N_of_ascii c)%N -> isMarker c = false.
Proof.
  intros Hc. destruct (isMarker c) eqn:M; [|reflexivity].
  apply isMarker_byte in M. lia.
Qed.

Lemma first_lead (b : N) x : first b = Some x -> (194 <= b)%N.
Proof.
  unfold first. destruct (N.ltb_spec b 194); [discriminate|now intros _].
Qed.

Lemma inRange_high (lo hi x : N) :
  (locb <= lo)%N -> inRange lo hi x = true -> (128 <= x)%N.
Proof.
  unfold inRange, locb. intros Hl E. apply andb_true_iff in E.
  destruct E as [E _]. apply N.leb_le in E. lia.
Qed.

(** The bytes of a white-space rune hold no neutral marker. *)
Lemma space_rune_head (c0 : ascii) (t0 : string) :
  exists x rest,
    runes (String c0 t0) = x :: runes rest
    /\ String.length rest <= String.length t0
    /\ (isSpaceRune x = true -> markers (snd x) = 0).
Proof.
  unfold isSpaceRune. cbn [runes DecodeRuneInString].
  destruct (first (N_of_ascii c0)) as [[[sz lo] hi]|] eqn:F.
  - pose proof (first_lead _ F) as H0.
    destruct (first_spec _ F) as [_ [Hlo _]].
    assert (M0 : isMarker c0 = false) by (apply high_not_marker; lia).
    assert (Herr : forall t, exists x rest,
               (RuneError, String c0 "") :: runes t = x :: runes rest
               /\ String.length rest <= String.length t
               /\ (IsSpace (fst x) = true -> markers (snd x) = 0)).
    { intros t. exists (RuneError, String c0 ""), t.
      split; [reflexivity|]. split; [lia|]. cbn [fst]. discriminate. }
    destruct t0 as [|c1 t1]; [apply Herr|].
    destruct (inRange lo hi (N_of_ascii c1)) eqn:R1; cbn [negb];
      [|apply Herr].
    assert (M1 : isMarker c1 = false).
    { apply high_not_marker. apply (@inRange_high lo hi); assumption. }
    destruct (Nat.leb sz 2).
    { eexists _, t1. split; [reflexivity|]. split; [cbn; lia|].
      intros _. cbn [snd markers]. now rewrite M0, M1. }
    destruct t1 as [|c2 t2]; [apply Herr|].
    destruct (inRange locb hicb (N_of_ascii c2)) eqn:R2; cbn [negb];
      [|apply Herr].
    assert (M2 : isMarker c2 = false).
    { apply high_not_marker. apply (@inRange_high locb hicb); [apply N.le_refl|assumption]. }
    destruct (Nat.leb sz 3).
    { eexists _, t2. split; [reflexivity|]. split; [cbn; lia|].
      intros _. cbn [snd markers]. now rewrite M0, M1, M2. }
    destruct t2 as [|c3 t3]; [apply Herr|].
    destruct (inRange locb hicb (N_of_ascii c3)) eqn:R3; cbn [negb];
      [|apply Herr].
    assert (M3 : isMarker c3 = false).
    { apply high_not_marker. apply (@inRange_high locb hicb); [apply N.le_refl|assumption]. }
    eexists _, t3. split; [reflexivity|]. split; [cbn; lia|].
    intros _. cbn [snd markers]. now rewrite M0, M1, M2, M3.
  - eexists _, t0. split; [reflexivity|]. split; [lia|].
    cbn [fst snd markers]. intros Hsp.
    destruct (isMarker c0) eqn:M; [|reflexivity].
    apply isMarker_byte in M. rewrite M in Hsp. discriminate Hsp.
Qed.

Lemma space_runes_markers_bounded (n : nat) :
  forall s, String.length s <= n ->
    Forall (fun x => isSpaceRune x = true -> markers (snd x) = 0) (runes s).
Proof.
  induction n as [|n IH]; intros s Hlen.
  - destruct s; [constructor|simpl in Hlen; lia].
  - destruct s as [|c0 t0]; [constructor|].
    destruct (space_rune_head c0 t0) as [x [rest [-> [Hl Hx]]]].
    constructor; [exact Hx|]. apply IH. simpl in Hlen. lia.
Qed.

Lemma space_runes_markers (s : string) :
  Forall (fun x => isSpaceRune x = true -> markers (snd x) = 0) (runes s).
Proof. now apply (space_runes_markers_bounded (n := String.length s)). Qed.

Lemma markers_filter (rs : list (rune * string)) :
  Forall (fun x => isSpaceRune x = true -> markers (snd x) = 0) rs ->
  markers (bytesOf (filter (fun x => negb (isSpaceRune x)) rs))
  = markers (bytesOf rs).
Proof.
  induction 1 as [|x rs Hx _ IH]; [reflexivity|].
  cbn [filter bytesOf]. destruct (isSpaceRune x); cbn [negb bytesOf].
  - now rewrite markers_app, Hx, IH.
  - now rewrite !markers_app, IH.
Qed.

Lemma compactSQL_solid_bytes (s : string) :
  bytesOf (filter (fun x => negb (isSpaceRune x)) (runes (compactSQL s)))
  = bytesOf (filter (fun x => negb (isSpaceRune x)) (runes s)).
Proof.
  pose proof (fieldsLoop_content (runes s) None) as H1.
  pose proof (fieldsLoop_content (runes (compactSQL s)) None) as H2.
  cbn [startBytes append] in H1, H2.
  fold (Fields s) in H1. fold (Fields (compactSQL s)) in H2.
  unfold compactSQL in H2 at 1. rewrite Fields_compactSQL in H2.
  now rewrite <- H1, <- H2.
Qed.

Lemma markers_compactSQL (s : string) : markers (compactSQL s) = markers s.
Proof.
  transitivity (markers (bytesOf (runes (compactSQL s))));
    [now rewrite runes_bytes|].
  transitivity (markers (bytesOf (runes s))); [|now rewrite runes_bytes].
  rewrite <- (markers_filter (space_runes_markers (compactSQL s))).
  rewrite <- (markers_filter (space_runes_markers s)).
  now rewrite compactSQL_solid_bytes.
Qed.

(** X11: compaction touches white space only.  The runes of the compacted
    text that are not white space are those of the text, with their bytes
    and in their order; so the compacted text has as many neutral markers as
    the text, a marker being no part of any white-space rune. *)
Theorem compactSQL_content (s : string) :
  bytesOf (filter (fun x => negb (isSpaceRune x)) (runes (compactSQL s)))
  = bytesOf (filter (fun x => negb (isSpaceRune x)) (runes s))
  /\ markers (compactSQL s) = markers s.
Proof.
  split; [apply compactSQL_solid_bytes|apply markers_compactSQL].
Qed.

Lemma runes_Join (ws : list string) : runes (Join ws " ") = joinRunes ws.
Proof.
  induction ws as [|w rest IH]; [reflexivity|].
  destruct rest as [|w' rest]; [reflexivity|].
  rewrite (@Join_cons w (w' :: rest) " ") by discriminate.
  rewrite runes_app by reflexivity.
  change (" " ++ Join (w' :: rest) " ")
    with (String " " (Join (w' :: rest) " ")).
  rewrite runes_space, IH. reflexivity.
Qed.

Lemma isWord_runes (w : string) :
  isWord w ->
  solid (runes w)
  /\ (exists z r, runes w = z :: r)
  /\ (exists l y, runes w = (l ++ [y])%list).
Proof.
  intros [Hne Hs]. split; [exact Hs|].
  assert (Hr : runes w <> []).
  { intros E. apply Hne. rewrite <- (runes_bytes w), E. reflexivity. }
  split.
  - destruct (runes w) as [|z r]; [contradiction|eauto].
  - destruct (exists_last Hr) as [l [y E]]. eauto.
Qed.

Lemma joinRunes_head (ws : list string) :
  Forall isWord ws -> ws <> [] ->
  exists z r, joinRunes ws = z :: r /\ isSpaceRune z = false.
Proof.
  intros Hw Hne. destruct ws as [|w rest]; [contradiction|].
  inversion Hw as [|? ? Hw1 _]; subst.
  destruct (isWord_runes Hw1) as [Hs [[z [r E]] _]].
  rewrite E in Hs. inversion Hs; subst.
  cbn [joinRunes]. rewrite E.
  destruct rest; cbn [app]; eauto.
Qed.

(** In the runes of words joined by single spaces, a white-space rune is
    the single space between the last rune of a word and the first rune of
    the next. *)
Lemma joinRunes_spacing (ws : list string) :
  Forall isWord ws ->
  forall l x r,
    joinRunes ws = (l ++ x :: r)%list -> isSpaceRune x = true ->
    x = (32%N, " ")
    /\ (exists l' y, l = (l' ++ [y])%list /\ isSpaceRune y = false)
    /\ (exists z r', r = z :: r' /\ isSpaceRune z = false).
Proof.
  induction 1 as [|w rest Hw Hrest IH]; intros l x r E Hx.
  - now destruct l.
  - destruct (isWord_runes Hw) as [Hs [_ [lw [yw Ew]]]].
    assert (Hin : forall a b, runes w = (a ++ x :: b)%list -> False).
    { intros a b Eab. rewrite Eab in Hs. apply Forall_app in Hs.
      destruct Hs as [_ Hs]. inversion Hs as [|? ? Hx' _]; subst.
      rewrite Hx in Hx'. discriminate. }
    cbn [joinRunes] in E. destruct rest as [|w' rest'].
    { exfalso. eapply Hin, E. }
    set (tail := joinRunes (w' :: rest')) in *.
    destruct (joinRunes_head Hrest) as [z [r' [Ez Hz]]]; [discriminate|].
    fold tail in Ez.
    assert (Hsep : l = runes w -> x :: r = (32%N, " ") :: tail ->
              x = (32%N, " ")
              /\ (exists l' y, l = (l' ++ [y])%list /\ isSpaceRune y = false)
              /\ (exists z r', r = z :: r' /\ isSpaceRune z = false)).
    { intros -> [= -> ->]. split; [reflexivity|]. split.
      - exists lw, yw. split; [exact Ew|]. rewrite Ew in Hs.
        apply Forall_app in Hs. destruct Hs as [_ Hs]. now inversion Hs.
      - exists z, r'. now split. }
    apply app_eq_app in E. destruct E as [m [[E1 E2]|[E1 E2]]].
    + destruct m as [|s m].
      * apply Hsep; [now rewrite E1, app_nil_r|now symmetry].
      * exfalso. injection E2 as -> E2. eapply Hin. rewrite E1. reflexivity.
    + destruct m as [|s m].
      * apply Hsep; [now rewrite E1, app_nil_r|exact (eq_sym E2)].
      * injection E2 as <- E2.
        destruct (IH m x r E2 Hx) as [Ex [[l' [y [El Hy]]] Hr]].
        split; [exact Ex|]. split; [|exact Hr].
        exists (runes w ++ (32%N, " ") :: l')%list, y. split; [|exact Hy].
        rewrite E1, El, <- app_assoc. reflexivity.
Qed.

(** X12: the white space of a compacted text.  Every white-space rune of
    the result of [compactSQL] is a single space that stands between two
    runes that are not white space; so the result neither starts nor ends
    with white space, has no two spaces in a row, and holds no tab, line
    break or other ASCII white space than the space. *)
Theorem compactSQL_spacing (s : string) :
  (forall l x r,
      runes (compactSQL s) = (l ++ x :: r)%list -> isSpaceRune x = true ->
      x = (32%N, " ")
      /\ (exists l' y, l = (l' ++ [y])%list /\ isSpaceRune y = false)
      /\ (exists z r', r = z :: r' /\ isSpaceRune z = false))
  /\ ~ Contains (compactSQL s) "  "
  /\ (forall c : ascii,
         (N_of_ascii c < 128)%N -> IsSpace (N_of_ascii c) = true ->
         Contains (compactSQL s) (String c "") -> c = " "%char).
Proof.
  assert (Hshape : forall l x r,
             runes (compactSQL s) = (l ++ x :: r)%list ->
             isSpaceRune x = true ->
             x = (32%N, " ")
             /\ (exists l' y, l = (l' ++ [y])%list /\ isSpaceRune y = false)
             /\ (exists z r', r = z :: r' /\ isSpaceRune z = false)).
  { unfold compactSQL. rewrite runes_Join.
    apply joinRunes_spacing, Fields_words. }
  split; [exact Hshape|]. split.
  - intros [a [b E]].
    assert (Er : runes (compactSQL s)
                 = (runes a ++ (32%N, " ") :: (32%N, " ") :: runes b)%list).
    { rewrite E. rewrite runes_app by reflexivity.
      change ("  " ++ b) with (String " " (String " " b)).
      now rewrite !runes_space. }
    destruct (Hshape _ _ _ Er eq_refl) as [_ [_ [z [r' [Ez Hz]]]]].
    injection Ez as <- _. discriminate Hz.
  - intros c Hc Hsp [a [b E]].
    assert (Er : runes (compactSQL s)
                 = (runes a ++ (N_of_ascii c, String c "") :: runes b)%list).
    { rewrite E. rewrite runes_app.
      - change (String c "" ++ b) with (String c b).
        now rewrite runes_ascii.
      - cbn. unfold inRange, locb.
        destruct (N.leb_spec 128 (N_of_ascii c)); [lia|reflexivity]. }
    destruct (Hshape _ _ _ Er Hsp) as [Ex _].
    now injection Ex as _ ->.
Qed.

Lemma compactSQL_spacing_witness :
  (32%N, " ") = (32%N, " ")
  /\ (exists l' y,
         [(97%N, "a")] = (l' ++ [y])%list /\ isSpaceRune y = false)
  /\ (exists z r',
         [(98%N, "b")] = z :: r' /\ isSpaceRune z = false).
Proof.
  apply (proj1 (compactSQL_spacing
                  ("  a" ++ String "010" (String "009" " b ")))
           [(97%N, "a")] (32%N, " ") [(98%N, "b")]).
  - reflexivity.
  - reflexivity.
Defined.

(** X13: two texts compare equal under [compactedEqual] exactly when they
    have the same words in the same order; a text compares equal to its own
    compaction. *)
Theorem compactedEqual_words (a b : string) :
  (compactedEqual a b = true <-> Fields a = Fields b)
  /\ compactedEqual a (compactSQL a) = true.
Proof.
  unfold compactedEqual. split.
  - rewrite String.eqb_eq. split.
    + intros E. apply (f_equal Fields) in E. unfold compactSQL in E.
      now rewrite !Fields_compactSQL in E.
    + intros E. unfold compactSQL. now rewrite E.
  - rewrite compactSQL_idempotent. apply String.eqb_refl.
Qed.

(** X14: the texts that compaction leaves as they are are the words joined
    by single spaces: [compactSQL] returns its argument exactly when the
    argument is a list of words, each without white space and not empty,
    with one space between two of them. *)
Theorem compactSQL_fixed_points (s : string) :
  compactSQL s = s <-> exists ws, Forall isWord ws /\ s = Join ws " ".
Proof.
  split.
  - intros E. exists (Fields s). split; [apply Fields_words|].
    now symmetry.
  - intros [ws [Hw ->]]. unfold compactSQL. now rewrite Fields_Join.
Qed.

Section UnionBalance.
Context {Sqlizer : Type} `{Renderable Sqlizer}.

Lemma markers_Join (l : list string) (sep : string) :
  Forall (fun e => markers e = 0) l -> markers sep = 0 ->
  markers (Join l sep) = 0.
Proof.
  intros Hl Hsep. induction Hl as [|e l He Hl IH]; [reflexivity|].
  destruct l as [|e' l]; [exact He|].
  rewrite (@Join_cons e (e' :: l) sep) by discriminate.
  now rewrite !markers_app, He, Hsep, IH.
Qed.

Lemma markers_unionTail (parts : list (unionPart Sqlizer)) :
  Forall (fun p => balanced (ToSql (query p))) parts ->
  Forall (fun p => markers (op p) = 0) parts ->
  markers (unionTail parts) = List.length (unionArgs parts).
Proof.
  unfold unionArgs.
  induction 1 as [|p rest Hp _ IH]; intros Ho; [reflexivity|].
  inversion Ho as [|? ? Ho1 Ho2]; subst.
  cbn [unionTail flat_map]. rewrite !markers_app, length_app, Ho1, (IH Ho2).
  unfold balanced in Hp. unfold segmentSql, segmentArgs. rewrite Hp.
  cbn. lia.
Qed.

Lemma markers_unionClauses (d : unionData Sqlizer) (buf : Buffer) :
  Forall (fun e => markers e = 0) (OrderBy d) ->
  markers (unionClauses d buf) = markers buf.
Proof.
  intros Ho. rewrite unionClauses_split, !markers_app.
  assert (H1 : markers (orderByClause d) = 0).
  { unfold orderByClause. destruct (Nat.ltb 0 _); [|reflexivity].
    rewrite markers_app, markers_Join by (assumption || reflexivity).
    reflexivity. }
  assert (H2 : markers (limitClause d) = 0).
  { unfold limitClause. destruct (LimitSet d); [|reflexivity].
    rewrite markers_app, (@plainText_markers _ (proj2 (utoa_plainWord _))).
    reflexivity. }
  assert (H3 : markers (offsetClause d) = 0).
  { unfold offsetClause. destruct (OffsetSet d); [|reflexivity].
    rewrite markers_app, (@plainText_markers _ (proj2 (utoa_plainWord _))).
    reflexivity. }
  rewrite H1, H2, H3. lia.
Qed.

(** X15: a union keeps markers and arguments in step.  Without suffixes,
    and with no placeholder format or the question-mark format, a union
    whose subqueries render as many neutral markers as arguments, and whose
    operators and ORDER BY expressions hold no marker, does so too, compacted
    or not; a union that fails returns neither text nor arguments. *)
Theorem union_balanced (d : unionData Sqlizer) :
  Suffixes d = [] ->
  unionPlaceholderFormat d = None
  \/ unionPlaceholderFormat d = Some Question ->
  Forall (fun p => balanced (ToSql (query p))) (Parts d) ->
  Forall (fun p => markers (op p) = 0) (Parts d) ->
  Forall (fun e => markers e = 0) (OrderBy d) ->
  balanced (unionData_toSql d).
Proof.
  intros Hsfx Hfmt Hb Hop Hord.
  destruct (Parts d) as [|p rest] eqn:EP.
  { unfold unionData_toSql. rewrite EP. reflexivity. }
  rewrite unionData_toSql_nonempty by (rewrite EP; discriminate).
  destruct (unionParts (Parts d) 0 "" []) as [[buf args]|e] eqn:EU;
    [|reflexivity].
  pose proof (unionParts_inl _ _ _ _ EU) as Hok.
  rewrite (unionParts_body Hok) in EU. injection EU as <- <-.
  rewrite Hsfx. cbn [List.length Nat.ltb Nat.leb].
  rewrite unionFinish_post.
  unfold balanced, resultSql, resultArgs. cbn [fst snd].
  assert (Hpost : forall t, markers (unionPost d t) = markers t).
  { intros t. unfold unionPost.
    assert (Hf : match unionPlaceholderFormat d with
                 | Some f => fst (ReplacePlaceholders f t)
                 | None => t
                 end = t).
    { destruct Hfmt as [-> | ->]; reflexivity. }
    rewrite Hf. destruct (CompactOutput d); [apply markers_compactSQL|easy]. }
  rewrite Hpost, markers_unionClauses by assumption.
  rewrite EP in *. inversion Hb as [|? ? Hb1 Hb2]; subst.
  inversion Hop as [|? ? _ Ho2]; subst.
  unfold unionBody. rewrite !markers_app, (markers_unionTail Hb2 Ho2).
  unfold unionArgs. cbn [flat_map]. rewrite length_app.
  unfold balanced in Hb1. unfold segmentSql, segmentArgs. rewrite Hb1.
  cbn. lia.
Qed.

End UnionBalance.

Lemma union_balanced_witness :
  balanced
    (unionData_toSql
       (UnionBuilder_Compact
          (UnionBuilder_Limit
             (UnionBuilder_OrderBy (UnionAll [selectA; selectB]) ["id"]) 7))).
Proof.
  apply (@union_balanced Fragment _).
  - reflexivity.
  - left. reflexivity.
  - repeat constructor.
  - repeat constructor.
  - repeat constructor.
Defined.

Section UnionSetters.
Context {Sqlizer : Type} `{Renderable Sqlizer}.

Lemma applyCalls_app (b : unionData Sqlizer) (c1 c2 : list unionCall) :
  applyCalls b (c1 ++ c2) = applyCalls (applyCalls b c1) c2.
Proof. unfold applyCalls. apply fold_left_app. Qed.

Lemma applyCalls_PlaceholderFormat (rest : list (@unionCall Sqlizer)) :
  existsb isCallPlaceholderFormat rest = false ->
  forall b : unionData Sqlizer,
    unionPlaceholderFormat (applyCalls b rest) = unionPlaceholderFormat b.
Proof.
  induction rest as [|c rest IH]; intros Hr b; [reflexivity|].
  cbn [existsb] in Hr. apply orb_false_iff in Hr. destruct Hr as [Hc Hr].
  change (applyCalls b (c :: rest)) with (applyCalls (applyCall b c) rest).
  rewrite (IH Hr). destruct c; try discriminate Hc; reflexivity.
Qed.

(** X16: the values a union keeps one of are those of the last call that
    sets them: after any chain of calls, the limit is the argument of the
    last [Limit], the offset that of the last [Offset] and the placeholder
    format that of the last [PlaceholderFormat], whatever was called before
    and whatever other calls follow. *)
Theorem union_last_call_wins (b : unionData Sqlizer)
    (calls rest : list (@unionCall Sqlizer)) :
  (forall n,
      existsb isCallLimit rest = false ->
      let u := applyCalls b (calls ++ CallLimit n :: rest) in
      LimitSet u = true /\ Limit u = n)
  /\ (forall n,
         existsb isCallOffset rest = false ->
         let u := applyCalls b (calls ++ CallOffset n :: rest) in
         OffsetSet u = true /\ Offset u = n)
  /\ (forall f,
         existsb isCallPlaceholderFormat rest = false ->
         unionPlaceholderFormat
           (applyCalls b (calls ++ CallPlaceholderFormat f :: rest))
         = Some f).
Proof.
  split; [|split].
  - intros n Hr u. subst u. rewrite applyCalls_app.
    change (applyCalls (applyCalls b calls) (CallLimit n :: rest))
      with (applyCalls (UnionBuilder_Limit (applyCalls b calls) n) rest).
    destruct (@applyCalls_LimitSet _ rest Hr
                (UnionBuilder_Limit (applyCalls b calls) n)) as [-> ->].
    now split.
  - intros n Hr u. subst u. rewrite applyCalls_app.
    change (applyCalls (applyCalls b calls) (CallOffset n :: rest))
      with (applyCalls (UnionBuilder_Offset (applyCalls b calls) n) rest).
    destruct (@applyCalls_OffsetSet _ rest Hr
                (UnionBuilder_Offset (applyCalls b calls) n)) as [-> ->].
    now split.
  - intros f Hr. rewrite applyCalls_app.
    change (applyCalls (applyCalls b calls) (CallPlaceholderFormat f :: rest))
      with (applyCalls
              (UnionBuilder_PlaceholderFormat (applyCalls b calls) f) rest).
    now rewrite (@applyCalls_PlaceholderFormat rest Hr).
Qed.

End UnionSetters.

Lemma union_last_call_wins_witness :
  Limit
    (applyCalls (Union [selectA])
       ([CallLimit 5; CallOrderBy ["id"]]
          ++ CallLimit 0 :: [CallCompact; CallUnion selectB]))
  = 0%N.
Proof.
  refine (proj2 (proj1 (@union_last_call_wins Fragment (Union [selectA])
            [CallLimit 5; CallOrderBy ["id"]]
            [CallCompact; CallUnion selectB]) 0%N _)).
  reflexivity.
Defined.
